(** * bili-open-live-go: the wire-frame codec, the streaming connection,
      the client facade and the request signature.

    A shallow embedding of [client.go] (with the WebSocket protocol file it
    carries) and [protocol.go].  Go integers are [Z] with the conversions
    [int16], [int32], [uint16], [uint32] written out; byte slices carry
    their visible elements and the rest of their backing array; a run-time
    panic is an outcome of its own. *)

From Stdlib Require Import ZArith List Lia Bool String Ascii DecimalString.
From Stdlib Require Import Sorted.
From coqutil Require Import Byte.
From coqutil Require Import Z.bitblast.
From stdpp Require Import base option gmap strings.

Import ListNotations.
Local Open Scope Z_scope.

(* ------------------------------------------------------------------ *)
(** ** Outcomes: a Go call returns, or panics                           *)
(* ------------------------------------------------------------------ *)

Inductive runtime_error : Type :=
| SliceBoundsOutOfRange
| IndexOutOfRange
| NilPointerDereference
| LibraryPanic.   (* a [panic] raised inside a library the package calls *)

Inductive outcome (A : Type) : Type :=
| Ret (a : A)
| Panic (e : runtime_error)
| Deadlock.

Arguments Ret {A} a.
Arguments Panic {A} e.
Arguments Deadlock {A}.

#[export] Instance outcome_bind : MBind outcome :=
  fun A B (k : A -> outcome B) (m : outcome A) =>
    match m with
    | Ret a => k a
    | Panic e => Panic e
    | Deadlock => Deadlock
    end.

#[export] Instance outcome_ret : MRet outcome := fun A a => Ret a.

(** Go [error] values.  [fmt.Errorf] with integer verbs keeps its format
    and arguments; [%w] keeps the wrapped cause; errors made by the
    libraries the package calls are opaque. *)
Inductive error : Type :=
| Errorf (format : string) (args : list Z)
| Wrapf (format : string) (cause : error)
| CommonError (code : Z) (message requestID : string)
| External (what : string).

(* ------------------------------------------------------------------ *)
(** ** Fixed-width integers                                             *)
(* ------------------------------------------------------------------ *)

Definition uint16 (z : Z) : Z := z mod 2 ^ 16.
Definition uint32 (z : Z) : Z := z mod 2 ^ 32.
Definition int16 (z : Z) : Z := (z + 2 ^ 15) mod 2 ^ 16 - 2 ^ 15.
Definition int32 (z : Z) : Z := (z + 2 ^ 31) mod 2 ^ 32 - 2 ^ 31.

Definition is_int16 (z : Z) : Prop := - 2 ^ 15 <= z < 2 ^ 15.
Definition is_int32 (z : Z) : Prop := - 2 ^ 31 <= z < 2 ^ 31.

(* ------------------------------------------------------------------ *)
(** ** Byte slices                                                      *)
(* ------------------------------------------------------------------ *)

(** A [[]byte]: [elems] are the [len] visible bytes, [spare] the bytes of
    the backing array between [len] and [cap]. *)
Record slice : Type := mkSlice {
  elems : list byte;
  spare : list byte
}.

Definition slice_len (s : slice) : Z := Z.of_nat (length (elems s)).
Definition slice_cap (s : slice) : Z :=
  Z.of_nat (length (elems s) + length (spare s)).

(** The slice [s[lo:hi]] when the bounds are legal: it may reach into the
    spare part of the backing array. *)
Definition subslice (s : slice) (lo hi : Z) : slice :=
  let arr := (elems s ++ spare s)%list in
  {| elems := firstn (Z.to_nat (hi - lo)) (skipn (Z.to_nat lo) arr);
     spare := skipn (Z.to_nat hi) arr |}.

(** [s[lo:hi]]: legal when [0 <= lo <= hi <= cap(s)]. *)
Definition slice_range (s : slice) (lo hi : Z) : outcome slice :=
  if (0 <=? lo) && (lo <=? hi) && (hi <=? slice_cap s) then
    Ret (subslice s lo hi)
  else Panic SliceBoundsOutOfRange.

(** [s[lo:]]: the upper bound defaults to [len(s)]. *)
Definition slice_from (s : slice) (lo : Z) : outcome slice :=
  if (0 <=? lo) && (lo <=? slice_len s) then
    Ret {| elems := skipn (Z.to_nat lo) (elems s); spare := spare s |}
  else Panic SliceBoundsOutOfRange.

(* ------------------------------------------------------------------ *)
(** ** encoding/binary, big endian                                      *)
(* ------------------------------------------------------------------ *)

(** [binary.BigEndian.Uint16(b)]: bounds check on [b[1]], then
    [uint16(b[1]) | uint16(b[0])<<8]. *)
Definition BigEndian_Uint16 (b : slice) : outcome Z :=
  match elems b with
  | b0 :: b1 :: _ =>
      Ret (Z.lor (byte.unsigned b1) (Z.shiftl (byte.unsigned b0) 8))
  | _ => Panic IndexOutOfRange
  end.

(** [binary.BigEndian.Uint32(b)]: bounds check on [b[3]], then
    [uint32(b[3]) | uint32(b[2])<<8 | uint32(b[1])<<16 | uint32(b[0])<<24]. *)
Definition BigEndian_Uint32 (b : slice) : outcome Z :=
  match elems b with
  | b0 :: b1 :: b2 :: b3 :: _ =>
      Ret (Z.lor (Z.lor (Z.lor (byte.unsigned b3)
                               (Z.shiftl (byte.unsigned b2) 8))
                        (Z.shiftl (byte.unsigned b1) 16))
                 (Z.shiftl (byte.unsigned b0) 24))
  | _ => Panic IndexOutOfRange
  end.

(** [binary.BigEndian.PutUint16] and [PutUint32] on a fresh buffer. *)
Definition BigEndian_PutUint16 (v : Z) : list byte :=
  [byte.of_Z (Z.shiftr v 8); byte.of_Z v].

Definition BigEndian_PutUint32 (v : Z) : list byte :=
  [byte.of_Z (Z.shiftr v 24); byte.of_Z (Z.shiftr v 16);
   byte.of_Z (Z.shiftr v 8); byte.of_Z v].

(** The values [binary.Write] is given in [writeWsProtoMsg]. *)
Inductive binary_data : Type :=
| DInt16 (v : Z)
| DInt32 (v : Z)
| DBytes (bs : list byte).

Definition binary_encode (d : binary_data) : list byte :=
  match d with
  | DInt16 v => BigEndian_PutUint16 (uint16 v)
  | DInt32 v => BigEndian_PutUint32 (uint32 v)
  | DBytes bs => bs
  end.

(** [io.Writer]: one [Write] call, returning the writer afterwards and
    the error, if any. *)
Class Writer (W : Type) : Type := io_Write : W -> list byte -> W * option error.

(** [bytes.Buffer]: [Write] appends and never fails. *)
#[export] Instance buffer_Writer : Writer (list byte) :=
  fun w bs => ((w ++ bs)%list, None).

(** [binary.Write(w, binary.BigEndian, d)]. *)
Definition binary_Write {W : Type} `{Writer W} (w : W) (d : binary_data)
  : W * option error :=
  io_Write w (binary_encode d).

(* ------------------------------------------------------------------ *)
(** ** The frame codec                                                  *)
(* ------------------------------------------------------------------ *)

Definition wsProtoMaxBodySize : Z := int32 (Z.shiftl 1 11).
Definition wsProtoCmdSize : Z := 4.
Definition wsProtoPackSize : Z := 4.
Definition wsProtoHeaderSize : Z := 2.
Definition wsProtoVerSize : Z := 2.
Definition wsProtoOperationSize : Z := 4.
Definition wsProtoSeqIdSize : Z := 4.
Definition wsProtoHeartbeatSize : Z := 4.
Definition wsProtoRawHeaderSize : Z :=
  wsProtoPackSize + wsProtoHeaderSize + wsProtoVerSize
  + wsProtoOperationSize + wsProtoSeqIdSize.
Definition wsProtoMaxPackSize : Z :=
  int32 (wsProtoMaxBodySize + int32 wsProtoRawHeaderSize).
Definition wsProtoPackOffset : Z := 0.
Definition wsProtoHeaderOffset : Z := wsProtoPackOffset + wsProtoPackSize.
Definition wsProtoVerOffset : Z := wsProtoHeaderOffset + wsProtoHeaderSize.
Definition wsProtoOperationOffset : Z := wsProtoVerOffset + wsProtoVerSize.
Definition wsProtoSeqIdOffset : Z :=
  wsProtoOperationOffset + wsProtoOperationSize.
Definition wsProtoHeartbeatOffset : Z := wsProtoSeqIdOffset + wsProtoSeqIdSize.

(** [wsProtoOp] is an [int32]. *)
Definition wsProtoOp : Type := Z.
Definition wsProtoOpHeartbeat : wsProtoOp := 2.
Definition wsProtoOpHeartbeatReply : wsProtoOp := 3.
Definition wsProtoOpSendMsgReply : wsProtoOp := 5.
Definition wsProtoOpAuth : wsProtoOp := 7.
Definition wsProtoOpAuthReply : wsProtoOp := 8.

Record wsProtoMsg : Type := mkMsg {
  Version : Z;
  Operation : wsProtoOp;
  SequenceID : Z;
  Body : list byte
}.

(** The ranges Go's field types enforce. *)
Definition msg_typed (p : wsProtoMsg) : Prop :=
  is_int16 (Version p) /\ is_int32 (Operation p) /\ is_int32 (SequenceID p).

(** The [for _, d := range data] loop of [writeWsProtoMsg]. *)
Fixpoint write_all {W : Type} `{Writer W} (w : W) (data : list binary_data)
  : W * option error :=
  match data with
  | [] => (w, None)
  | d :: rest =>
      match binary_Write w d with
      | (w', Some err) => (w', Some err)
      | (w', None) => write_all w' rest
      end
  end.

Definition writeWsProtoMsg {W : Type} `{Writer W} (w : W) (p : wsProtoMsg)
  : W * option error :=
  let packSize := int32 (wsProtoRawHeaderSize + Z.of_nat (length (Body p))) in
  let data :=
    [ DInt32 packSize;
      DInt16 (int16 wsProtoRawHeaderSize);
      DInt16 (Version p);
      DInt32 (int32 (Operation p));
      DInt32 (SequenceID p);
      DBytes (Body p) ] in
  write_all w data.

(** The bytes [writeWsProtoMsg] leaves in an empty buffer. *)
Definition encode (p : wsProtoMsg) : list byte :=
  fst (writeWsProtoMsg ([] : list byte) p).

Definition parseWsProtoMsg (buf : slice) : outcome (wsProtoMsg * option error) :=
  s0 ← slice_range buf wsProtoPackOffset wsProtoHeaderOffset;
  u0 ← BigEndian_Uint32 s0;
  let packSize := int32 u0 in
  s1 ← slice_range buf wsProtoHeaderOffset wsProtoVerOffset;
  u1 ← BigEndian_Uint16 s1;
  let headerLength := int16 u1 in
  s2 ← slice_range buf wsProtoVerOffset wsProtoOperationOffset;
  u2 ← BigEndian_Uint16 s2;
  s3 ← slice_range buf wsProtoOperationOffset wsProtoSeqIdOffset;
  u3 ← BigEndian_Uint32 s3;
  s4 ← slice_from buf wsProtoSeqIdOffset;
  u4 ← BigEndian_Uint32 s4;
  let p := {| Version := int16 u2; Operation := int32 u3;
              SequenceID := int32 u4; Body := [] |} in
  if (packSize <? 0) || (packSize >? wsProtoMaxPackSize) then
    Ret (p, Some (Errorf "invalid pack size: %d" [packSize]))
  else if slice_len buf <? packSize then
    Ret (p, Some (Errorf "buffer length %d is smaller than packet size %d"
                         [slice_len buf; packSize]))
  else if negb (headerLength =? wsProtoRawHeaderSize) then
    Ret (p, Some (Errorf "unsupported header size: %d" [headerLength]))
  else
    let bodySize := int32 (packSize - int32 headerLength) in
    if bodySize <=? 0 then
      Ret (p, Some (Errorf "invalid body size: %d" [bodySize]))
    else
      b ← slice_range buf headerLength packSize;
      Ret ({| Version := Version p; Operation := Operation p;
              SequenceID := SequenceID p; Body := elems b |}, None).


(** The wire layout in the words of the protocol table: a field is the
    big-endian number its bytes spell. *)
Definition be_value (bs : list byte) : Z :=
  fold_left (fun acc b => 256 * acc + byte.unsigned b) bs 0.

Definition wire_field (buf : list byte) (offset size : nat) : list byte :=
  firstn size (skipn offset buf).

Definition declaredPacketLength (buf : list byte) : Z :=
  int32 (be_value (wire_field buf 0 4)).
Definition declaredHeaderLength (buf : list byte) : Z :=
  int16 (be_value (wire_field buf 4 2)).
Definition declaredVersion (buf : list byte) : Z :=
  int16 (be_value (wire_field buf 6 2)).
Definition declaredOperation (buf : list byte) : Z :=
  int32 (be_value (wire_field buf 8 4)).
Definition declaredSequenceID (buf : list byte) : Z :=
  int32 (be_value (wire_field buf 12 4)).

(** The readers of the codec return or panic; they never block. *)
Definition returns_or_panics {A : Type} (m : outcome A) : Prop :=
  (exists a, m = Ret a) \/ (exists e, m = Panic e).

Definition sample_msg : wsProtoMsg :=
  {| Version := 1; Operation := wsProtoOpAuthReply; SequenceID := 7;
     Body := [byte.of_Z 123; byte.of_Z 125] |}.


(** A whole header that declares a packet of 16 bytes: no body. *)
Definition rejected_sample : list byte :=
  [Byte.x00; Byte.x00; Byte.x00; Byte.x10; Byte.x00; Byte.x10; Byte.x00;
   Byte.x00; Byte.x00; Byte.x00; Byte.x00; Byte.x03; Byte.x00; Byte.x00;
   Byte.x00; Byte.x00].

Definition heartbeat_sample : wsProtoMsg :=
  {| Version := 0; Operation := wsProtoOpHeartbeat; SequenceID := 0;
     Body := [] |}.

(** The validation cascade of [parseWsProtoMsg], as a function of the
    frame read from the header. *)
Definition validate (buf : slice) (p : wsProtoMsg) (packSize headerLength : Z)
  : outcome (wsProtoMsg * option error) :=
  if (packSize <? 0) || (packSize >? wsProtoMaxPackSize) then
    Ret (p, Some (Errorf "invalid pack size: %d" [packSize]))
  else if slice_len buf <? packSize then
    Ret (p, Some (Errorf "buffer length %d is smaller than packet size %d"
                         [slice_len buf; packSize]))
  else if negb (headerLength =? wsProtoRawHeaderSize) then
    Ret (p, Some (Errorf "unsupported header size: %d" [headerLength]))
  else
    let bodySize := int32 (packSize - int32 headerLength) in
    if bodySize <=? 0 then
      Ret (p, Some (Errorf "invalid body size: %d" [bodySize]))
    else
      b ← slice_range buf headerLength packSize;
      Ret ({| Version := Version p; Operation := Operation p;
              SequenceID := SequenceID p; Body := elems b |}, None).


(* ------------------------------------------------------------------ *)
(** ** Events, payloads and the JSON library                            *)
(* ------------------------------------------------------------------ *)

Definition DanmakuType : Type := Z.
Definition DanmakuTypeText : DanmakuType := 0.
Definition DanmakuTypeSticker : DanmakuType := 1.
Definition DanmakuTypeVoice : DanmakuType := 2.

Record Danmaku : Type := mkDanmaku {
  Timestamp : Z;
  RoomID : Z;
  UID : Z;
  Username : string;
  UserFace : string;
  Admin : Z;
  Vip : Z;
  SVip : Z;
  MsgType : Z;
  DMType : DanmakuType;
  Message : string;
  MessageID : string;
  EmojiImgUrl : string;
  FansMedalLevel : Z;
  FansMedalName : string;
  FansMedalWearingStatus : bool
}.

(** [wsAuthResponse]: the [code] of an AUTH_ACK body, an [int64]. *)
Record wsAuthResponse : Type := mkAuthResponse { Code : Z }.

Definition CmdLiveOpenPlatformDm : string := "LIVE_OPEN_PLATFORM_DM".

(** The three uses the package makes of json-iterator:
    [jsoniter.Unmarshal(body, &rsp)] into a [wsAuthResponse],
    [jsoniter.Get(body, key).ToString()], and
    [jsoniter.Get(body, key)] followed by [ToVal(&dm)] and [LastError()].
    [ToVal] returns nothing: it fills [dm] or panics (it does so on the
    node [Get] returns for a member that is not there), and what it could
    not decode is not necessarily reported by [LastError].  The last use
    is therefore the event [ToVal] left in [dm] together with what
    [LastError] then answers, or [None] when [ToVal] panics. *)
Class Json : Type := {
  Unmarshal_wsAuthResponse : list byte -> wsAuthResponse + error;
  Get_ToString : list byte -> string -> string;
  Get_ToVal_Danmaku : list byte -> string -> option (Danmaku * option error)
}.

(* ------------------------------------------------------------------ *)
(** ** The streaming connection                                         *)
(* ------------------------------------------------------------------ *)

Inductive websocketClientState : Type :=
| websocketClientStateIdle
| websocketClientStateAuth
| websocketClientStateActive.

(** The value [%d] prints for a state ([iota] numbering). *)
Definition state_code (st : websocketClientState) : Z :=
  match st with
  | websocketClientStateIdle => 0
  | websocketClientStateAuth => 1
  | websocketClientStateActive => 2
  end.

Definition state_eqb (a b : websocketClientState) : bool :=
  state_code a =? state_code b.

(** The methods stored in the [eventHandler] map. *)
Inductive handler : Type :=
| HandleOpAuth
| HandleOpHeartbeat
| HandleOpMsg.

(** An open transport, as returned by [websocket.Dial]. *)
Inductive Conn : Type := Dialed (url : string).

Record liveWebsocketClient : Type := mkWs {
  url : string;
  authBody : string;
  onDanmaku : bool;            (* the callback is not nil *)
  onClose : bool;              (* the callback is not nil *)
  state : websocketClientState;
  conn : option Conn;
  seqID : Z;
  heartbeatTicker : bool;      (* the ticker is not nil *)
  loopCancel : bool;           (* the cancel function is not nil *)
  eventHandler : gmap Z handler
}.

Definition set_state (v : websocketClientState) (c : liveWebsocketClient) :=
  mkWs (url c) (authBody c) (onDanmaku c) (onClose c) v (conn c) (seqID c)
       (heartbeatTicker c) (loopCancel c) (eventHandler c).
Definition set_conn (v : option Conn) (c : liveWebsocketClient) :=
  mkWs (url c) (authBody c) (onDanmaku c) (onClose c) (state c) v (seqID c)
       (heartbeatTicker c) (loopCancel c) (eventHandler c).
Definition set_seqID (v : Z) (c : liveWebsocketClient) :=
  mkWs (url c) (authBody c) (onDanmaku c) (onClose c) (state c) (conn c) v
       (heartbeatTicker c) (loopCancel c) (eventHandler c).
Definition set_heartbeatTicker (v : bool) (c : liveWebsocketClient) :=
  mkWs (url c) (authBody c) (onDanmaku c) (onClose c) (state c) (conn c)
       (seqID c) v (loopCancel c) (eventHandler c).
Definition set_loopCancel (v : bool) (c : liveWebsocketClient) :=
  mkWs (url c) (authBody c) (onDanmaku c) (onClose c) (state c) (conn c)
       (seqID c) (heartbeatTicker c) v (eventHandler c).
Definition set_eventHandler (v : gmap Z handler) (c : liveWebsocketClient) :=
  mkWs (url c) (authBody c) (onDanmaku c) (onClose c) (state c) (conn c)
       (seqID c) (heartbeatTicker c) (loopCancel c) v.

Inductive log_level : Type := LDebug | LInfo | LWarn | LError.

(** What a run of the connection does to the world around it, in order. *)
Inductive effect : Type :=
| ELog (lvl : log_level) (msg : string)
| EFrame (msg : wsProtoMsg)        (* [createMsg] built this frame *)
| ESend (bytes : list byte)        (* bytes handed to the transport writer *)
| EConnClose                       (* [conn.Close(StatusNormalClosure, ...)] *)
| ELoopCancel                      (* [loopCancel()] *)
| ETickerStop                      (* [heartbeatTicker.Stop()] *)
| EGo (routine : string)           (* a [go] statement *)
| EOnClose (reason : option error) (* [onClose(err)] *)
| EOnDanmaku (dm : Danmaku).       (* [onDanmaku(dm)] *)

(** A method of [*liveWebsocketClient]: it reads and updates the receiver,
    acts on the world, and returns or panics. *)
Definition Act (A : Type) : Type :=
  liveWebsocketClient -> outcome (A * liveWebsocketClient * list effect).

#[export] Instance Act_ret : MRet Act := fun A a c => Ret (a, c, []).

#[export] Instance Act_bind : MBind Act :=
  fun A B (k : A -> Act B) (m : Act A) c =>
    match m c with
    | Ret (a, c1, t1) =>
        match k a c1 with
        | Ret (b, c2, t2) => Ret (b, c2, (t1 ++ t2)%list)
        | Panic e => Panic e
        | Deadlock => Deadlock
        end
    | Panic e => Panic e
    | Deadlock => Deadlock
    end.

Definition emit (e : effect) : Act unit := fun c => Ret (tt, c, [e]).
Definition field {A : Type} (f : liveWebsocketClient -> A) : Act A :=
  fun c => Ret (f c, c, []).
Definition assign (f : liveWebsocketClient -> liveWebsocketClient) : Act unit :=
  fun c => Ret (tt, f c, []).
Definition panic {A : Type} (e : runtime_error) : Act A := fun _ => Panic e.
Definition when (b : bool) (m : Act unit) : Act unit :=
  if b then m else mret tt.

(** An outcome, with the effects that came before it put in front. *)
Definition with_trace {A : Type} (tr : list effect)
  (o : outcome (A * liveWebsocketClient * list effect))
  : outcome (A * liveWebsocketClient * list effect) :=
  match o with
  | Ret (a, c, t) => Ret (a, c, (tr ++ t)%list)
  | Panic e => Panic e
  | Deadlock => Deadlock
  end.

(** The transport's message writer: [budget] calls of [Write] succeed. *)
Record conn_writer : Type := mkConnWriter {
  sent : list byte;
  budget : nat
}.

#[export] Instance conn_writer_Writer : Writer conn_writer :=
  fun w bs =>
    match budget w with
    | O => (w, Some (External "write"))
    | S n => ({| sent := (sent w ++ bs)%list; budget := n |}, None)
    end.

(** What the transport answers when a frame is sent: [conn.Writer] fails,
    or it opens a writer. *)
Inductive tx : Type :=
| TxNoWriter (err : error)
| TxWriter (budget : nat).

Definition createMsg (op : wsProtoOp) (body : list byte) : Act wsProtoMsg :=
  seq ← field seqID;
  let msg := {| Version := 0; Operation := op; SequenceID := seq;
                Body := body |} in
  assign (set_seqID (int32 (seq + 1)));;
  emit (EFrame msg);;
  mret msg.

Definition writeMsg (msg : wsProtoMsg) (t : tx) : Act (option error) :=
  cn ← field conn;
  match cn with
  | None => panic NilPointerDereference
  | Some _ =>
      match t with
      | TxNoWriter err => mret (Some (Wrapf "open writer fail: %w" err))
      | TxWriter n =>
          let '(w, err) := writeWsProtoMsg {| sent := []; budget := n |} msg in
          emit (ESend (sent w));;
          mret err
      end
  end.

Definition sendHeartbeat (t : tx) : Act (option error) :=
  st ← field state;
  if negb (state_eqb st websocketClientStateActive) then mret None
  else
    msg ← createMsg wsProtoOpHeartbeat [];
    writeMsg msg t.

Definition sendAuth (t : tx) : Act (option error) :=
  st ← field state;
  if negb (state_eqb st websocketClientStateAuth) then mret None
  else
    body ← field authBody;
    msg ← createMsg wsProtoOpAuth (list_byte_of_string body);
    writeMsg msg t.

Section Handlers.
Context `{Json}.

Definition handleOpAuth (msg : wsProtoMsg) : Act (option error) :=
  st ← field state;
  if negb (state_eqb st websocketClientStateAuth) then
    mret (Some (Errorf "receive op msg at unexpected state %d"
                       [state_code st]))
  else
    match Unmarshal_wsAuthResponse (Body msg) with
    | inr err => mret (Some (Wrapf "unmarshal auth response fail: %w" err))
    | inl rsp =>
        if negb (Code rsp =? 0) then
          mret (Some (Errorf "auth response code is not zero: %d"
                             [Code rsp]))
        else
          assign (set_state websocketClientStateActive);;
          emit (ELog LInfo "client finish auth");;
          mret None
    end.

Definition handleOpHeartbeat (msg : wsProtoMsg) : Act (option error) :=
  emit (ELog LInfo "op heartbeat");;
  mret None.

Definition handleOpMsg (msg : wsProtoMsg) : Act (option error) :=
  let cmd := Get_ToString (Body msg) "cmd" in
  if String.eqb cmd CmdLiveOpenPlatformDm then
    match Get_ToVal_Danmaku (Body msg) "data" with
    | None => panic LibraryPanic
    | Some (dm, Some err) =>
        mret (Some (Wrapf "unmarshal danmaku fail: %w" err))
    | Some (dm, None) =>
        cb ← field onDanmaku;
        when cb (emit (EOnDanmaku dm));;
        mret None
    end
  else
    emit (ELog LWarn "unsupported cmd");;
    mret None.

Definition call_handler (h : handler) (msg : wsProtoMsg)
  : Act (option error) :=
  match h with
  | HandleOpAuth => handleOpAuth msg
  | HandleOpHeartbeat => handleOpHeartbeat msg
  | HandleOpMsg => handleOpMsg msg
  end.

(** What one turn of the [select] in [eventLoop] receives. *)
Inductive loop_event : Type :=
| LoopCtxDone
| HeartbeatTick (t : tx)
| EventCh (msg : option wsProtoMsg).

(** One turn of [eventLoop]; [false] when the loop returns. *)
Definition eventLoop_turn (ev : loop_event) : Act bool :=
  match ev with
  | LoopCtxDone => mret false
  | HeartbeatTick t =>
      r ← sendHeartbeat t;
      when (bool_decide (r ≠ None)) (emit (ELog LWarn "heartbeat send fail"));;
      mret true
  | EventCh None => mret true
  | EventCh (Some msg) =>
      handlers ← field eventHandler;
      match handlers !! Operation msg with
      | None =>
          emit (ELog LWarn "no handlers for this message");;
          mret true
      | Some h =>
          r ← call_handler h msg;
          when (bool_decide (r ≠ None)) (emit (ELog LWarn "handle msg fail"));;
          mret true
      end
  end.

(** Entering [select] evaluates its channel operands, among them
    [c.heartbeatTicker.C]: a nil ticker is dereferenced. *)
Definition select_operands : Act unit :=
  ticker ← field heartbeatTicker;
  if (ticker : bool) then mret tt else panic NilPointerDereference.

(** The dispatch loop, parked in [select], receives [ev], runs the case
    and comes round to [select] again; [false] when the loop returned. *)
Definition dispatch (ev : loop_event) : Act bool :=
  continue ← eventLoop_turn ev;
  if (continue : bool) then select_operands;; mret true else mret false.

(** [eventLoop], parked in [select], over the events it receives, in
    order. *)
Fixpoint eventLoop (evs : list loop_event) : Act unit :=
  match evs with
  | [] => mret tt
  | ev :: rest =>
      parked ← dispatch ev;
      if (parked : bool) then eventLoop rest else mret tt
  end.
End Handlers.

(** What [websocket.Dial] answers. *)
Inductive dial_result : Type :=
| DialFail (err : error)
| DialOk (cn : Conn).

(** The dispatch table [connect] installs. *)
Definition connect_handlers : gmap Z handler :=
  <[wsProtoOpAuthReply := HandleOpAuth]>
    (<[wsProtoOpHeartbeatReply := HandleOpHeartbeat]>
       (<[wsProtoOpSendMsgReply := HandleOpMsg]> ∅)).

Definition connect (d : dial_result) (t : tx) : Act (option error) :=
  st ← field state;
  if negb (state_eqb st websocketClientStateIdle) then
    mret (Some (Errorf "websocket client state should be idle" []))
  else
    match d with
    | DialFail err => mret (Some (Wrapf "dial fail: %w" err))
    | DialOk cn =>
        assign (set_conn (Some cn));;
        (* init states *)
        assign (set_eventHandler connect_handlers);;
        assign (set_seqID 0);;
        assign (set_state websocketClientStateAuth);;
        (* init loops *)
        assign (set_loopCancel true);;
        assign (set_heartbeatTicker true);;
        emit (EGo "readLoop");;
        emit (EGo "eventLoop");;
        (* start auth *)
        r ← sendAuth t;
        match r with
        | Some err => mret (Some (Wrapf "send auth fail: %w" err))
        | None => mret None
        end
    end.

Definition internalClose (err : option error) : Act unit :=
  cancel ← field loopCancel;
  when cancel (emit ELoopCancel;; assign (set_loopCancel false));;
  ticker ← field heartbeatTicker;
  when ticker (emit ETickerStop;; assign (set_heartbeatTicker false));;
  assign (set_state websocketClientStateIdle);;
  assign (set_conn None);;
  cb ← field onClose;
  when cb (emit (EOnClose err)).

(** [Close], as the calling goroutine runs it; [closed] is what
    [conn.Close] returns.  The deferred [internalClose(nil)] runs on both
    ways out.  [conn.Close] also ends the [conn.Read] the read loop is
    parked in: what the read loop then does is part of [conn_step]. *)
Definition Close (closed : option error) : Act (option error) :=
  cn ← field conn;
  match cn with
  | None => mret None
  | Some _ =>
      emit EConnClose;;
      internalClose None;;
      mret closed
  end.

(** What [conn.Read] answers: a message, an error that carries a close
    status, or any other error. *)
Inductive read_result : Type :=
| ReadMessage (buf : slice)
| ReadClosed (err : error)
| ReadFailed (err : error).

(** The rest of a turn of [readLoop] once [conn.Read] has answered [r]:
    the frame to hand to [eventCh], if any, and [false] when the loop
    returns. *)
Definition readLoop_recv (r : read_result) : Act (option wsProtoMsg * bool) :=
  match r with
  | ReadClosed err =>
      emit (ELog LInfo "connection receive close message");;
      internalClose (Some err);;
      mret (None, false)
  | ReadFailed err =>
      emit (ELog LWarn "failed to read message from conn");;
      mret (None, true)
  | ReadMessage buf =>
      match parseWsProtoMsg buf with
      | Panic e => panic e
      | Deadlock => fun _ => Deadlock
      | Ret (_, Some err) =>
          emit (ELog LWarn "failed to parse message");;
          mret (None, true)
      | Ret (msg, None) =>
          emit (ELog LDebug "recv msg");;
          mret (Some msg, true)
      end
  end.

(** One turn of [readLoop], from the top: the frame it hands to
    [eventCh], if any, and [false] when the loop returns. *)
Definition readLoop_turn (r : read_result) : Act (option wsProtoMsg * bool) :=
  cn ← field conn;
  match cn with
  | None =>
      emit (ELog LInfo "connection is closed. exit read loop");;
      mret (None, false)
  | Some _ => readLoop_recv r
  end.

(** The top of a turn of [readLoop] up to [conn.Read]: the loop returns
    on a nil [conn] and parks in [conn.Read] otherwise. *)
Definition readLoop_entry : Act bool :=
  cn ← field conn;
  match cn with
  | None =>
      emit (ELog LInfo "connection is closed. exit read loop");;
      mret false
  | Some _ => mret true
  end.

(** Where the two goroutines [connect] starts stand between two events:
    parked at their blocking call ([conn.Read] for the read loop,
    [select] for the dispatch loop), or not running. *)
Record routines : Type := mkRoutines {
  reader : bool;
  dispatcher : bool
}.

Definition parked : routines := {| reader := true; dispatcher := true |}.
Definition not_running : routines := {| reader := false; dispatcher := false |}.

Section Lifetime.
Context `{Json}.

(** What happens to a connection after [connect]: the [select] of the
    dispatch loop receives something, the [conn.Read] of the read loop
    answers, or the owner calls [Close].  [conn.Close] ends the pending
    [conn.Read] with an error; [status] tells whether that error carries
    a close status, as it does when the peer answers the closing
    handshake.  The program does not order what the read loop then does
    and the deferred [internalClose(nil)] of [Close]; here the deferred
    call runs first. *)
Inductive conn_event : Type :=
| Loop (ev : loop_event)
| Read (r : read_result)
| CallClose (closed : option error) (status : bool) (woken : error).

(** The read loop, parked in [conn.Read], gets the answer [r] and goes
    on to its next [conn.Read].  A frame it decodes is handed to the
    dispatch loop on the way (the channel is unbuffered: the send waits
    for the receive, for ever when the dispatch loop is gone). *)
Definition reader_wakes (r : read_result) (g : routines) : Act routines :=
  if reader g then
    '(msg, continue) ← readLoop_recv r;
    match msg with
    | Some m =>
        if dispatcher g then
          d ← dispatch (EventCh (Some m));
          rd ← readLoop_entry;
          mret {| reader := rd; dispatcher := d |}
        else mret not_running
    | None =>
        rd ← (if (continue : bool) then readLoop_entry else mret false);
        mret {| reader := rd; dispatcher := dispatcher g |}
    end
  else mret g.

(** The dispatch loop, parked in [select], receives [ev]; the context
    is done only once [internalClose] has called and cleared
    [loopCancel]. *)
Definition dispatcher_wakes (ev : loop_event) (g : routines) : Act routines :=
  if dispatcher g then
    live ← field loopCancel;
    match ev with
    | LoopCtxDone =>
        if (live : bool) then mret g
        else
          d ← dispatch LoopCtxDone;
          mret {| reader := reader g; dispatcher := d |}
    | _ =>
        d ← dispatch ev;
        mret {| reader := reader g; dispatcher := d |}
    end
  else mret g.

Definition conn_step (ev : conn_event) (g : routines) : Act routines :=
  match ev with
  | Loop e => dispatcher_wakes e g
  | Read r => reader_wakes r g
  | CallClose closed status woken =>
      cn ← field conn;
      Close closed;;
      match cn with
      | None => mret g
      | Some _ =>
          reader_wakes (if (status : bool) then ReadClosed woken
                        else ReadFailed woken) g
      end
  end.

Fixpoint conn_steps (evs : list conn_event) (g : routines) : Act routines :=
  match evs with
  | [] => mret g
  | ev :: rest => g' ← conn_step ev g; conn_steps rest g'
  end.

(** The events of a connection whose two loops are parked. *)
Definition conn_run (evs : list conn_event) : Act unit :=
  conn_steps evs parked;; mret tt.

(** A connection's life: [connect], which starts the two loops when the
    client is idle and the dial succeeds, then the events that follow. *)
Definition lifetime (d : dial_result) (t : tx) (evs : list conn_event)
  : Act unit :=
  st ← field state;
  connect d t;;
  conn_steps evs
    (match d with
     | DialOk _ =>
         if state_eqb st websocketClientStateIdle then parked else not_running
     | DialFail _ => not_running
     end);;
  mret tt.
End Lifetime.

(** The frames built by [createMsg], in the order they were built. *)
Fixpoint frames (tr : list effect) : list wsProtoMsg :=
  match tr with
  | [] => []
  | EFrame m :: rest => m :: frames rest
  | _ :: rest => frames rest
  end.

(** The reasons handed to [onClose], in order. *)
Fixpoint close_notifications (tr : list effect) : list (option error) :=
  match tr with
  | [] => []
  | EOnClose r :: rest => r :: close_notifications rest
  | _ :: rest => close_notifications rest
  end.

(** The events handed to [onDanmaku], in order. *)
Fixpoint danmaku_events (tr : list effect) : list Danmaku :=
  match tr with
  | [] => []
  | EOnDanmaku d :: rest => d :: danmaku_events rest
  | _ :: rest => danmaku_events rest
  end.

(** A client as [connectWs] builds it, before [connect]. *)
Definition new_ws (u a : string) (dm cl : bool) : liveWebsocketClient :=
  {| url := u; authBody := a; onDanmaku := dm; onClose := cl;
     state := websocketClientStateIdle; conn := None; seqID := 0;
     heartbeatTicker := false; loopCancel := false; eventHandler := ∅ |}.

(* ------------------------------------------------------------------ *)
(** ** The client facade                                                *)
(* ------------------------------------------------------------------ *)

Inductive clientState : Type :=
| clientStateIdle
| clientStateActive.

Record websocketInfo : Type := mkWsInfo {
  AuthBody : string;
  WSSLink : list string
}.

Record appStartGameInfo : Type := mkGameInfo { GameID : string }.

Record anchorInfo : Type := mkAnchorInfo {
  anchor_RoomID : Z;
  anchor_Username : string;
  anchor_UserFace : string;
  anchor_UID : Z
}.

Record appStartData : Type := mkStartData {
  GameInfo : appStartGameInfo;
  WebsocketInfo : websocketInfo;
  AnchorInfo : anchorInfo
}.

Record CommonResponse (T : Type) : Type := mkResponse {
  rsp_Code : Z;
  rsp_Message : string;
  rsp_RequestID : string;
  rsp_Data : T
}.

Arguments rsp_Code {T} _.
Arguments rsp_Message {T} _.
Arguments rsp_RequestID {T} _.
Arguments rsp_Data {T} _.

Definition CommonResponse_Err {T : Type} (r : CommonResponse T) : option error :=
  if negb (rsp_Code r =? 0) then
    Some (CommonError (rsp_Code r) (rsp_Message r) (rsp_RequestID r))
  else None.

(** What [commonCallApi] leaves: its error, or the decoded response. *)
Inductive api_result (T : Type) : Type :=
| ApiFail (err : error)
| ApiRsp (rsp : CommonResponse T).

Arguments ApiFail {T} err.
Arguments ApiRsp {T} rsp.

Record LiveClient : Type := mkLiveClient {
  ApiHost : string;
  AppKey : string;
  AppSecret : string;
  ProjectID : Z;
  OnDanmaku : bool;            (* the callback is not nil *)
  OnClose : bool;              (* the callback is not nil *)
  mu : bool;                   (* the mutex is held *)
  clientState_ : clientState;
  liveCode : string;
  gameID : string;
  wsInfo : websocketInfo;
  wsClient : option liveWebsocketClient
}.
(* The [client] field (the HTTP client [Connect] installs) and [noCopy]
   hold nothing the methods below read; the HTTP exchange enters as the
   [api_result] handed to them. *)

Definition set_mu (v : bool) (c : LiveClient) :=
  mkLiveClient (ApiHost c) (AppKey c) (AppSecret c) (ProjectID c)
    (OnDanmaku c) (OnClose c) v (clientState_ c) (liveCode c) (gameID c)
    (wsInfo c) (wsClient c).
Definition set_clientState (v : clientState) (c : LiveClient) :=
  mkLiveClient (ApiHost c) (AppKey c) (AppSecret c) (ProjectID c)
    (OnDanmaku c) (OnClose c) (mu c) v (liveCode c) (gameID c)
    (wsInfo c) (wsClient c).
Definition set_liveCode (v : string) (c : LiveClient) :=
  mkLiveClient (ApiHost c) (AppKey c) (AppSecret c) (ProjectID c)
    (OnDanmaku c) (OnClose c) (mu c) (clientState_ c) v (gameID c)
    (wsInfo c) (wsClient c).
Definition set_start (g : string) (w : websocketInfo) (c : LiveClient) :=
  mkLiveClient (ApiHost c) (AppKey c) (AppSecret c) (ProjectID c)
    (OnDanmaku c) (OnClose c) (mu c) (clientState_ c) (liveCode c) g
    w (wsClient c).
Definition set_wsClient (v : option liveWebsocketClient) (c : LiveClient) :=
  mkLiveClient (ApiHost c) (AppKey c) (AppSecret c) (ProjectID c)
    (OnDanmaku c) (OnClose c) (mu c) (clientState_ c) (liveCode c) (gameID c)
    (wsInfo c) v.

Definition IsActive (c : LiveClient) : bool :=
  match clientState_ c with
  | clientStateActive => true
  | clientStateIdle => false
  end.

(** [callAppStart], given what the HTTP exchange returned. *)
Definition callAppStart (start : api_result appStartData) (c : LiveClient)
  : option error * LiveClient :=
  match start with
  | ApiFail err => (Some err, c)
  | ApiRsp rsp =>
      match CommonResponse_Err rsp with
      | Some err => (Some err, c)
      | None =>
          (None, set_start (GameID (GameInfo (rsp_Data rsp)))
                           (WebsocketInfo (rsp_Data rsp)) c)
      end
  end.

(** Whether a run of the connection called [onClose]. *)
Definition notifies_owner (tr : list effect) : bool :=
  match close_notifications tr with
  | [] => false
  | _ :: _ => true
  end.

(** [connectWs], called by [Connect] with the mutex held.  The [onClose]
    of a connection the facade built is [c.onWsClose], which calls
    [Disconnect], whose [c.mu.Lock()] waits for the mutex this very call
    holds. *)
Definition connectWs (closed : option error) (d : dial_result) (t : tx)
  (c : LiveClient) : outcome (option error * LiveClient * list effect) :=
  '(c, tr0) ←
    match wsClient c with
    | None => Ret (c, [])
    | Some ws =>
        '(err, ws', tr) ← Close closed ws;
        if notifies_owner tr then Deadlock
        else
          Ret (set_wsClient (Some ws') c,
               match err with
               | Some _ => tr ++ [ELog LWarn "close last websocket client fail"]
               | None => tr
               end)
    end;
  match WSSLink (wsInfo c) with
  | [] => Panic IndexOutOfRange
  | link :: _ =>
      let ws := new_ws link (AuthBody (wsInfo c)) (OnDanmaku c) true in
      '(err, ws', tr) ← connect d t ws;
      let c := set_wsClient (Some ws') c in
      match err with
      | Some e =>
          Ret (Some (Wrapf "connect websocket fail: %w" e), c,
               tr0 ++ tr ++ [ELog LError "connect websocket fail"])
      | None => Ret (None, c, tr0 ++ tr)
      end
  end.

(** [Connect]: the mutex is taken on entry and released by the deferred
    [Unlock] on every return. *)
Definition Connect (code : string) (start : api_result appStartData)
  (closed : option error) (d : dial_result) (t : tx) (c : LiveClient)
  : outcome (option error * LiveClient * list effect) :=
  if mu c then Deadlock
  else
    let c := set_mu true c in
    match clientState_ c with
    | clientStateActive =>
        Ret (Some (Errorf "client state should be idle" []), set_mu false c, [])
    | clientStateIdle =>
        let c := set_liveCode code c in
        match callAppStart start c with
        | (Some err, c) =>
            Ret (Some (Wrapf "start app fail: %w" err), set_mu false c, [])
        | (None, c) =>
            let c := set_clientState clientStateActive c in
            '(err, c, tr) ← connectWs closed d t c;
            match err with
            | Some e =>
                Ret (Some (Wrapf "connect ws fail: %w" e), set_mu false c, tr)
            | None => Ret (None, set_mu false c, tr)
            end
        end
    end.

(** The zero value a caller starts from, with its static configuration. *)
Definition new_LiveClient (key secret : string) (project : Z) (dm cl : bool)
  : LiveClient :=
  {| ApiHost := ""; AppKey := key; AppSecret := secret; ProjectID := project;
     OnDanmaku := dm; OnClose := cl; mu := false;
     clientState_ := clientStateIdle; liveCode := ""; gameID := "";
     wsInfo := {| AuthBody := ""; WSSLink := [] |}; wsClient := None |}.

(* ------------------------------------------------------------------ *)
(** ** The request signature                                            *)
(* ------------------------------------------------------------------ *)

Definition HeaderBiliCommPrefix : string := "X-Bili-".
Definition HeaderBiliContentMD5 : string := HeaderBiliCommPrefix ++ "Content-MD5".
Definition HeaderBiliTimestamp : string := HeaderBiliCommPrefix ++ "Timestamp".
Definition HeaderBiliSignatureMethod : string :=
  HeaderBiliCommPrefix ++ "Signature-Method".
Definition HeaderBiliSignatureNonce : string :=
  HeaderBiliCommPrefix ++ "Signature-Nonce".
Definition HeaderBiliAccessKeyId : string := HeaderBiliCommPrefix ++ "AccessKeyId".
Definition HeaderBiliSignatureVersion : string :=
  HeaderBiliCommPrefix ++ "Signature-Version".

Definition signatureSourceHeaders : list string :=
  [ HeaderBiliAccessKeyId;
    HeaderBiliContentMD5;
    HeaderBiliSignatureMethod;
    HeaderBiliSignatureNonce;
    HeaderBiliSignatureVersion;
    HeaderBiliTimestamp ].

Definition between (lo hi c : ascii) : bool :=
  (nat_of_ascii lo <=? nat_of_ascii c)%nat
  && (nat_of_ascii c <=? nat_of_ascii hi)%nat.

Definition lower_char (c : ascii) : ascii :=
  if between "A" "Z" c then ascii_of_nat (nat_of_ascii c + 32) else c.
Definition upper_char (c : ascii) : ascii :=
  if between "a" "z" c then ascii_of_nat (nat_of_ascii c - 32) else c.

Fixpoint map_string (f : ascii -> ascii) (s : string) : string :=
  match s with
  | EmptyString => EmptyString
  | String c rest => String (f c) (map_string f rest)
  end.

(** [strings.ToLower] on ASCII text. *)
Definition ToLower (s : string) : string := map_string lower_char s.

(** [textproto]'s token bytes. *)
Definition validHeaderFieldByte (c : ascii) : bool :=
  between "a" "z" c || between "A" "Z" c || between "0" "9" c
  || existsb (Ascii.eqb c)
       ["!"; "#"; "$"; "%"; "&"; "'"; "*"; "+"; "-"; "."; "^"; "_"; "`";
        "|"; "~"]%char.

Fixpoint all_chars (f : ascii -> bool) (s : string) : bool :=
  match s with
  | EmptyString => true
  | String c rest => f c && all_chars f rest
  end.

(** Upper case at the start and after each dash, lower case elsewhere. *)
Fixpoint canonical_case (upper : bool) (s : string) : string :=
  match s with
  | EmptyString => EmptyString
  | String c rest =>
      let c' := if upper then upper_char c else lower_char c in
      String c' (canonical_case (Ascii.eqb c' "-") rest)
  end.

(** [textproto.CanonicalMIMEHeaderKey]: a key with a byte that is not a
    token byte is returned as it is. *)
Definition CanonicalMIMEHeaderKey (s : string) : string :=
  if all_chars validHeaderFieldByte s then canonical_case true s else s.

(** [http.Header], with [Get] and [Set]. *)
Definition Header_Get (h : gmap string (list string)) (key : string) : string :=
  match h !! CanonicalMIMEHeaderKey key with
  | Some (v :: _) => v
  | _ => ""
  end.

Definition Header_Set (h : gmap string (list string)) (key value : string)
  : gmap string (list string) :=
  <[CanonicalMIMEHeaderKey key := [value]]> h.

Definition hex_digit (n : Z) : ascii :=
  nth (Z.to_nat n)
    ["0"; "1"; "2"; "3"; "4"; "5"; "6"; "7"; "8"; "9";
     "a"; "b"; "c"; "d"; "e"; "f"]%char "0"%char.

(** [hex.EncodeToString]. *)
Fixpoint hex_EncodeToString (bs : list byte) : string :=
  match bs with
  | [] => EmptyString
  | b :: rest =>
      String (hex_digit (Z.shiftr (byte.unsigned b) 4))
        (String (hex_digit (Z.land (byte.unsigned b) 15))
           (hex_EncodeToString rest))
  end.

(** [crypto/hmac] with [sha256.New], and [crypto/md5]. *)
Class Crypto : Type := {
  hmac_sha256 : list byte -> list byte -> list byte;
  md5_sum : list byte -> list byte
}.

Definition newline : string := String "010"%char EmptyString.

Section Signature.
Context `{Crypto}.

Definition GenerateSignature (appSecret : string)
  (header : gmap string (list string)) : string :=
  let buf :=
    fold_left
      (fun buf headerKey =>
         (buf ++ ToLower headerKey ++ ":" ++ Header_Get header headerKey
              ++ newline)%string)
      signatureSourceHeaders "" in
  let s := list_byte_of_string buf in
  let s := removelast s in
  hex_EncodeToString (hmac_sha256 (list_byte_of_string appSecret) s).

Record ApiTransport : Type := mkApiTransport {
  t_AppKey : string;
  t_AppSecret : string
}.

Record Request : Type := mkRequest {
  Method : string;
  Header : gmap string (list string);
  GetBody : option (list byte + error)   (* [nil], or what calling it gives *)
}.

Definition set_Header (h : gmap string (list string)) (r : Request) : Request :=
  mkRequest (Method r) h (GetBody r).

Definition FormatInt (z : Z) : string := NilEmpty.string_of_int (Z.to_int z).

(** [%08d] of a number that is not negative. *)
Definition pad8 (z : Z) : string :=
  let digits := FormatInt z in
  (string_of_list_ascii (repeat "0"%char (8 - String.length digits))
   ++ digits)%string.

(** [RoundTrip], up to the call of the underlying transport: the error
    it returns before that, or the request it hands over.  [ts] is
    [time.Now().Unix()] and [rnd] is [rand.Intn(10e8)]. *)
Definition RoundTrip (t : ApiTransport) (ts rnd : Z) (r : Request)
  : outcome (error + Request) :=
  let nonce := (FormatInt ts ++ pad8 rnd)%string in
  let h := Header r in
  let h := Header_Set h HeaderBiliTimestamp (FormatInt ts) in
  let h := Header_Set h HeaderBiliSignatureMethod "HMAC-SHA256" in
  let h := Header_Set h HeaderBiliSignatureNonce nonce in
  let h := Header_Set h HeaderBiliAccessKeyId (t_AppKey t) in
  let h := Header_Set h HeaderBiliSignatureVersion "1.0" in
  md5 ←
    (if String.eqb (Method r) "POST" then
       match GetBody r with
       | None => Panic NilPointerDereference
       | Some (inr err) => Ret (inr (Wrapf "failed to get body: %w" err))
       | Some (inl bodyBytes) =>
           Ret (inl (Header_Set h HeaderBiliContentMD5
                       (hex_EncodeToString (md5_sum bodyBytes))))
       end
     else Ret (inl h));
  match md5 with
  | inr err => Ret (inl err)
  | inl h =>
      let sign := GenerateSignature (t_AppSecret t) h in
      let h := Header_Set h "Authorization" sign in
      Ret (inr (set_Header h r))
  end.
End Signature.

(** The signing string in the words of the platform's documentation. *)
Definition signed_header_names : list string :=
  [ "x-bili-accesskeyid"; "x-bili-content-md5"; "x-bili-signature-method";
    "x-bili-signature-nonce"; "x-bili-signature-version"; "x-bili-timestamp" ].

Definition signing_string (h : gmap string (list string)) : string :=
  String.concat newline
    (map (fun name => (name ++ ":" ++ Header_Get h name)%string)
         signed_header_names).

(* ------------------------------------------------------------------ *)
(** ** A reader for canonical bodies, to run the model on frames        *)
(* ------------------------------------------------------------------ *)

Fixpoint strip_prefix (p l : list byte) : option (list byte) :=
  match p, l with
  | [], _ => Some l
  | a :: p', b :: l' => if Byte.eqb a b then strip_prefix p' l' else None
  | _ :: _, [] => None
  end.

Definition digit_value (b : byte) : option Z :=
  let v := byte.unsigned b in
  if (48 <=? v) && (v <=? 57) then Some (v - 48) else None.

(** Decimal digits up to the closing brace, which ends the body. *)
Fixpoint read_number (acc : Z) (l : list byte) : option Z :=
  match l with
  | [] => None
  | [Byte.x7d] => Some acc
  | b :: rest =>
      match digit_value b with
      | Some d => read_number (10 * acc + d) rest
      | None => None
      end
  end.

Definition read_integer (l : list byte) : option Z :=
  match l with
  | Byte.x2d :: (b :: _) as rest =>
      match digit_value b with
      | Some _ => option_map Z.opp (read_number 0 rest)
      | None => None
      end
  | b :: _ =>
      match digit_value b with
      | Some _ => read_number 0 l
      | None => None
      end
  | [] => None
  end.

Fixpoint until_quote (l : list byte) : list byte :=
  match l with
  | [] => []
  | Byte.x22 :: _ => []
  | b :: rest => b :: until_quote rest
  end.

(** The opening bytes of a body whose first key is code, and of one whose
    first key is cmd with a string value. *)
Definition code_prefix : list byte :=
  ([Byte.x7b; Byte.x22] ++ list_byte_of_string "code" ++ [Byte.x22; Byte.x3a])%list.
Definition cmd_prefix : list byte :=
  ([Byte.x7b; Byte.x22] ++ list_byte_of_string "cmd"
   ++ [Byte.x22; Byte.x3a; Byte.x22])%list.

(** A member name in its quotes, followed by the colon. *)
Definition member (name : string) : list byte :=
  ([Byte.x22] ++ list_byte_of_string name ++ [Byte.x22; Byte.x3a])%list.

(** Leading decimal digits, and what follows them. *)
Fixpoint read_digits (acc : Z) (l : list byte) : Z * list byte :=
  match l with
  | [] => (acc, [])
  | b :: rest =>
      match digit_value b with
      | Some d => read_digits (10 * acc + d) rest
      | None => (acc, l)
      end
  end.

(** What follows the closing quote of a string value. *)
Fixpoint after_quote (l : list byte) : list byte :=
  match l with
  | [] => []
  | Byte.x22 :: rest => rest
  | _ :: rest => after_quote rest
  end.

Definition zero_Danmaku : Danmaku :=
  {| Timestamp := 0; RoomID := 0; UID := 0; Username := ""; UserFace := "";
     Admin := 0; Vip := 0; SVip := 0; MsgType := 0; DMType := 0;
     Message := ""; MessageID := ""; EmojiImgUrl := ""; FansMedalLevel := 0;
     FansMedalName := ""; FansMedalWearingStatus := false |}.

Definition with_UID (v : Z) (d : Danmaku) : Danmaku :=
  mkDanmaku (Timestamp d) (RoomID d) v (Username d) (UserFace d) (Admin d)
    (Vip d) (SVip d) (MsgType d) (DMType d) (Message d) (MessageID d)
    (EmojiImgUrl d) (FansMedalLevel d) (FansMedalName d)
    (FansMedalWearingStatus d).
Definition with_Username (v : string) (d : Danmaku) : Danmaku :=
  mkDanmaku (Timestamp d) (RoomID d) (UID d) v (UserFace d) (Admin d)
    (Vip d) (SVip d) (MsgType d) (DMType d) (Message d) (MessageID d)
    (EmojiImgUrl d) (FansMedalLevel d) (FansMedalName d)
    (FansMedalWearingStatus d).
Definition with_Message (v : string) (d : Danmaku) : Danmaku :=
  mkDanmaku (Timestamp d) (RoomID d) (UID d) (Username d) (UserFace d)
    (Admin d) (Vip d) (SVip d) (MsgType d) (DMType d) v (MessageID d)
    (EmojiImgUrl d) (FansMedalLevel d) (FansMedalName d)
    (FansMedalWearingStatus d).

(** The members uid, uname and msg of a data object, in that order, as
    far as the object spells them: the event starts from its zero value
    and keeps what was read before the object departs from that shape. *)
Definition read_event (obj : list byte) : Danmaku :=
  match strip_prefix ([Byte.x7b] ++ member "uid") obj with
  | None => zero_Danmaku
  | Some r1 =>
      let '(uid, r2) := read_digits 0 r1 in
      let d1 := with_UID uid zero_Danmaku in
      match strip_prefix ([Byte.x2c] ++ member "uname" ++ [Byte.x22]) r2 with
      | None => d1
      | Some r3 =>
          let d2 := with_Username (string_of_list_byte (until_quote r3)) d1 in
          match strip_prefix ([Byte.x2c] ++ member "msg" ++ [Byte.x22])
                  (after_quote r3) with
          | None => d2
          | Some r4 => with_Message (string_of_list_byte (until_quote r4)) d2
          end
      end
  end.

(** The data member that follows a leading cmd member: without one
    [ToVal] panics; with one it fills the event as far as it can and
    [LastError] has nothing to report. *)
Definition read_data (body : list byte) : option (Danmaku * option error) :=
  match strip_prefix cmd_prefix body with
  | None => None
  | Some rest =>
      match strip_prefix ([Byte.x2c] ++ member "data") (after_quote rest) with
      | None => None
      | Some obj => Some (read_event obj, None)
      end
  end.

(** A stand-in for json-iterator on the bodies of the examples.  It
    reads an object with the single integer member code as an AUTH_ACK
    body, the string value of a leading cmd member, and the data member
    that follows it. *)
#[export] Instance canonical_json : Json := {|
  Unmarshal_wsAuthResponse body :=
    match strip_prefix code_prefix body with
    | Some rest =>
        match read_integer rest with
        | Some n => inl {| Code := n |}
        | None => inr (External "json: code")
        end
    | None => inr (External "json: auth response")
    end;
  Get_ToString body key :=
    if String.eqb key "cmd" then
      match strip_prefix cmd_prefix body with
      | Some rest => string_of_list_byte (until_quote rest)
      | None => ""
      end
    else "";
  Get_ToVal_Danmaku body key :=
    if String.eqb key "data" then read_data body else None
|}.

Definition ack_body (digit : byte) : list byte :=
  (code_prefix ++ [digit; Byte.x7d])%list.

Definition auth_ack (digit : byte) : wsProtoMsg :=
  {| Version := 0; Operation := wsProtoOpAuthReply; SequenceID := 0;
     Body := ack_body digit |}.

Definition other_cmd_msg : wsProtoMsg :=
  {| Version := 0; Operation := wsProtoOpSendMsgReply; SequenceID := 0;
     Body := (cmd_prefix ++ list_byte_of_string "LIVE_OPEN_PLATFORM_GIFT"
              ++ [Byte.x22; Byte.x7d])%list |}.

(** A connection that waits for the AUTH_ACK, as [connect] leaves it. *)
Definition awaiting_auth : liveWebsocketClient :=
  {| url := "wss://example"; authBody := "auth"; onDanmaku := true;
     onClose := true; state := websocketClientStateAuth;
     conn := Some (Dialed "wss://example"); seqID := 1;
     heartbeatTicker := true; loopCancel := true;
     eventHandler := connect_handlers |}.

(* ------------------------------------------------------------------ *)
(** ** Relating a connection before and after a method                  *)
(* ------------------------------------------------------------------ *)

(** [m] respects [R] when every returning run of [m] relates the
    connection before, the effects, and the connection after. *)
Definition respects {A : Type}
  (R : liveWebsocketClient -> list effect -> liveWebsocketClient -> Prop)
  (m : Act A) : Prop :=
  forall c a c' tr, m c = Ret (a, c', tr) -> R c tr c'.

Definition is_frame (e : effect) : bool :=
  match e with
  | EFrame _ => true
  | _ => false
  end.



(** A connection with an open transport has its loops and its ticker. *)
Definition wired (c : liveWebsocketClient) : Prop :=
  conn c <> None -> loopCancel c = true /\ heartbeatTicker c = true.

(** The connection [connect] leaves when the dial succeeds. *)
Definition connected (cn : Conn) (c : liveWebsocketClient)
  : liveWebsocketClient :=
  {| url := url c; authBody := authBody c; onDanmaku := onDanmaku c;
     onClose := onClose c; state := websocketClientStateAuth;
     conn := Some cn; seqID := int32 (0 + 1);
     heartbeatTicker := true; loopCancel := true;
     eventHandler := connect_handlers |}.

(** The connection [internalClose] leaves. *)
Definition torn_down (c : liveWebsocketClient) : liveWebsocketClient :=
  {| url := url c; authBody := authBody c; onDanmaku := onDanmaku c;
     onClose := onClose c; state := websocketClientStateIdle;
     conn := None; seqID := seqID c;
     heartbeatTicker := false; loopCancel := false;
     eventHandler := eventHandler c |}.

Definition teardown_effects (err : option error) (c : liveWebsocketClient)
  : list effect :=
  ((if loopCancel c then [ELoopCancel] else [])
   ++ (if heartbeatTicker c then [ETickerStop] else [])
   ++ (if onClose c then [EOnClose err] else []))%list.

(** A fresh connection, the tick of a heartbeat whose frame the transport
    takes whole, and a short life: connected, authenticated, two ticks. *)
Definition fresh_ws : liveWebsocketClient :=
  new_ws "wss://example" "auth" true true.

Definition tick : conn_event := Loop (HeartbeatTick (TxWriter 6)).

Definition authenticated : conn_event :=
  Loop (EventCh (Some (auth_ack Byte.x30))).

Definition short_life : list conn_event := [authenticated; tick; tick].

(** A bootstrap response that succeeds and names no endpoint. *)
Definition start_without_endpoint : CommonResponse appStartData :=
  {| rsp_Code := 0; rsp_Message := "0"; rsp_RequestID := "r1";
     rsp_Data :=
       {| GameInfo := {| GameID := "g1" |};
          WebsocketInfo := {| AuthBody := "auth"; WSSLink := [] |};
          AnchorInfo := {| anchor_RoomID := 1; anchor_Username := "u";
                           anchor_UserFace := "f"; anchor_UID := 1 |} |} |}.

(** Stand-ins for the digests, to run [RoundTrip] on an example; no
    property depends on what they compute. *)
Definition sample_crypto : Crypto :=
  {| hmac_sha256 := fun key msg => (key ++ msg)%list;
     md5_sum := fun msg => msg |}.

Definition sample_request : Request :=
  {| Method := "POST"; Header := ∅;
     GetBody := Some (inl (list_byte_of_string "{}")) |}.

(** A buffer frames a packet when its header declares a packet length
    above the header size, at most the maximum and at most the bytes at
    hand, and the fixed header length. *)
Definition well_framed (buf : list byte) : Prop :=
  16 < declaredPacketLength buf <= 2048 + 16
  /\ declaredPacketLength buf <= Z.of_nat (length buf)
  /\ declaredHeaderLength buf = 16.

(** The frame a framed buffer spells. *)
Definition decoded (buf : list byte) : wsProtoMsg :=
  {| Version := declaredVersion buf;
     Operation := declaredOperation buf;
     SequenceID := declaredSequenceID buf;
     Body := firstn (Z.to_nat (declaredPacketLength buf - 16)) (skipn 16 buf) |}.

(** Two frames back to back in one buffer: a greeting, then a heartbeat
    reply. *)
Definition greeting_msg : wsProtoMsg :=
  {| Version := 0; Operation := wsProtoOpSendMsgReply; SequenceID := 0;
     Body := list_byte_of_string "hi" |}.

Definition two_frames : list byte :=
  (encode greeting_msg ++ encode sample_msg)%list.

(** A frame whose body is one byte over the maximum body size. *)
Definition oversized_msg : wsProtoMsg :=
  {| Version := 0; Operation := wsProtoOpAuth; SequenceID := 0;
     Body := List.repeat Byte.x61 2049 |}.

(** A chat event; the frame that carries it, whose body is the envelope
    with cmd LIVE_OPEN_PLATFORM_DM and a data object with uid 123,
    uname alice and msg hello; and a chat frame whose envelope has the
    cmd member alone. *)
Definition alice_hello : Danmaku :=
  {| Timestamp := 0; RoomID := 0; UID := 123; Username := "alice";
     UserFace := ""; Admin := 0; Vip := 0; SVip := 0; MsgType := 0;
     DMType := DanmakuTypeText; Message := "hello"; MessageID := "";
     EmojiImgUrl := ""; FansMedalLevel := 0; FansMedalName := "";
     FansMedalWearingStatus := false |}.

Definition chat_msg : wsProtoMsg :=
  {| Version := 0; Operation := wsProtoOpSendMsgReply; SequenceID := 0;
     Body := (cmd_prefix ++ list_byte_of_string CmdLiveOpenPlatformDm
              ++ [Byte.x22; Byte.x2c] ++ member "data"
              ++ [Byte.x7b] ++ member "uid" ++ list_byte_of_string "123"
              ++ [Byte.x2c] ++ member "uname"
              ++ [Byte.x22] ++ list_byte_of_string "alice" ++ [Byte.x22]
              ++ [Byte.x2c] ++ member "msg"
              ++ [Byte.x22] ++ list_byte_of_string "hello" ++ [Byte.x22]
              ++ [Byte.x7d; Byte.x7d])%list |}.

Definition chat_msg_without_data : wsProtoMsg :=
  {| Version := 0; Operation := wsProtoOpSendMsgReply; SequenceID := 0;
     Body := (cmd_prefix ++ list_byte_of_string CmdLiveOpenPlatformDm
              ++ [Byte.x22; Byte.x7d])%list |}.

(** An authenticated connection, as the AUTH_ACK with code 0 leaves it. *)
Definition active_ws : liveWebsocketClient :=
  set_state websocketClientStateActive awaiting_auth.

(** A connection that is not idle holds its transport. *)
Definition holds_transport (c : liveWebsocketClient) : Prop :=
  state c <> websocketClientStateIdle -> conn c <> None.

(** A connection with an open transport has both its loops parked. *)
Definition loops_parked (g : routines) (c : liveWebsocketClient) : Prop :=
  conn c <> None -> reader g = true /\ dispatcher g = true.

(** A method or a step only ever clears [conn], and keeps the close
    callback and the wiring. *)
Definition keeps_transport (c : liveWebsocketClient) (tr : list effect)
  (c' : liveWebsocketClient) : Prop :=
  (conn c' = conn c \/ conn c' = None)
  /\ onClose c' = onClose c
  /\ (wired c -> wired c').

(** The bytes handed to the transport writer, in order. *)
Fixpoint sends (tr : list effect) : list (list byte) :=
  match tr with
  | [] => []
  | ESend bs :: rest => bs :: sends rest
  | _ :: rest => sends rest
  end.

(* ------------------------------------------------------------------ *)
(** ** The client facade: ending a session                              *)
(* ------------------------------------------------------------------ *)

(** What the facade does to the world around it. *)
Inductive facade_effect : Type :=
| FConn (e : effect)               (* what the owned connection did *)
| FCall (path : string)            (* an HTTP call of the control API *)
| FLog (lvl : log_level) (msg : string)
| FOnClose (reason : option error). (* the caller's [OnClose] *)

(** The control-API paths called, in order. *)
Fixpoint api_calls (tr : list facade_effect) : list string :=
  match tr with
  | [] => []
  | FCall path :: rest => path :: api_calls rest
  | _ :: rest => api_calls rest
  end.

(** The reasons handed to the caller's [OnClose], in order. *)
Fixpoint owner_notifications (tr : list facade_effect)
  : list (option error) :=
  match tr with
  | [] => []
  | FOnClose r :: rest => r :: owner_notifications rest
  | _ :: rest => owner_notifications rest
  end.

Definition ApiHostRelease : string := "https://live-open.biliapi.com".

Definition getApiHost (c : LiveClient) : string :=
  if String.eqb (ApiHost c) "" then ApiHostRelease else ApiHost c.

(** [callAppEnd], given what the HTTP exchange returns if it is made. *)
Definition callAppEnd (r : api_result unit) (c : LiveClient)
  : option error * list facade_effect :=
  match clientState_ c with
  | clientStateIdle => (Some (Errorf "client state should be alive" []), [])
  | clientStateActive =>
      if String.eqb (gameID c) "" then (None, [])
      else
        match r with
        | ApiFail err => (Some err, [FCall "/v2/app/end"])
        | ApiRsp rsp => (CommonResponse_Err rsp, [FCall "/v2/app/end"])
        end
  end.

(** [callAppHeartbeat], likewise. *)
Definition callAppHeartbeat (r : api_result unit) (c : LiveClient)
  : option error * list facade_effect :=
  match clientState_ c with
  | clientStateIdle => (Some (Errorf "client state should be alive" []), [])
  | clientStateActive =>
      if String.eqb (gameID c) "" then (None, [])
      else
        match r with
        | ApiFail err => (Some err, [FCall "/v2/app/heartbeat"])
        | ApiRsp rsp => (CommonResponse_Err rsp, [FCall "/v2/app/heartbeat"])
        end
  end.

(** [Disconnect].  The mutex is taken on entry; the deferred functions
    clear [wsClient], set the state idle and release the mutex on the
    way out.  When the owned connection calls its [onClose], that is
    [c.onWsClose], which calls [Disconnect] again on the goroutine that
    holds the mutex: its [c.mu.Lock()] never returns. *)
Definition Disconnect (endr : api_result unit) (closed : option error)
  (c : LiveClient) : outcome (option error * LiveClient * list facade_effect) :=
  if mu c then Deadlock
  else
    let c := set_mu true c in
    let tr1 :=
      match clientState_ c with
      | clientStateActive =>
          match callAppEnd endr c with
          | (Some _, tr) => tr ++ [FLog LWarn "call app end fail"]
          | (None, tr) => tr
          end
      | clientStateIdle => []
      end in
    match wsClient c with
    | Some ws =>
        '(err, ws', tr) ← Close closed ws;
        if notifies_owner tr then Deadlock
        else
          let tr2 :=
            match err with
            | Some _ => [FLog LWarn "close last websocket client fail"]
            | None => []
            end in
          Ret (None,
               set_mu false (set_clientState clientStateIdle
                               (set_wsClient None c)),
               tr1 ++ map FConn tr ++ tr2)
    | None =>
        Ret (None, set_mu false (set_clientState clientStateIdle c), tr1)
    end.

(** [onWsClose], the [onClose] of every connection the facade builds. *)
Definition onWsClose (err : option error) (endr : api_result unit)
  (closed : option error) (c : LiveClient)
  : outcome (LiveClient * list facade_effect) :=
  '(e, c', tr) ← Disconnect endr closed c;
  let tr :=
    match e with
    | Some _ => tr ++ [FLog LWarn "disconnect fail"]
    | None => tr
    end in
  Ret (c', tr ++ if OnClose c' then [FOnClose err] else []).

(** The read loop of the owned connection is told the transport closed.
    The connection is one object: the facade sees the fields
    [internalClose] has written when [onClose] is called. *)
Definition transport_closed (err : error) (endr : api_result unit)
  (closed : option error) (c : LiveClient)
  : outcome (LiveClient * list facade_effect) :=
  match wsClient c with
  | None => Ret (c, [])
  | Some ws =>
      '(_, ws', tr) ← readLoop_turn (ReadClosed err) ws;
      let c := set_wsClient (Some ws') c in
      match close_notifications tr with
      | [] => Ret (c, map FConn tr)
      | reason :: _ =>
          '(c', tr') ← onWsClose reason endr closed c;
          Ret (c', map FConn tr ++ tr')
      end
  end.

(** A bootstrap response with one endpoint, and the client it connects. *)
Definition start_with_endpoint : CommonResponse appStartData :=
  {| rsp_Code := 0; rsp_Message := "0"; rsp_RequestID := "r1";
     rsp_Data :=
       {| GameInfo := {| GameID := "g1" |};
          WebsocketInfo :=
            {| AuthBody := "auth"; WSSLink := ["wss://a"; "wss://b"] |};
          AnchorInfo := {| anchor_RoomID := 1; anchor_Username := "u";
                           anchor_UserFace := "f"; anchor_UID := 1 |} |} |}.

Definition fresh_client : LiveClient :=
  new_LiveClient "key" "secret" 1 true true.

(** The headers [RoundTrip] writes. *)
Definition written_headers : list string :=
  [ HeaderBiliTimestamp; HeaderBiliSignatureMethod; HeaderBiliSignatureNonce;
    HeaderBiliAccessKeyId; HeaderBiliSignatureVersion; HeaderBiliContentMD5;
    "Authorization" ].

(** A POST request built without a body, and a GET request that brings
    headers of its own. *)
Definition bodiless_post : Request :=
  {| Method := "POST"; Header := ∅; GetBody := None |}.

Definition get_request : Request :=
  {| Method := "GET";
     Header := Header_Set (Header_Set ∅ "Accept" "application/json")
                 "X-Bili-Signature-Method" "none";
     GetBody := None |}.

(** The moves of the state machine outside [connect]: stay, finish the
    handshake, or fall back to idle. *)
Definition forward (a b : websocketClientState) : Prop :=
  b = a
  \/ (a = websocketClientStateAuth /\ b = websocketClientStateActive)
  \/ b = websocketClientStateIdle.

(** What a step may promise: the connection still holds its transport
    when not idle, the state moved forward, and an idle connection
    stayed idle and silent. *)
Definition step_ok (c : liveWebsocketClient) (tr : list effect)
  (c' : liveWebsocketClient) : Prop :=
  holds_transport c'
  /\ forward (state c) (state c')
  /\ (state c = websocketClientStateIdle ->
      state c' = websocketClientStateIdle
      /\ frames tr = [] /\ sends tr = []).

(** A method or a step does nothing unsafe here: it returns with
    [step_ok], or it panics; it never blocks. *)
Definition safely {A : Type} (c : liveWebsocketClient)
  (o : outcome (A * liveWebsocketClient * list effect)) : Prop :=
  match o with
  | Ret (_, c', tr) => step_ok c tr c'
  | Panic _ => True
  | Deadlock => False
  end.

(* ================================================================== *)
(** * Properties                                                        *)
(* ================================================================== *)

(* ------------------------------------------------------------------ *)
(** ** Integers and bytes: conversion lemmas                            *)
(* ------------------------------------------------------------------ *)

Lemma int32_uint32 (v : Z) : is_int32 v -> int32 (uint32 v) = v.
Proof.
  unfold is_int32, int32, uint32; intros Hv.
  rewrite Zplus_mod_idemp_l.
  rewrite Z.mod_small; lia.
Qed.

Lemma int16_uint16 (v : Z) : is_int16 v -> int16 (uint16 v) = v.
Proof.
  unfold is_int16, int16, uint16; intros Hv.
  rewrite Zplus_mod_idemp_l.
  rewrite Z.mod_small; lia.
Qed.

Lemma int32_small (v : Z) : is_int32 v -> int32 v = v.
Proof. unfold is_int32, int32; intros Hv. rewrite Z.mod_small; lia. Qed.

Lemma int16_small (v : Z) : is_int16 v -> int16 v = v.
Proof. unfold is_int16, int16; intros Hv. rewrite Z.mod_small; lia. Qed.

Lemma uint32_range (v : Z) : 0 <= uint32 v < 2 ^ 32.
Proof. unfold uint32; apply Z.mod_pos_bound; lia. Qed.

Lemma uint16_range (v : Z) : 0 <= uint16 v < 2 ^ 16.
Proof. unfold uint16; apply Z.mod_pos_bound; lia. Qed.

Lemma testbit_high (w v i : Z) :
  0 <= w -> 0 <= v < 2 ^ w -> w <= i -> Z.testbit v i = false.
Proof.
  intros Hw Hv Hi.
  rewrite <- (Z.mod_small v (2 ^ w)) by assumption.
  apply Z.mod_pow2_bits_high; lia.
Qed.

Lemma Uint32_PutUint32 (v : Z) (rest sp : list byte) :
  0 <= v < 2 ^ 32 ->
  BigEndian_Uint32 {| elems := BigEndian_PutUint32 v ++ rest; spare := sp |}
  = Ret v.
Proof.
  intros Hv. unfold BigEndian_Uint32, BigEndian_PutUint32. cbn [elems app].
  f_equal. rewrite !byte.unsigned_of_Z. unfold byte.wrap.
  rewrite <- !Z.land_ones by lia.
  Z.bitblast.
  all: rewrite (testbit_high 32 v) by lia; reflexivity.
Qed.

Lemma Uint16_PutUint16 (v : Z) (rest sp : list byte) :
  0 <= v < 2 ^ 16 ->
  BigEndian_Uint16 {| elems := BigEndian_PutUint16 v ++ rest; spare := sp |}
  = Ret v.
Proof.
  intros Hv. unfold BigEndian_Uint16, BigEndian_PutUint16. cbn [elems app].
  f_equal. rewrite !byte.unsigned_of_Z. unfold byte.wrap.
  rewrite <- !Z.land_ones by lia.
  Z.bitblast.
  all: rewrite (testbit_high 16 v) by lia; reflexivity.
Qed.

Lemma byte_unsigned_range (b : byte) : 0 <= byte.unsigned b < 256.
Proof.
  unfold byte.unsigned.
  pose proof (Byte.to_N_bounded b) as Hb. lia.
Qed.

Lemma lor_shiftl_add (lo hi k : Z) :
  0 <= k -> 0 <= lo < 2 ^ k -> Z.lor lo (Z.shiftl hi k) = hi * 2 ^ k + lo.
Proof.
  intros Hk Hlo.
  pose proof (Z.add_lor_land lo (Z.shiftl hi k)) as Hadd.
  assert (Hland : Z.land lo (Z.shiftl hi k) = 0).
  { apply Z.bits_inj'; intros i Hi.
    rewrite Z.land_spec, Z.bits_0.
    destruct (Z.lt_ge_cases i k) as [Hlt | Hge].
    - rewrite Z.shiftl_spec_low by lia. apply andb_false_r.
    - rewrite (testbit_high k lo i) by lia. reflexivity. }
  rewrite Hland, Z.shiftl_mul_pow2 in Hadd by lia.
  rewrite Z.shiftl_mul_pow2 by lia. lia.
Qed.

Lemma be16_value (b0 b1 : byte) :
  Z.lor (byte.unsigned b1) (Z.shiftl (byte.unsigned b0) 8) = be_value [b0; b1].
Proof.
  pose proof (byte_unsigned_range b1).
  rewrite lor_shiftl_add by lia. unfold be_value; cbn [fold_left]. lia.
Qed.

Lemma be32_value (b0 b1 b2 b3 : byte) :
  Z.lor (Z.lor (Z.lor (byte.unsigned b3) (Z.shiftl (byte.unsigned b2) 8))
               (Z.shiftl (byte.unsigned b1) 16))
        (Z.shiftl (byte.unsigned b0) 24)
  = be_value [b0; b1; b2; b3].
Proof.
  pose proof (byte_unsigned_range b0). pose proof (byte_unsigned_range b1).
  pose proof (byte_unsigned_range b2). pose proof (byte_unsigned_range b3).
  rewrite (lor_shiftl_add (byte.unsigned b3)) by lia.
  rewrite (lor_shiftl_add _ (byte.unsigned b1)) by lia.
  rewrite (lor_shiftl_add _ (byte.unsigned b0)) by lia.
  unfold be_value; cbn [fold_left]. lia.
Qed.

(* ------------------------------------------------------------------ *)
(** ** Slices and readers: what they return, when they panic            *)
(* ------------------------------------------------------------------ *)

Lemma slice_range_ret (s : slice) (lo hi : Z) :
  0 <= lo <= hi -> hi <= slice_cap s ->
  slice_range s lo hi = Ret (subslice s lo hi).
Proof.
  intros [Hlo Hhi] Hcap. unfold slice_range.
  destruct (Z.leb_spec 0 lo); try lia.
  destruct (Z.leb_spec lo hi); try lia.
  destruct (Z.leb_spec hi (slice_cap s)); try lia.
  reflexivity.
Qed.

Lemma slice_len_le_cap (s : slice) : slice_len s <= slice_cap s.
Proof. unfold slice_len, slice_cap. lia. Qed.

Lemma elems_subslice (s : slice) (lo hi : Z) :
  0 <= lo <= hi -> hi <= slice_len s ->
  elems (subslice s lo hi)
  = firstn (Z.to_nat (hi - lo)) (skipn (Z.to_nat lo) (elems s)).
Proof.
  intros Hlo Hhi. unfold subslice, slice_len in *. cbn [elems].
  rewrite skipn_app, firstn_app, length_skipn.
  replace (Z.to_nat (hi - lo) - (length (elems s) - Z.to_nat lo))%nat
    with 0%nat by lia.
  cbn [firstn]. apply app_nil_r.
Qed.

Lemma slice_from_ret (s : slice) (lo : Z) :
  0 <= lo <= slice_len s ->
  slice_from s lo
  = Ret {| elems := skipn (Z.to_nat lo) (elems s); spare := spare s |}.
Proof.
  intros [H0 H1]. unfold slice_from.
  destruct (Z.leb_spec 0 lo); try lia.
  destruct (Z.leb_spec lo (slice_len s)); try lia.
  reflexivity.
Qed.

Lemma Uint32_value (s : slice) :
  (4 <= length (elems s))%nat ->
  BigEndian_Uint32 s = Ret (be_value (firstn 4 (elems s))).
Proof.
  unfold BigEndian_Uint32.
  destruct (elems s) as [|b0 [|b1 [|b2 [|b3 l]]]]; cbn [length]; try lia.
  intros _. cbn [firstn]. now rewrite be32_value.
Qed.

Lemma Uint16_value (s : slice) :
  (2 <= length (elems s))%nat ->
  BigEndian_Uint16 s = Ret (be_value (firstn 2 (elems s))).
Proof.
  unfold BigEndian_Uint16.
  destruct (elems s) as [|b0 [|b1 l]]; cbn [length]; try lia.
  intros _. cbn [firstn]. now rewrite be16_value.
Qed.

Lemma Uint32_short (s : slice) :
  (length (elems s) < 4)%nat -> BigEndian_Uint32 s = Panic IndexOutOfRange.
Proof.
  unfold BigEndian_Uint32.
  destruct (elems s) as [|b0 [|b1 [|b2 [|b3 l]]]]; cbn [length];
    try reflexivity; lia.
Qed.

Lemma slice_range_total (s : slice) (lo hi : Z) :
  returns_or_panics (slice_range s lo hi).
Proof.
  unfold returns_or_panics, slice_range.
  destruct (_ && _); eauto.
Qed.

Lemma Uint32_total (s : slice) : returns_or_panics (BigEndian_Uint32 s).
Proof.
  unfold returns_or_panics, BigEndian_Uint32.
  destruct (elems s) as [|b0 [|b1 [|b2 [|b3 l]]]]; eauto.
Qed.

Lemma Uint16_total (s : slice) : returns_or_panics (BigEndian_Uint16 s).
Proof.
  unfold returns_or_panics, BigEndian_Uint16.
  destruct (elems s) as [|b0 [|b1 l]]; eauto.
Qed.

Lemma bind_panics {A B : Type} (m : outcome A) (k : A -> outcome B) :
  returns_or_panics m ->
  (forall a, exists e, k a = Panic e) ->
  exists e, (m ≫= k) = Panic e.
Proof.
  intros [[a ->] | [e ->]] Hk; cbn; eauto.
Qed.

(** The last header read, [buf[wsProtoSeqIdOffset:]] handed to [Uint32],
    cannot succeed on fewer than sixteen bytes. *)
Lemma read_sequence_panics (buf : slice) :
  slice_len buf < 16 ->
  exists e,
    (slice_from buf wsProtoSeqIdOffset ≫= BigEndian_Uint32) = Panic e.
Proof.
  intros Hlen. unfold slice_from.
  change wsProtoSeqIdOffset with 12.
  destruct (Z.leb_spec 12 (slice_len buf)) as [H12 | H12]; cbn.
  - rewrite Uint32_short; eauto.
    cbn [elems]. rewrite length_skipn. unfold slice_len in *. lia.
  - eauto.
Qed.


(* ------------------------------------------------------------------ *)
(** ** The frame codec                                                  *)
(* ------------------------------------------------------------------ *)

(** C9.  [parseWsProtoMsg] reads the five header fields before it checks
    any length: on every buffer of fewer than 16 bytes, whatever its
    capacity, it panics with a run-time bounds error and returns no
    malformed-frame error. *)
Theorem parseWsProtoMsg_short_buffer_panics (buf : slice) :
  slice_len buf < 16 ->
  exists e, parseWsProtoMsg buf = Panic e.
Proof.
  intros Hlen. unfold parseWsProtoMsg.
  apply bind_panics; [apply slice_range_total | intros s0].
  apply bind_panics; [apply Uint32_total | intros u0].
  apply bind_panics; [apply slice_range_total | intros s1].
  apply bind_panics; [apply Uint16_total | intros u1].
  apply bind_panics; [apply slice_range_total | intros s2].
  apply bind_panics; [apply Uint16_total | intros u2].
  apply bind_panics; [apply slice_range_total | intros s3].
  apply bind_panics; [apply Uint32_total | intros u3].
  destruct (read_sequence_panics buf Hlen) as [e He].
  exists e.
  destruct (slice_from buf wsProtoSeqIdOffset) as [s4| |]; cbn in He |- *;
    try congruence.
  destruct (BigEndian_Uint32 s4); cbn in He |- *; congruence.
Qed.

Lemma parseWsProtoMsg_short_buffer_panics_witness :
  slice_len {| elems := [Byte.x00; Byte.x00; Byte.x00]; spare := [Byte.x00] |} < 16
  /\ exists e,
      parseWsProtoMsg {| elems := [Byte.x00; Byte.x00; Byte.x00];
                         spare := [Byte.x00] |} = Panic e.
Proof.
  split; [reflexivity |].
  apply parseWsProtoMsg_short_buffer_panics. reflexivity.
Defined.

(** On a buffer that holds a whole header the five reads succeed and
    return the fields the wire layout names. *)
Lemma parseWsProtoMsg_header (buf sp : list byte) :
  (16 <= length buf)%nat ->
  parseWsProtoMsg {| elems := buf; spare := sp |}
  = validate {| elems := buf; spare := sp |}
      {| Version := declaredVersion buf;
         Operation := declaredOperation buf;
         SequenceID := declaredSequenceID buf;
         Body := [] |}
      (declaredPacketLength buf) (declaredHeaderLength buf).
Proof.
  intros Hlen. unfold parseWsProtoMsg.
  set (s := {| elems := buf; spare := sp |}).
  assert (Hs : slice_len s = Z.of_nat (length buf)) by reflexivity.
  pose proof (slice_len_le_cap s) as Hcap.
  change wsProtoPackOffset with 0. change wsProtoHeaderOffset with 4.
  change wsProtoVerOffset with 6. change wsProtoOperationOffset with 8.
  change wsProtoSeqIdOffset with 12.
  rewrite !slice_range_ret by lia.
  rewrite slice_from_ret by lia.
  cbn [mbind outcome_bind].
  rewrite (Uint32_value (subslice s 0 4)), (Uint32_value (subslice s 8 12)),
    (Uint16_value (subslice s 4 6)), (Uint16_value (subslice s 6 8));
    try (rewrite elems_subslice by lia; rewrite length_firstn, length_skipn;
         cbn [elems s]; lia).
  cbn [mbind outcome_bind].
  rewrite Uint32_value
    by (cbn [elems s]; rewrite length_skipn; lia).
  cbn [mbind outcome_bind].
  rewrite !elems_subslice by lia. cbn [elems s].
  rewrite !firstn_firstn.
  reflexivity.
Qed.

Lemma wsProtoMaxPackSize_value : wsProtoMaxPackSize = 2048 + 16.
Proof. reflexivity. Qed.

(** C3.  On a buffer of at least 16 bytes [parseWsProtoMsg] returns, and
    its error is decided by four checks made in this order: (a) the
    declared packet length is negative or above 2048 + 16; (b) the buffer
    is shorter than the declared packet length; (c) the header length is
    not 16; (d) packet length minus header length is at most 0.  Each
    error names the offending field and carries its value; when no check
    fires the decode succeeds and the body is the bytes from offset 16 up
    to the declared packet length. *)
Theorem parseWsProtoMsg_rejects_exactly (buf sp : list byte) :
  (16 <= length buf)%nat ->
  let n := Z.of_nat (length buf) in
  let packetLength := declaredPacketLength buf in
  let headerLength := declaredHeaderLength buf in
  exists p err,
    parseWsProtoMsg {| elems := buf; spare := sp |} = Ret (p, err)
    /\ (packetLength < 0 \/ packetLength > 2048 + 16 ->
        err = Some (Errorf "invalid pack size: %d" [packetLength]))
    /\ (0 <= packetLength <= 2048 + 16 -> n < packetLength ->
        err = Some (Errorf "buffer length %d is smaller than packet size %d"
                           [n; packetLength]))
    /\ (0 <= packetLength <= 2048 + 16 -> packetLength <= n ->
        headerLength <> 16 ->
        err = Some (Errorf "unsupported header size: %d" [headerLength]))
    /\ (0 <= packetLength <= 2048 + 16 -> packetLength <= n ->
        headerLength = 16 -> packetLength - headerLength <= 0 ->
        err = Some (Errorf "invalid body size: %d"
                           [packetLength - headerLength]))
    /\ (0 <= packetLength <= 2048 + 16 -> packetLength <= n ->
        headerLength = 16 -> 0 < packetLength - headerLength ->
        err = None
        /\ Body p = firstn (Z.to_nat (packetLength - 16)) (skipn 16 buf)).
Proof.
  intros Hlen n packetLength headerLength.
  rewrite (parseWsProtoMsg_header buf sp Hlen).
  fold packetLength headerLength. unfold validate.
  rewrite wsProtoMaxPackSize_value.
  change (slice_len {| elems := buf; spare := sp |}) with n.
  change wsProtoRawHeaderSize with 16.
  destruct (Z.ltb_spec packetLength 0) as [Ha1 | Ha1]; cbn [orb].
  { do 2 eexists. split; [reflexivity |]. repeat split; intros; lia || auto. }
  destruct (Z.gtb_spec packetLength (2048 + 16)) as [Ha2 | Ha2].
  { do 2 eexists. split; [reflexivity |]. repeat split; intros; lia || auto. }
  destruct (Z.ltb_spec n packetLength) as [Hb | Hb].
  { do 2 eexists. split; [reflexivity |]. repeat split; intros; lia || auto. }
  destruct (Z.eqb_spec headerLength 16) as [Hc | Hc]; cbn [negb].
  2: { do 2 eexists. split; [reflexivity |]. repeat split; intros; lia || auto. }
  rewrite Hc. change (int32 16) with 16.
  rewrite (int32_small (packetLength - 16)) by (unfold is_int32; lia).
  destruct (Z.leb_spec (packetLength - 16) 0) as [Hd | Hd].
  { do 2 eexists. split; [reflexivity |]. repeat split; intros; lia || auto. }
  pose proof (slice_len_le_cap {| elems := buf; spare := sp |}) as Hcap.
  change (slice_len {| elems := buf; spare := sp |}) with n in Hcap.
  rewrite slice_range_ret by lia. cbn [mbind outcome_bind].
  do 2 eexists. split; [reflexivity |].
  repeat split; intros; try lia.
  cbn [Body]. rewrite elems_subslice by (unfold slice_len; cbn [elems]; lia).
  reflexivity.
Qed.

Lemma parseWsProtoMsg_rejects_exactly_witness :
  (16 <= length rejected_sample)%nat
  /\ exists p,
      parseWsProtoMsg {| elems := rejected_sample; spare := [] |}
      = Ret (p, Some (Errorf "invalid body size: %d" [0])).
Proof.
  split; [cbn; lia |].
  destruct (parseWsProtoMsg_rejects_exactly rejected_sample [])
    as (p & err & Hp & _ & _ & _ & Hd & _); [cbn; lia |].
  exists p. rewrite Hp. f_equal. f_equal.
  apply Hd; vm_compute; intuition congruence.
Defined.

Lemma be_value_PutUint32 (v : Z) :
  0 <= v < 2 ^ 32 -> be_value (BigEndian_PutUint32 v) = v.
Proof.
  intros Hv.
  pose proof (Uint32_PutUint32 v [] [] Hv) as Hput.
  rewrite Uint32_value in Hput by (cbn; lia).
  cbn [elems app BigEndian_PutUint32 firstn] in Hput.
  now injection Hput.
Qed.

Lemma be_value_PutUint16 (v : Z) :
  0 <= v < 2 ^ 16 -> be_value (BigEndian_PutUint16 v) = v.
Proof.
  intros Hv.
  pose proof (Uint16_PutUint16 v [] [] Hv) as Hput.
  rewrite Uint16_value in Hput by (cbn; lia).
  cbn [elems app BigEndian_PutUint16 firstn] in Hput.
  now injection Hput.
Qed.

(** The sixteen header bytes and the body, in wire order. *)
Lemma encode_layout (p : wsProtoMsg) :
  writeWsProtoMsg ([] : list byte) p
  = (BigEndian_PutUint32
       (uint32 (int32 (wsProtoRawHeaderSize + Z.of_nat (length (Body p)))))
     ++ BigEndian_PutUint16 (uint16 (int16 wsProtoRawHeaderSize))
     ++ BigEndian_PutUint16 (uint16 (Version p))
     ++ BigEndian_PutUint32 (uint32 (int32 (Operation p)))
     ++ BigEndian_PutUint32 (uint32 (SequenceID p))
     ++ Body p, None)%list.
Proof. reflexivity. Qed.

Lemma encode_length (p : wsProtoMsg) :
  length (encode p) = (16 + length (Body p))%nat.
Proof. unfold encode. rewrite encode_layout. reflexivity. Qed.

(** C1 (amended).  For every frame whose body holds at most 2048 bytes,
    writing it to an empty buffer succeeds.  When the body holds between
    1 and 2048 bytes, [parseWsProtoMsg] on the bytes written, whatever
    the capacity of the slice that carries them, returns no error and
    the frame itself: version, operation, sequence ID and body.  When
    the body is empty the bytes written are the 16 header bytes alone,
    and [parseWsProtoMsg] rejects them with the body-size error. *)
Theorem parse_write_roundtrip (p : wsProtoMsg) (sp : list byte) :
  msg_typed p ->
  (length (Body p) <= 2048)%nat ->
  snd (writeWsProtoMsg ([] : list byte) p) = None
  /\ ((1 <= length (Body p))%nat ->
      parseWsProtoMsg {| elems := encode p; spare := sp |} = Ret (p, None))
  /\ (Body p = [] ->
      length (encode p) = 16%nat
      /\ parseWsProtoMsg {| elems := encode p; spare := sp |}
         = Ret (p, Some (Errorf "invalid body size: %d" [0]))).
Proof.
  intros (Hver & Hop & Hseq) Hbody.
  split; [now rewrite encode_layout |].
  assert (Hparse :
    parseWsProtoMsg {| elems := encode p; spare := sp |}
    = validate {| elems := encode p; spare := sp |}
        {| Version := Version p; Operation := Operation p;
           SequenceID := SequenceID p; Body := [] |}
        (16 + Z.of_nat (length (Body p))) 16).
  { rewrite parseWsProtoMsg_header by (rewrite encode_length; lia).
    assert (Hpl : declaredPacketLength (encode p)
                  = 16 + Z.of_nat (length (Body p))).
    { unfold declaredPacketLength, encode. rewrite encode_layout.
      cbn [fst]. change wsProtoRawHeaderSize with 16.
      change (wire_field _ 0 4) with
        (BigEndian_PutUint32
           (uint32 (int32 (16 + Z.of_nat (length (Body p)))))).
      rewrite be_value_PutUint32 by apply uint32_range.
      rewrite int32_uint32; rewrite int32_small; unfold is_int32; lia. }
    assert (Hhl : declaredHeaderLength (encode p) = 16).
    { unfold declaredHeaderLength, encode. rewrite encode_layout.
      reflexivity. }
    assert (Hv : declaredVersion (encode p) = Version p).
    { unfold declaredVersion, encode. rewrite encode_layout. cbn [fst].
      change (wire_field _ 6 2)
        with (BigEndian_PutUint16 (uint16 (Version p))).
      rewrite be_value_PutUint16 by apply uint16_range.
      now apply int16_uint16. }
    assert (Ho : declaredOperation (encode p) = Operation p).
    { unfold declaredOperation, encode. rewrite encode_layout. cbn [fst].
      change (wire_field _ 8 4) with
        (BigEndian_PutUint32 (uint32 (int32 (Operation p)))).
      rewrite be_value_PutUint32 by apply uint32_range.
      rewrite int32_uint32; rewrite int32_small; auto. }
    assert (Hs : declaredSequenceID (encode p) = SequenceID p).
    { unfold declaredSequenceID, encode. rewrite encode_layout. cbn [fst].
      change (wire_field _ 12 4) with
        (BigEndian_PutUint32 (uint32 (SequenceID p))).
      rewrite be_value_PutUint32 by apply uint32_range.
      now apply int32_uint32. }
    now rewrite Hpl, Hhl, Hv, Ho, Hs. }
  rewrite Hparse. unfold validate.
  rewrite wsProtoMaxPackSize_value. change wsProtoRawHeaderSize with 16.
  change (int32 16) with 16.
  assert (Hn : slice_len {| elems := encode p; spare := sp |}
               = 16 + Z.of_nat (length (Body p))).
  { unfold slice_len. cbn [elems]. rewrite encode_length. lia. }
  pose proof (slice_len_le_cap {| elems := encode p; spare := sp |}) as Hcap.
  rewrite Hn in *.
  destruct (Z.ltb_spec (16 + Z.of_nat (length (Body p))) 0); try lia.
  destruct (Z.gtb_spec (16 + Z.of_nat (length (Body p))) (2048 + 16));
    try lia.
  cbn [orb].
  destruct (Z.ltb_spec (16 + Z.of_nat (length (Body p)))
                       (16 + Z.of_nat (length (Body p)))); try lia.
  cbn [Z.eqb Pos.eqb negb].
  rewrite (int32_small (16 + Z.of_nat (length (Body p)) - 16))
    by (unfold is_int32; lia).
  split.
  - intros Hfull.
    destruct (Z.leb_spec (16 + Z.of_nat (length (Body p)) - 16) 0); try lia.
    rewrite slice_range_ret by lia. cbn [mbind outcome_bind].
    rewrite elems_subslice by lia. cbn [elems Version Operation SequenceID].
    replace (Z.to_nat (16 + Z.of_nat (length (Body p)) - 16))
      with (length (Body p)) by lia.
    change (Z.to_nat 16) with 16%nat.
    unfold encode. rewrite encode_layout. cbn [fst].
    change (skipn 16 _) with (Body p).
    rewrite firstn_all. now destruct p.
  - intros Hempty. split; [rewrite encode_length, Hempty; reflexivity |].
    rewrite Hempty. cbn [length Z.of_nat Z.add Z.sub Z.leb Z.compare
                         Z.pos_sub Pos.add Z.opp].
    destruct p as [v o q b]. cbn in Hempty. subst b. reflexivity.
Qed.

Lemma parse_write_roundtrip_witness :
  msg_typed sample_msg
  /\ (length (Body sample_msg) <= 2048)%nat
  /\ parseWsProtoMsg {| elems := encode sample_msg; spare := [] |}
     = Ret (sample_msg, None).
Proof.
  assert (Ht : msg_typed sample_msg) by (vm_compute; intuition congruence).
  assert (Hb : (length (Body sample_msg) <= 2048)%nat) by (cbn; lia).
  split; [exact Ht |]. split; [exact Hb |].
  apply (proj1 (proj2 (parse_write_roundtrip sample_msg [] Ht Hb))).
  cbn. lia.
Defined.

(** C1, as stated, fails on the empty body: the heartbeat frame the client
    itself sends has no body, and the bytes written for it are rejected
    by the body-size check. *)
Lemma roundtrip_rejects_empty_body :
  msg_typed heartbeat_sample
  /\ (length (Body heartbeat_sample) <= 2048)%nat
  /\ parseWsProtoMsg {| elems := encode heartbeat_sample; spare := [] |}
     = Ret (heartbeat_sample, Some (Errorf "invalid body size: %d" [0])).
Proof.
  split; [vm_compute; intuition congruence |].
  split; [cbn; lia | reflexivity].
Qed.


(* ------------------------------------------------------------------ *)
(** ** Handlers and the dispatch loop                                   *)
(* ------------------------------------------------------------------ *)

(** Running a method step by step. *)
Lemma with_trace_nil {A : Type}
    (o : outcome (A * liveWebsocketClient * list effect)) :
  with_trace [] o = o.
Proof. destruct o as [[[a c] t]| |]; reflexivity. Qed.

Lemma bind_run {A B : Type} (m : Act A) (k : A -> Act B)
    (c c1 : liveWebsocketClient) (a : A) (t1 : list effect) :
  m c = Ret (a, c1, t1) -> (m ≫= k) c = with_trace t1 (k a c1).
Proof.
  intros Hm. unfold mbind, Act_bind. rewrite Hm.
  destruct (k a c1) as [[[b c2] t2]| |]; reflexivity.
Qed.

Lemma bind_inv {A B : Type} (m : Act A) (k : A -> Act B)
    (c c' : liveWebsocketClient) (b : B) (tr : list effect) :
  (m ≫= k) c = Ret (b, c', tr) ->
  exists a c1 t1 t2,
    m c = Ret (a, c1, t1) /\ k a c1 = Ret (b, c', t2) /\ tr = (t1 ++ t2)%list.
Proof.
  unfold mbind, Act_bind. intros Hrun.
  destruct (m c) as [[[a c1] t1]| |]; try discriminate.
  destruct (k a c1) as [[[b' c2] t2]| |] eqn:Ek; try discriminate.
  inversion Hrun; subst. now exists a, c1, t1, t2.
Qed.

Lemma with_trace_app {A : Type} (t1 t2 : list effect)
    (o : outcome (A * liveWebsocketClient * list effect)) :
  with_trace t1 (with_trace t2 o) = with_trace (t1 ++ t2) o.
Proof.
  destruct o as [[[a c] t]| |]; cbn [with_trace]; [| reflexivity ..].
  now rewrite app_assoc.
Qed.

Lemma bind_field {A B : Type} (f : liveWebsocketClient -> A) (k : A -> Act B)
    (c : liveWebsocketClient) :
  (field f ≫= k) c = k (f c) c.
Proof. rewrite (bind_run _ _ c c (f c) []) by reflexivity.
       apply with_trace_nil. Qed.

Lemma bind_assign {B : Type} (f : liveWebsocketClient -> liveWebsocketClient)
    (k : unit -> Act B) (c : liveWebsocketClient) :
  (assign f ≫= k) c = k tt (f c).
Proof. rewrite (bind_run _ _ c (f c) tt []) by reflexivity.
       apply with_trace_nil. Qed.

Lemma bind_emit {B : Type} (e : effect) (k : unit -> Act B)
    (c : liveWebsocketClient) :
  (emit e ≫= k) c = with_trace [e] (k tt c).
Proof. now rewrite (bind_run _ _ c c tt [e]). Qed.

Lemma bind_ret {A B : Type} (a : A) (k : A -> Act B)
    (c : liveWebsocketClient) :
  (mret a ≫= k) c = k a c.
Proof. rewrite (bind_run _ _ c c a []) by reflexivity.
       apply with_trace_nil. Qed.

Lemma ret_run {A : Type} (a : A) (c : liveWebsocketClient) :
  (mret a : Act A) c = Ret (a, c, []).
Proof. reflexivity. Qed.


Ltac act_step :=
  repeat first
    [ rewrite bind_field | rewrite bind_assign | rewrite bind_emit
    | rewrite bind_ret | rewrite ret_run ];
  cbn [with_trace app].




Section HandlerProperties.
Context `{Json}.

(** C4.  When an AUTH_ACK frame is handled in the AwaitingAuth state and
    its body decodes: with code 0 the handler returns no error and the
    state is Active; with any other code the handler returns the
    rejection error and leaves the connection as it was, so the state is
    not Active. *)
Theorem handleOpAuth_transition (c : liveWebsocketClient) (msg : wsProtoMsg)
    (rsp : wsAuthResponse) :
  state c = websocketClientStateAuth ->
  Unmarshal_wsAuthResponse (Body msg) = inl rsp ->
  exists err c' tr,
    handleOpAuth msg c = Ret (err, c', tr)
    /\ (Code rsp = 0 ->
        err = None /\ state c' = websocketClientStateActive)
    /\ (Code rsp <> 0 ->
        err = Some (Errorf "auth response code is not zero: %d" [Code rsp])
        /\ c' = c /\ state c' <> websocketClientStateActive).
Proof.
  intros Hst Hrsp. unfold handleOpAuth.
  rewrite bind_field, Hst. cbn [state_eqb state_code Z.eqb Pos.eqb negb].
  rewrite Hrsp.
  destruct (Z.eqb_spec (Code rsp) 0) as [Hz | Hnz]; cbn [negb]; act_step.
  - do 3 eexists. split; [reflexivity |]. split; [auto | intros; lia].
  - do 3 eexists. split; [reflexivity |]. split; [intros; lia |].
    intros _. rewrite Hst. repeat split. discriminate.
Qed.

(** C2 (amended).  When the dispatch loop is handed an AUTH_ACK frame
    with a nonzero code in the AwaitingAuth state, the handler returns
    the rejection error with the code, the loop logs it as a warning and
    goes on, the connection is left exactly as it was (state
    AwaitingAuth, transport open), and [onClose] is not called. *)
Theorem eventLoop_auth_rejection_logged (c : liveWebsocketClient)
    (msg : wsProtoMsg) (rsp : wsAuthResponse) :
  state c = websocketClientStateAuth ->
  eventHandler c !! Operation msg = Some HandleOpAuth ->
  Unmarshal_wsAuthResponse (Body msg) = inl rsp ->
  Code rsp <> 0 ->
  handleOpAuth msg c
  = Ret (Some (Errorf "auth response code is not zero: %d" [Code rsp]), c, [])
  /\ eventLoop_turn (EventCh (Some msg)) c
     = Ret (true, c, [ELog LWarn "handle msg fail"])
  /\ close_notifications [ELog LWarn "handle msg fail"] = [].
Proof.
  intros Hst Hh Hrsp Hnz.
  assert (Hauth : handleOpAuth msg c
    = Ret (Some (Errorf "auth response code is not zero: %d" [Code rsp]), c, [])).
  { unfold handleOpAuth.
    rewrite bind_field, Hst. cbn [state_eqb state_code Z.eqb Pos.eqb negb].
    rewrite Hrsp.
    destruct (Z.eqb_spec (Code rsp) 0); [lia | reflexivity]. }
  split; [exact Hauth |]. split; [| reflexivity].
  unfold eventLoop_turn. rewrite bind_field, Hh.
  rewrite (bind_run _ _ _ _ _ _ Hauth). reflexivity.
Qed.

(** C8.  A MESSAGE_ACK frame whose [cmd] is not LIVE_OPEN_PLATFORM_DM:
    the handler returns no error, calls no callback and only logs a
    warning; the dispatch loop, handed that frame, goes on with the
    connection unchanged and nothing but that warning. *)
Theorem handleOpMsg_unrecognized_cmd (c : liveWebsocketClient)
    (msg : wsProtoMsg) :
  Get_ToString (Body msg) "cmd" <> CmdLiveOpenPlatformDm ->
  handleOpMsg msg c = Ret (None, c, [ELog LWarn "unsupported cmd"])
  /\ (eventHandler c !! Operation msg = Some HandleOpMsg ->
      eventLoop_turn (EventCh (Some msg)) c
      = Ret (true, c, [ELog LWarn "unsupported cmd"]))
  /\ danmaku_events [ELog LWarn "unsupported cmd"] = []
  /\ close_notifications [ELog LWarn "unsupported cmd"] = [].
Proof.
  intros Hcmd.
  assert (Hmsg : handleOpMsg msg c
                 = Ret (None, c, [ELog LWarn "unsupported cmd"])).
  { unfold handleOpMsg.
    destruct (String.eqb_spec (Get_ToString (Body msg) "cmd")
                              CmdLiveOpenPlatformDm) as [Heq | _];
      [contradiction | reflexivity]. }
  split; [exact Hmsg |]. split; [| split; reflexivity].
  intros Hh. unfold eventLoop_turn. rewrite bind_field, Hh.
  rewrite (bind_run _ _ _ _ _ _ Hmsg). reflexivity.
Qed.

End HandlerProperties.

Lemma handleOpAuth_transition_witness :
  state awaiting_auth = websocketClientStateAuth
  /\ Unmarshal_wsAuthResponse (Body (auth_ack Byte.x30)) = inl {| Code := 0 |}
  /\ exists err c' tr,
      handleOpAuth (auth_ack Byte.x30) awaiting_auth = Ret (err, c', tr)
      /\ state c' = websocketClientStateActive.
Proof.
  assert (Hbody : Unmarshal_wsAuthResponse (Body (auth_ack Byte.x30))
                  = inl {| Code := 0 |}) by reflexivity.
  split; [reflexivity |]. split; [exact Hbody |].
  destruct (handleOpAuth_transition awaiting_auth (auth_ack Byte.x30)
              {| Code := 0 |} eq_refl Hbody)
    as (err & c' & tr & Hrun & Hzero & _).
  exists err, c', tr. split; [exact Hrun |].
  apply Hzero. reflexivity.
Defined.

Lemma eventLoop_auth_rejection_logged_witness :
  state awaiting_auth = websocketClientStateAuth
  /\ eventHandler awaiting_auth !! Operation (auth_ack Byte.x31)
     = Some HandleOpAuth
  /\ Unmarshal_wsAuthResponse (Body (auth_ack Byte.x31)) = inl {| Code := 1 |}
  /\ eventLoop_turn (EventCh (Some (auth_ack Byte.x31))) awaiting_auth
     = Ret (true, awaiting_auth, [ELog LWarn "handle msg fail"]).
Proof.
  assert (Hbody : Unmarshal_wsAuthResponse (Body (auth_ack Byte.x31))
                  = inl {| Code := 1 |}) by reflexivity.
  assert (Hh : eventHandler awaiting_auth !! Operation (auth_ack Byte.x31)
               = Some HandleOpAuth) by reflexivity.
  split; [reflexivity |]. split; [exact Hh |]. split; [exact Hbody |].
  refine (proj1 (proj2 (eventLoop_auth_rejection_logged awaiting_auth
                          (auth_ack Byte.x31) {| Code := 1 |}
                          eq_refl Hh Hbody _))).
  cbn. lia.
Defined.

(** C2, as stated, fails: an AUTH_ACK with code 1 reaches the dispatch
    loop of a connection that awaits it, with a close callback
    registered; no teardown runs, the transport stays open and [onClose]
    is called zero times, not once. *)
Lemma auth_rejection_runs_no_teardown :
  state awaiting_auth = websocketClientStateAuth
  /\ onClose awaiting_auth = true
  /\ Unmarshal_wsAuthResponse (Body (auth_ack Byte.x31)) = inl {| Code := 1 |}
  /\ exists c' tr,
      eventLoop_turn (EventCh (Some (auth_ack Byte.x31))) awaiting_auth
      = Ret (true, c', tr)
      /\ close_notifications tr = []
      /\ conn c' = Some (Dialed "wss://example")
      /\ state c' = websocketClientStateAuth.
Proof.
  split; [reflexivity |]. split; [reflexivity |]. split; [reflexivity |].
  exists awaiting_auth, [ELog LWarn "handle msg fail"].
  repeat split.
Qed.

Lemma handleOpMsg_unrecognized_cmd_witness :
  Get_ToString (Body other_cmd_msg) "cmd" = "LIVE_OPEN_PLATFORM_GIFT"
  /\ handleOpMsg other_cmd_msg awaiting_auth
     = Ret (None, awaiting_auth, [ELog LWarn "unsupported cmd"]).
Proof.
  split; [reflexivity |].
  refine (proj1 (handleOpMsg_unrecognized_cmd awaiting_auth other_cmd_msg _)).
  vm_compute. discriminate.
Defined.


(* ------------------------------------------------------------------ *)
(** ** What every run of the connection respects                        *)
(* ------------------------------------------------------------------ *)

Lemma internalClose_run (err : option error) (c : liveWebsocketClient) :
  internalClose err c = Ret (tt, torn_down c, teardown_effects err c).
Proof.
  unfold internalClose, teardown_effects, torn_down, when.
  destruct c as [u a dm cl st cn sq tk lc eh].
  destruct lc, tk, cl; reflexivity.
Qed.

Lemma Close_open (closed : option error) (c : liveWebsocketClient) :
  conn c <> None ->
  Close closed c
  = Ret (closed, torn_down c, EConnClose :: teardown_effects None c).
Proof.
  intros Hconn. unfold Close. rewrite bind_field.
  destruct (conn c) as [cn |] eqn:Hc; [| congruence].
  rewrite bind_emit.
  rewrite (bind_run _ _ _ _ _ _ (internalClose_run None c)).
  rewrite ret_run. cbn [with_trace app]. now rewrite app_nil_r.
Qed.

Lemma Close_closed (closed : option error) (c : liveWebsocketClient) :
  conn c = None -> Close closed c = Ret (None, c, []).
Proof. intros Hconn. unfold Close. now rewrite bind_field, Hconn. Qed.

Lemma frames_app (t1 t2 : list effect) :
  frames (t1 ++ t2) = (frames t1 ++ frames t2)%list.
Proof.
  induction t1 as [| e t1 IH]; [reflexivity |].
  destruct e; cbn [frames app]; now rewrite IH.
Qed.



Section Stepwise.
Context `{Json}.
Variable R : liveWebsocketClient -> list effect -> liveWebsocketClient -> Prop.
Hypothesis R_refl : forall c, R c [] c.
Hypothesis R_trans :
  forall c c1 c2 t1 t2, R c t1 c1 -> R c1 t2 c2 -> R c (t1 ++ t2) c2.
Hypothesis R_emit : forall e c, is_frame e = false -> R c [e] c.
Hypothesis R_state : forall v c, R c [] (set_state v c).
Hypothesis R_createMsg : forall op body, respects R (createMsg op body).
Hypothesis R_internalClose : forall err, respects R (internalClose err).

Lemma respects_ret {A : Type} (a : A) : respects R (mret a).
Proof. intros c a' c' tr Hrun. inversion Hrun; subst. apply R_refl. Qed.

Lemma respects_bind {A B : Type} (m : Act A) (k : A -> Act B) :
  respects R m -> (forall a, respects R (k a)) -> respects R (m ≫= k).
Proof.
  intros Hm Hk c b c' tr Hrun. unfold mbind, Act_bind in Hrun.
  destruct (m c) as [[[a c1] t1]| |] eqn:Em; try discriminate.
  destruct (k a c1) as [[[b' c2] t2]| |] eqn:Ek; try discriminate.
  inversion Hrun; subst.
  eapply R_trans; [eapply Hm, Em | eapply Hk, Ek].
Qed.

Lemma respects_field {A : Type} (f : liveWebsocketClient -> A) :
  respects R (field f).
Proof. intros c a c' tr Hrun. inversion Hrun; subst. apply R_refl. Qed.

Lemma respects_emit (e : effect) : is_frame e = false -> respects R (emit e).
Proof.
  intros He c a c' tr Hrun. inversion Hrun; subst. now apply R_emit.
Qed.

Lemma respects_state (v : websocketClientState) :
  respects R (assign (set_state v)).
Proof. intros c a c' tr Hrun. inversion Hrun; subst. apply R_state. Qed.

Lemma respects_panic {A : Type} (e : runtime_error) :
  respects R (panic e : Act A).
Proof. intros c a c' tr Hrun. discriminate. Qed.

Lemma respects_when (b : bool) (m : Act unit) :
  respects R m -> respects R (when b m).
Proof. intros Hm. destruct b; [exact Hm | apply respects_ret]. Qed.

Lemma respects_blocked {A : Type} :
  respects R (fun _ => Deadlock : outcome (A * liveWebsocketClient * list effect)).
Proof. intros c a c' tr Hrun. discriminate. Qed.

Ltac respects_with known :=
  repeat first
    [ known | apply respects_ret | apply respects_field | apply respects_state
    | apply respects_panic | apply respects_blocked
    | apply R_createMsg | apply R_internalClose
    | apply respects_emit; reflexivity
    | apply respects_when
    | apply respects_bind; [| intro]
    | match goal with
      | |- respects _ (if ?b then _ else _) => destruct b
      | |- respects _ (match ?x with _ => _ end) => destruct x
      end ].

Ltac respects_tac := respects_with fail.

Lemma respects_writeMsg (msg : wsProtoMsg) (t : tx) :
  respects R (writeMsg msg t).
Proof.
  unfold writeMsg. respects_tac.
Qed.

Lemma respects_sendHeartbeat (t : tx) : respects R (sendHeartbeat t).
Proof. unfold sendHeartbeat. respects_tac. Qed.

Lemma respects_sendAuth (t : tx) : respects R (sendAuth t).
Proof. unfold sendAuth. respects_tac. Qed.

Lemma respects_call_handler (h : handler) (msg : wsProtoMsg) :
  respects R (call_handler h msg).
Proof.
  destruct h; cbn [call_handler];
    unfold handleOpAuth, handleOpHeartbeat, handleOpMsg; respects_tac.
Qed.

Lemma respects_eventLoop_turn (ev : loop_event) :
  respects R (eventLoop_turn ev).
Proof.
  destruct ev as [| t | [msg |]]; cbn [eventLoop_turn];
    respects_with
      ltac:(first [apply respects_sendHeartbeat | apply respects_call_handler]).
Qed.

Lemma respects_Close (closed : option error) : respects R (Close closed).
Proof. unfold Close. respects_tac. Qed.

Lemma respects_readLoop_recv (r : read_result) :
  respects R (readLoop_recv r).
Proof. unfold readLoop_recv. respects_tac. Qed.

Lemma respects_readLoop_turn (r : read_result) :
  respects R (readLoop_turn r).
Proof.
  unfold readLoop_turn. respects_with ltac:(apply respects_readLoop_recv).
Qed.

Lemma respects_readLoop_entry : respects R readLoop_entry.
Proof. unfold readLoop_entry. respects_tac. Qed.

Lemma respects_dispatch (ev : loop_event) : respects R (dispatch ev).
Proof.
  unfold dispatch, select_operands.
  respects_with ltac:(apply respects_eventLoop_turn).
Qed.

Lemma respects_reader_wakes (r : read_result) (g : routines) :
  respects R (reader_wakes r g).
Proof.
  unfold reader_wakes, not_running.
  respects_with
    ltac:(first [ apply respects_readLoop_recv | apply respects_dispatch
                | apply respects_readLoop_entry ]).
Qed.

Lemma respects_dispatcher_wakes (ev : loop_event) (g : routines) :
  respects R (dispatcher_wakes ev g).
Proof.
  unfold dispatcher_wakes.
  destruct (dispatcher g); [| apply respects_ret].
  apply respects_bind; [apply respects_field | intros live].
  destruct ev as [| t | msg]; [destruct live; [apply respects_ret |] | |];
    (apply respects_bind; [apply respects_dispatch | intros d]);
    apply respects_ret.
Qed.

Lemma respects_conn_step (ev : conn_event) (g : routines) :
  respects R (conn_step ev g).
Proof.
  destruct ev as [e | r | closed status woken]; cbn [conn_step].
  - apply respects_dispatcher_wakes.
  - apply respects_reader_wakes.
  - apply respects_bind; [apply respects_field | intros cn].
    apply respects_bind; [apply respects_Close | intros _].
    destruct cn; [apply respects_reader_wakes | apply respects_ret].
Qed.

Lemma respects_conn_steps (evs : list conn_event) (g : routines) :
  respects R (conn_steps evs g).
Proof.
  revert g. induction evs as [| ev evs IH]; intros g; cbn [conn_steps].
  - apply respects_ret.
  - apply respects_bind; [apply respects_conn_step | intros g'; apply IH].
Qed.

Lemma respects_conn_run (evs : list conn_event) : respects R (conn_run evs).
Proof.
  unfold conn_run.
  apply respects_bind; [apply respects_conn_steps | intros g].
  apply respects_ret.
Qed.

End Stepwise.

Lemma createMsg_run (op : wsProtoOp) (body : list byte)
    (c : liveWebsocketClient) :
  let msg := {| Version := 0; Operation := op; SequenceID := seqID c;
                Body := body |} in
  createMsg op body c
  = Ret (msg, set_seqID (int32 (seqID c + 1)) c, [EFrame msg]).
Proof. reflexivity. Qed.

Lemma teardown_effects_frames (err : option error) (c : liveWebsocketClient) :
  frames (teardown_effects err c) = [].
Proof.
  unfold teardown_effects.
  destruct (loopCancel c), (heartbeatTicker c), (onClose c); reflexivity.
Qed.

Section Invariants.
Context `{Json}.


(** What every method and every step keeps: the transport unless it
    clears it, the close callback, and the wiring. *)
Lemma keeps_transport_refl (c : liveWebsocketClient) : keeps_transport c [] c.
Proof. unfold keeps_transport. auto. Qed.

Lemma keeps_transport_trans (c c1 c2 : liveWebsocketClient)
    (t1 t2 : list effect) :
  keeps_transport c t1 c1 -> keeps_transport c1 t2 c2 ->
  keeps_transport c (t1 ++ t2) c2.
Proof.
  intros (Hc1 & Ho1 & Hw1) (Hc2 & Ho2 & Hw2).
  split; [| split; [congruence | auto]].
  destruct Hc2 as [Hc2 | Hc2]; [rewrite Hc2; exact Hc1 | now right].
Qed.

Lemma keeps_transport_createMsg (op : wsProtoOp) (body : list byte) :
  respects keeps_transport (createMsg op body).
Proof.
  intros c a c' tr Hrun. rewrite createMsg_run in Hrun.
  inversion Hrun; subst. unfold keeps_transport, wired. cbn. auto.
Qed.

Lemma keeps_transport_internalClose (err : option error) :
  respects keeps_transport (internalClose err).
Proof.
  intros c a c' tr Hrun. rewrite internalClose_run in Hrun.
  inversion Hrun; subst. unfold keeps_transport, wired. cbn.
  split; [now right |]. split; [reflexivity | congruence].
Qed.

Lemma conn_step_keeps_transport (ev : conn_event) (g : routines) :
  respects keeps_transport (conn_step ev g).
Proof.
  apply respects_conn_step;
    [ apply keeps_transport_refl | apply keeps_transport_trans
    | intros e c _; apply keeps_transport_refl
    | intros v c; unfold keeps_transport, wired; cbn; auto
    | apply keeps_transport_createMsg | apply keeps_transport_internalClose ].
Qed.

Lemma conn_steps_keeps_transport (evs : list conn_event) (g : routines) :
  respects keeps_transport (conn_steps evs g).
Proof.
  apply respects_conn_steps;
    [ apply keeps_transport_refl | apply keeps_transport_trans
    | intros e c _; apply keeps_transport_refl
    | intros v c; unfold keeps_transport, wired; cbn; auto
    | apply keeps_transport_createMsg | apply keeps_transport_internalClose ].
Qed.

(** Running the events of a list, then those of another. *)
Lemma conn_steps_app (e1 e2 : list conn_event) (g g1 : routines)
    (c c1 : liveWebsocketClient) (t1 : list effect) :
  conn_steps e1 g c = Ret (g1, c1, t1) ->
  conn_steps (e1 ++ e2) g c = with_trace t1 (conn_steps e2 g1 c1).
Proof.
  revert g c t1. induction e1 as [| ev e1 IH]; intros g c t1 Hrun.
  - cbn in Hrun. inversion Hrun; subst. cbn [app]. now rewrite with_trace_nil.
  - cbn [conn_steps] in Hrun.
    apply bind_inv in Hrun as (g' & c' & ta & tb & Hstep & Hrest & ->).
    cbn [app conn_steps]. rewrite (bind_run _ _ _ _ _ _ Hstep).
    rewrite (IH _ _ _ Hrest). apply with_trace_app.
Qed.

End Invariants.

Lemma writeMsg_run (msg : wsProtoMsg) (t : tx) (c : liveWebsocketClient) :
  conn c <> None ->
  exists r tr, writeMsg msg t c = Ret (r, c, tr) /\ frames tr = [].
Proof.
  intros Hconn. unfold writeMsg. rewrite bind_field.
  destruct (conn c) as [cn |]; [| congruence].
  destruct t as [err | n].
  - act_step. do 2 eexists. split; reflexivity.
  - destruct (writeWsProtoMsg _ _) as [w [err |]]; act_step;
      do 2 eexists; split; reflexivity.
Qed.

Lemma sendAuth_run (t : tx) (c : liveWebsocketClient) :
  state c = websocketClientStateAuth ->
  conn c <> None ->
  exists r tr,
    sendAuth t c = Ret (r, set_seqID (int32 (seqID c + 1)) c, tr)
    /\ frames tr
       = [ {| Version := 0; Operation := wsProtoOpAuth;
              SequenceID := seqID c;
              Body := list_byte_of_string (authBody c) |} ].
Proof.
  intros Hst Hconn. unfold sendAuth.
  rewrite bind_field, Hst. cbn [state_eqb state_code Z.eqb Pos.eqb negb].
  rewrite bind_field.
  rewrite (bind_run _ _ _ _ _ _ (createMsg_run _ _ _)).
  destruct (writeMsg_run
              {| Version := 0; Operation := wsProtoOpAuth;
                 SequenceID := seqID c;
                 Body := list_byte_of_string (authBody c) |}
              t (set_seqID (int32 (seqID c + 1)) c) Hconn)
    as (r & tr & Hrun & Hfr).
  rewrite Hrun. cbn [with_trace app]. do 2 eexists. split; [reflexivity |].
  cbn [frames]. now rewrite Hfr.
Qed.

Lemma sendHeartbeat_run (t : tx) (c : liveWebsocketClient) :
  state c = websocketClientStateActive ->
  conn c <> None ->
  exists r tr,
    sendHeartbeat t c = Ret (r, set_seqID (int32 (seqID c + 1)) c, tr)
    /\ frames tr
       = [ {| Version := 0; Operation := wsProtoOpHeartbeat;
              SequenceID := seqID c; Body := [] |} ].
Proof.
  intros Hst Hconn. unfold sendHeartbeat.
  rewrite bind_field, Hst. cbn [state_eqb state_code Z.eqb Pos.eqb negb].
  rewrite (bind_run _ _ _ _ _ _ (createMsg_run _ _ _)).
  destruct (writeMsg_run
              {| Version := 0; Operation := wsProtoOpHeartbeat;
                 SequenceID := seqID c; Body := [] |}
              t (set_seqID (int32 (seqID c + 1)) c) Hconn)
    as (r & tr & Hrun & Hfr).
  rewrite Hrun. cbn [with_trace app]. do 2 eexists. split; [reflexivity |].
  cbn [frames]. now rewrite Hfr.
Qed.

(** [connect] on an idle client whose dial succeeds: the client it
    leaves, and the one frame it builds. *)
Lemma connect_dialed (cn : Conn) (t : tx) (c : liveWebsocketClient) :
  state c = websocketClientStateIdle ->
  exists r tr,
    connect (DialOk cn) t c = Ret (r, connected cn c, tr)
    /\ frames tr
       = [ {| Version := 0; Operation := wsProtoOpAuth; SequenceID := 0;
              Body := list_byte_of_string (authBody c) |} ].
Proof.
  intros Hst. unfold connect.
  rewrite bind_field, Hst. cbn [state_eqb state_code Z.eqb negb].
  act_step.
  match goal with
  | |- context [(sendAuth t ≫= _) ?c1] =>
      destruct (sendAuth_run t c1 eq_refl ltac:(discriminate))
        as (r & tr & Hrun & Hfr);
      rewrite (bind_run _ _ _ _ _ _ Hrun)
  end.
  destruct r as [err |]; act_step; do 2 eexists; (split; [reflexivity |]);
    cbn [frames app]; rewrite frames_app, Hfr; reflexivity.
Qed.


Lemma int32_is_int32 (x : Z) : is_int32 (int32 x).
Proof.
  unfold is_int32, int32.
  pose proof (Z.mod_pos_bound (x + 2 ^ 31) (2 ^ 32)). lia.
Qed.



Section ConnectionProperties.
Context `{Json}.

(** A turn of the dispatch loop ends the loop only on cancellation. *)
Lemma eventLoop_turn_continues (ev : loop_event) (c c' : liveWebsocketClient)
    (b : bool) (tr : list effect) :
  eventLoop_turn ev c = Ret (b, c', tr) -> ev <> LoopCtxDone -> b = true.
Proof.
  intros Hrun Hev.
  destruct ev as [| t | [msg |]]; cbn [eventLoop_turn] in Hrun;
    [congruence | | |].
  - apply bind_inv in Hrun as (r & c1 & t1 & t2 & _ & Hk & _).
    apply bind_inv in Hk as (u & c2 & t3 & t4 & _ & Hret & _).
    now inversion Hret.
  - apply bind_inv in Hrun as (hs & c1 & t1 & t2 & _ & Hk & _).
    destruct (hs !! Operation msg) as [h |].
    + apply bind_inv in Hk as (r & c2 & t3 & t4 & _ & Hk & _).
      apply bind_inv in Hk as (u & c3 & t5 & t6 & _ & Hret & _).
      now inversion Hret.
    + apply bind_inv in Hk as (u & c2 & t3 & t4 & _ & Hret & _).
      now inversion Hret.
  - now inversion Hrun.
Qed.

(** Coming round to [select]: with a ticker the loop parks, without one
    it panics. *)
Lemma dispatch_parks (ev : loop_event) (c c' : liveWebsocketClient)
    (tr : list effect) :
  eventLoop_turn ev c = Ret (true, c', tr) ->
  heartbeatTicker c' = true ->
  dispatch ev c = Ret (true, c', tr).
Proof.
  intros Hturn Htk. unfold dispatch, select_operands.
  rewrite (bind_run _ _ _ _ _ _ Hturn). cbv iota.
  rewrite (bind_run _ _ c' c' tt []) by (now rewrite bind_field, Htk).
  rewrite ret_run. cbn [with_trace app]. now rewrite app_nil_r.
Qed.

Lemma dispatch_panics (ev : loop_event) (c c' : liveWebsocketClient)
    (tr : list effect) :
  eventLoop_turn ev c = Ret (true, c', tr) ->
  heartbeatTicker c' = false ->
  dispatch ev c = Panic NilPointerDereference.
Proof.
  intros Hturn Htk. unfold dispatch, select_operands.
  rewrite (bind_run _ _ _ _ _ _ Hturn). cbv iota.
  unfold mbind at 1, Act_bind at 1. now rewrite bind_field, Htk.
Qed.

Lemma dispatch_inv (ev : loop_event) (c c' : liveWebsocketClient)
    (d : bool) (tr : list effect) :
  dispatch ev c = Ret (d, c', tr) ->
  eventLoop_turn ev c = Ret (d, c', tr)
  /\ (d = true -> heartbeatTicker c' = true).
Proof.
  unfold dispatch, select_operands. intros Hrun.
  apply bind_inv in Hrun as (b & c1 & t1 & t2 & Hturn & Hk & ->).
  destruct b.
  - apply bind_inv in Hk as (u & c2 & t3 & t4 & Hsel & Hret & ->).
    rewrite bind_field in Hsel.
    destruct (heartbeatTicker c1) eqn:Htk; [| discriminate].
    inversion Hsel; subst. inversion Hret; subst.
    cbn [app]. rewrite app_nil_r. auto.
  - inversion Hk; subst. rewrite app_nil_r. split; [exact Hturn | discriminate].
Qed.

Lemma readLoop_entry_inv (c c' : liveWebsocketClient) (rd : bool)
    (tr : list effect) :
  readLoop_entry c = Ret (rd, c', tr) ->
  c' = c /\ (conn c <> None -> rd = true) /\ (conn c = None -> rd = false).
Proof.
  unfold readLoop_entry. rewrite bind_field.
  destruct (conn c) as [cn |]; intros Hrun; inversion Hrun; subst;
    repeat split; congruence.
Qed.

Lemma readLoop_recv_returns (r : read_result) (c c' : liveWebsocketClient)
    (msg : option wsProtoMsg) (tr : list effect) :
  readLoop_recv r c = Ret ((msg, false), c', tr) -> conn c' = None.
Proof.
  unfold readLoop_recv. intros Hrun.
  destruct r as [buf | err | err].
  - destruct (parseWsProtoMsg buf) as [[p [e |]]| |]; try discriminate;
      rewrite bind_emit in Hrun; cbn in Hrun; discriminate.
  - rewrite bind_emit in Hrun.
    rewrite (bind_run _ _ _ _ _ _ (internalClose_run (Some err) c)) in Hrun.
    cbn in Hrun. now inversion Hrun.
  - rewrite bind_emit in Hrun. cbn in Hrun. discriminate.
Qed.

Lemma reader_wakes_keeps_transport (r : read_result) (g : routines) :
  respects keeps_transport (reader_wakes r g).
Proof.
  apply respects_reader_wakes;
    [ apply keeps_transport_refl | apply keeps_transport_trans
    | intros e c _; apply keeps_transport_refl
    | intros v c; unfold keeps_transport, wired; cbn; auto
    | apply keeps_transport_createMsg | apply keeps_transport_internalClose ].
Qed.

(** As long as the transport is open both loops are parked. *)
Lemma conn_step_parked (ev : conn_event) (g g' : routines)
    (c c' : liveWebsocketClient) (tr : list effect) :
  wired c -> loops_parked g c ->
  conn_step ev g c = Ret (g', c', tr) -> loops_parked g' c'.
Proof.
  intros Hw Hp Hrun Hopen'.
  destruct (conn_step_keeps_transport ev g _ _ _ _ Hrun)
    as ([Hsame | Hnone] & _ & _); [| congruence].
  assert (Hopen : conn c <> None) by congruence.
  destruct (Hp Hopen) as [Hrd Hdp]. destruct (Hw Hopen) as [Hlc Htk].
  destruct ev as [e | r | closed status woken]; cbn [conn_step] in Hrun.
  - unfold dispatcher_wakes in Hrun. rewrite Hdp, bind_field, Hlc in Hrun.
    destruct e as [| t | msg]; [inversion Hrun; subst; auto | |];
      apply bind_inv in Hrun as (d & c1 & t1 & t2 & Hd & Hret & ->);
      inversion Hret; subst; cbn [reader dispatcher];
      (split; [exact Hrd |]);
      apply dispatch_inv in Hd as [Hturn _];
      (eapply eventLoop_turn_continues; [exact Hturn | discriminate]).
  - unfold reader_wakes in Hrun. rewrite Hrd in Hrun.
    apply bind_inv in Hrun as ([msg continue] & c1 & t1 & t2 & Hrecv & Hk & ->).
    destruct msg as [m |].
    + rewrite Hdp in Hk.
      apply bind_inv in Hk as (d & c2 & t3 & t4 & Hd & Hk & ->).
      apply bind_inv in Hk as (rd & c3 & t5 & t6 & Hentry & Hret & ->).
      inversion Hret; subst. cbn [reader dispatcher].
      apply readLoop_entry_inv in Hentry as (-> & Hyes & _).
      split; [now apply Hyes |].
      apply dispatch_inv in Hd as [Hturn _].
      eapply eventLoop_turn_continues; [exact Hturn | discriminate].
    + apply bind_inv in Hk as (rd & c2 & t3 & t4 & Hentry & Hret & ->).
      inversion Hret; subst. cbn [reader dispatcher].
      split; [| exact Hdp]. destruct continue.
      * apply readLoop_entry_inv in Hentry as (-> & Hyes & _).
        now apply Hyes.
      * inversion Hentry; subst.
        apply readLoop_recv_returns in Hrecv. congruence.
  - rewrite bind_field in Hrun.
    pose proof (Close_open closed c Hopen) as Hclose.
    destruct (conn c) as [cn |] eqn:Hc; [| congruence].
    rewrite (bind_run _ _ _ _ _ _ Hclose) in Hrun.
    destruct (reader_wakes _ g (torn_down c)) as [[[g1 c1] t1]| |] eqn:Hrw;
      try discriminate.
    cbn [with_trace] in Hrun. inversion Hrun; subst.
    destruct (reader_wakes_keeps_transport _ _ _ _ _ _ Hrw)
      as ([Hk | Hk] & _ & _); cbn [conn torn_down] in Hk; congruence.
Qed.

Lemma conn_steps_parked (evs : list conn_event) (g g' : routines)
    (c c' : liveWebsocketClient) (tr : list effect) :
  wired c -> loops_parked g c ->
  conn_steps evs g c = Ret (g', c', tr) -> loops_parked g' c'.
Proof.
  revert g c tr. induction evs as [| ev evs IH]; intros g c tr Hw Hp Hrun.
  - cbn in Hrun. now inversion Hrun; subst.
  - cbn [conn_steps] in Hrun.
    apply bind_inv in Hrun as (g1 & c1 & t1 & t2 & Hstep & Hrest & ->).
    eapply IH; [| | exact Hrest].
    + now apply (conn_step_keeps_transport ev g _ _ _ _ Hstep).
    + eapply conn_step_parked; eassumption.
Qed.

(** A life that starts with a dial that succeeds on an idle client is
    [connect], which leaves the connection wired with both loops parked,
    and then the events. *)
Lemma lifetime_dialed (c0 : liveWebsocketClient) (cn : Conn) (t : tx)
    (evs : list conn_event) (c : liveWebsocketClient) (tr : list effect) :
  state c0 = websocketClientStateIdle ->
  lifetime (DialOk cn) t evs c0 = Ret (tt, c, tr) ->
  exists r tr1 g tr2,
    connect (DialOk cn) t c0 = Ret (r, connected cn c0, tr1)
    /\ frames tr1
        = [ {| Version := 0; Operation := wsProtoOpAuth; SequenceID := 0;
               Body := list_byte_of_string (authBody c0) |} ]
    /\ conn_steps evs parked (connected cn c0) = Ret (g, c, tr2)
    /\ tr = (tr1 ++ tr2)%list.
Proof.
  intros Hst Hrun. unfold lifetime in Hrun.
  rewrite bind_field, Hst in Hrun. cbn [state_eqb state_code Z.eqb] in Hrun.
  destruct (connect_dialed cn t c0 Hst) as (r & tr1 & Hconn & Hfr).
  apply bind_inv in Hrun as (r' & c1 & t1 & t2 & Hc & Hk & ->).
  rewrite Hconn in Hc. inversion Hc; subst.
  apply bind_inv in Hk as (g & c2 & t3 & t4 & Hsteps & Hret & ->).
  inversion Hret; subst. exists r', t1, g, t3.
  rewrite app_nil_r. auto.
Qed.

Lemma lifetime_steps (c0 c1 c : liveWebsocketClient) (cn : Conn) (t : tx)
    (evs : list conn_event) (r : option error) (g : routines)
    (tr1 tr2 : list effect) :
  state c0 = websocketClientStateIdle ->
  connect (DialOk cn) t c0 = Ret (r, c1, tr1) ->
  conn_steps evs parked c1 = Ret (g, c, tr2) ->
  lifetime (DialOk cn) t evs c0 = Ret (tt, c, (tr1 ++ tr2)%list).
Proof.
  intros Hst Hconn Hsteps. unfold lifetime.
  rewrite bind_field, Hst. cbn [state_eqb state_code Z.eqb].
  rewrite (bind_run _ _ _ _ _ _ Hconn).
  rewrite (bind_run _ _ _ _ _ _ Hsteps).
  cbn [with_trace mret Act_ret app]. now rewrite app_nil_r.
Qed.


(** After [connect] the connection keeps its close callback and its
    wiring, and its loops stay parked while the transport is open. *)
Lemma lifetime_wired (c0 : liveWebsocketClient) (cn : Conn) (t : tx)
    (evs : list conn_event) (c : liveWebsocketClient) (tr : list effect) :
  state c0 = websocketClientStateIdle ->
  lifetime (DialOk cn) t evs c0 = Ret (tt, c, tr) ->
  onClose c = onClose c0 /\ wired c.
Proof.
  intros Hst Hrun.
  destruct (lifetime_dialed c0 cn t evs c tr Hst Hrun)
    as (r & tr1 & g & tr2 & _ & _ & Hsteps & ->).
  destruct (conn_steps_keeps_transport evs _ _ _ _ _ Hsteps)
    as (_ & Hcl & Hw).
  split; [exact Hcl |].
  apply Hw. intros _. split; reflexivity.
Qed.


(** C5.  One [Close] notifies the owner twice.  On a connection whose
    transport is open, reached from [connect] with a close callback
    registered, when the pending [conn.Read] ends with a close status,
    as it does when the peer answers the closing handshake: [Close]
    closes the transport and its deferred [internalClose(nil)] cancels
    the loops, stops the ticker and calls [onClose] with a nil reason;
    the read loop runs [internalClose] with the error it got and calls
    [onClose] again.  The state is left Idle, and a second [Close] is a
    no-op that calls nothing. *)
Theorem Close_notifies_owner_twice (c0 : liveWebsocketClient) (cn : Conn)
    (t : tx) (evs : list conn_event) (c : liveWebsocketClient)
    (tr : list effect) (closed closed2 : option error) (woken woken2 : error)
    (status2 : bool) :
  state c0 = websocketClientStateIdle ->
  onClose c0 = true ->
  lifetime (DialOk cn) t evs c0 = Ret (tt, c, tr) ->
  conn c <> None ->
  let closing :=
    [EConnClose; ELoopCancel; ETickerStop; EOnClose None;
     ELog LInfo "connection receive close message";
     EOnClose (Some woken)] in
  lifetime (DialOk cn) t (evs ++ [CallClose closed true woken]) c0
  = Ret (tt, torn_down c, (tr ++ closing)%list)
  /\ close_notifications closing = [None; Some woken]
  /\ state (torn_down c) = websocketClientStateIdle
  /\ lifetime (DialOk cn) t
        (evs ++ [CallClose closed true woken;
                 CallClose closed2 status2 woken2]) c0
     = Ret (tt, torn_down c, (tr ++ closing)%list).
Proof.
  intros Hst Hcb Hrun Hopen closing.
  destruct (lifetime_dialed c0 cn t evs c tr Hst Hrun)
    as (r & tr1 & g & tr2 & Hconn & _ & Hsteps & ->).
  assert (Hw0 : wired (connected cn c0)) by (intros _; split; reflexivity).
  assert (Hp0 : loops_parked parked (connected cn c0))
    by (intros _; split; reflexivity).
  destruct (conn_steps_keeps_transport evs _ _ _ _ _ Hsteps)
    as (_ & Hcl & Hw).
  cbn [onClose connected] in Hcl. rewrite Hcb in Hcl.
  destruct (Hw Hw0 Hopen) as [Hlc Htk].
  destruct (conn_steps_parked evs _ _ _ _ _ Hw0 Hp0 Hsteps Hopen)
    as [Hrd Hdp].
  assert (Htwice : torn_down (torn_down c) = torn_down c) by reflexivity.
  assert (Hclose : conn_step (CallClose closed true woken) g c
                   = Ret ({| reader := false; dispatcher := dispatcher g |},
                          torn_down c, closing)).
  { cbn [conn_step]. rewrite bind_field.
    pose proof (Close_open closed c Hopen) as Hfirst.
    destruct (conn c) as [cn' |] eqn:Hc; [| congruence].
    rewrite (bind_run _ _ _ _ _ _ Hfirst).
    unfold reader_wakes. rewrite Hrd.
    assert (Hrecv : readLoop_recv (ReadClosed woken) (torn_down c)
                    = Ret ((None, false), torn_down c,
                           [ELog LInfo "connection receive close message";
                            EOnClose (Some woken)])).
    { unfold readLoop_recv. rewrite bind_emit.
      rewrite (bind_run _ _ _ _ _ _
                 (internalClose_run (Some woken) (torn_down c))).
      rewrite ret_run, Htwice. unfold teardown_effects.
      cbn [loopCancel heartbeatTicker onClose torn_down with_trace app].
      now rewrite Hcl. }
    rewrite (bind_run _ _ _ _ _ _ Hrecv). cbv iota beta.
    rewrite bind_ret, ret_run. cbn [with_trace].
    unfold teardown_effects. rewrite Hlc, Htk, Hcl. reflexivity. }
  assert (Hagain : conn_step (CallClose closed2 status2 woken2)
                     {| reader := false; dispatcher := dispatcher g |}
                     (torn_down c)
                   = Ret ({| reader := false; dispatcher := dispatcher g |},
                          torn_down c, [])).
  { cbn [conn_step]. rewrite bind_field. cbn [conn torn_down].
    rewrite (bind_run _ _ _ _ _ _
               (Close_closed closed2 (torn_down c) eq_refl)).
    reflexivity. }
  split; [| split; [reflexivity | split; [reflexivity |]]].
  - rewrite <- app_assoc.
    apply (lifetime_steps c0 _ _ cn t _ r
             {| reader := false; dispatcher := dispatcher g |} _ _ Hst Hconn).
    rewrite (conn_steps_app _ _ _ _ _ _ _ Hsteps). cbn [conn_steps].
    rewrite (bind_run _ _ _ _ _ _ Hclose). cbn [with_trace mret Act_ret].
    now rewrite app_nil_r.
  - rewrite <- app_assoc.
    apply (lifetime_steps c0 _ _ cn t _ r
             {| reader := false; dispatcher := dispatcher g |} _ _ Hst Hconn).
    rewrite (conn_steps_app _ _ _ _ _ _ _ Hsteps). cbn [conn_steps].
    rewrite (bind_run _ _ _ _ _ _ Hclose).
    rewrite (bind_run _ _ _ _ _ _ Hagain). cbn [with_trace mret Act_ret].
    now rewrite !app_nil_r.
Qed.

End ConnectionProperties.



Lemma Close_notifies_owner_twice_witness :
  exists c tr,
    lifetime (DialOk (Dialed "wss://example")) (TxWriter 6) short_life
      fresh_ws = Ret (tt, c, tr)
    /\ conn c <> None
    /\ close_notifications tr = []
    /\ exists c1 tr1,
        lifetime (DialOk (Dialed "wss://example")) (TxWriter 6)
          (short_life ++ [CallClose None true (External "status 1000")])
          fresh_ws
        = Ret (tt, c1, (tr ++ tr1)%list)
        /\ close_notifications tr1 = [None; Some (External "status 1000")].
Proof.
  eexists _, _.
  assert (Hrun : lifetime (DialOk (Dialed "wss://example")) (TxWriter 6)
                   short_life fresh_ws
                 = Ret (tt,
                        set_seqID 3 (set_state websocketClientStateActive
                          (connected (Dialed "wss://example") fresh_ws)),
                        _)) by (vm_compute; reflexivity).
  assert (Hopen : conn (set_seqID 3 (set_state websocketClientStateActive
                          (connected (Dialed "wss://example") fresh_ws)))
                  <> None) by discriminate.
  split; [exact Hrun |]. split; [exact Hopen |]. split; [reflexivity |].
  destruct (Close_notifies_owner_twice fresh_ws (Dialed "wss://example")
              (TxWriter 6) short_life _ _ None None
              (External "status 1000") (External "x") false
              eq_refl eq_refl Hrun Hopen)
    as (Hfirst & Hnotes & _ & _).
  eexists _, _. split; [exact Hfirst | exact Hnotes].
Defined.



(* ------------------------------------------------------------------ *)
(** ** The client facade                                                *)
(* ------------------------------------------------------------------ *)

(** C10.  [Connect] on an idle client whose bootstrap call succeeds with
    an empty endpoint list never returns an error: it reaches
    [c.wsInfo.WSSLink[0]] unchecked.  With no connection still open
    under the facade, as on every idle client, it panics with an index
    out of range. *)
Theorem Connect_empty_endpoints_panics (c : LiveClient) (code : string)
    (rsp : CommonResponse appStartData) (closed : option error)
    (d : dial_result) (t : tx) :
  mu c = false ->
  clientState_ c = clientStateIdle ->
  rsp_Code rsp = 0 ->
  WSSLink (WebsocketInfo (rsp_Data rsp)) = [] ->
  (forall r, Connect code (ApiRsp rsp) closed d t c <> Ret r)
  /\ ((forall ws, wsClient c = Some ws -> conn ws = None) ->
      Connect code (ApiRsp rsp) closed d t c = Panic IndexOutOfRange).
Proof.
  intros Hmu Hst Hcode Hlinks.
  unfold Connect. rewrite Hmu.
  cbn [clientState_ set_mu]. rewrite Hst.
  unfold callAppStart, CommonResponse_Err. rewrite Hcode.
  cbn [Z.eqb negb].
  unfold connectWs.
  cbn [wsClient wsInfo set_clientState set_start set_liveCode set_mu].
  destruct (wsClient c) as [ws |] eqn:Hws.
  - destruct (conn ws) as [cn |] eqn:Hconn.
    + split.
      * rewrite (Close_open closed ws) by congruence.
        cbn [mbind outcome_bind].
        destruct (notifies_owner _); cbn [mbind outcome_bind];
          [intros r; discriminate |].
        cbn [wsInfo set_wsClient set_clientState set_start].
        rewrite Hlinks. intros r; discriminate.
      * intros Hnone. specialize (Hnone ws eq_refl). congruence.
    + rewrite (Close_closed closed ws Hconn).
      cbn [mbind outcome_bind notifies_owner close_notifications].
      cbn [wsInfo set_wsClient set_clientState set_start].
      rewrite Hlinks.
      split; [intros r; discriminate | reflexivity].
  - cbn [mbind outcome_bind].
    cbn [wsInfo set_wsClient set_clientState set_start].
    rewrite Hlinks.
    split; [intros r; discriminate | reflexivity].
Qed.

Lemma Connect_empty_endpoints_panics_witness :
  mu (new_LiveClient "key" "secret" 1 true true) = false
  /\ clientState_ (new_LiveClient "key" "secret" 1 true true) = clientStateIdle
  /\ rsp_Code start_without_endpoint = 0
  /\ WSSLink (WebsocketInfo (rsp_Data start_without_endpoint)) = []
  /\ Connect "code" (ApiRsp start_without_endpoint) None
       (DialOk (Dialed "wss://example")) (TxWriter 6)
       (new_LiveClient "key" "secret" 1 true true)
     = Panic IndexOutOfRange.
Proof.
  repeat (split; [reflexivity |]).
  refine (proj2 (Connect_empty_endpoints_panics
                   (new_LiveClient "key" "secret" 1 true true) "code"
                   start_without_endpoint None
                   (DialOk (Dialed "wss://example")) (TxWriter 6)
                   eq_refl eq_refl eq_refl eq_refl) _).
  intros ws Hws. discriminate Hws.
Defined.

(* ------------------------------------------------------------------ *)
(** ** The request signature                                            *)
(* ------------------------------------------------------------------ *)

Lemma string_app_assoc (a b c : string) :
  ((a ++ b) ++ c = a ++ (b ++ c))%string.
Proof.
  induction a as [| x a IH]; [reflexivity |].
  change (String x ((a ++ b) ++ c) = String x (a ++ (b ++ c)))%string.
  now f_equal.
Qed.

Lemma list_byte_of_string_app (a b : string) :
  list_byte_of_string (a ++ b)
  = (list_byte_of_string a ++ list_byte_of_string b)%list.
Proof.
  induction a as [| x a IH]; [reflexivity |].
  change (list_byte_of_string (String x a ++ b))
    with (byte_of_ascii x :: list_byte_of_string (a ++ b)).
  now rewrite IH.
Qed.

Lemma removelast_newline (s : string) :
  removelast (list_byte_of_string (s ++ newline)) = list_byte_of_string s.
Proof.
  rewrite list_byte_of_string_app.
  change (list_byte_of_string newline) with [byte_of_ascii "010"].
  apply removelast_last.
Qed.

Lemma lowercase_names : map ToLower signatureSourceHeaders = signed_header_names.
Proof. reflexivity. Qed.

(** A header is found under the lower-case name as under the name the
    package writes. *)
Lemma canonical_names :
  map CanonicalMIMEHeaderKey signatureSourceHeaders
  = map CanonicalMIMEHeaderKey signed_header_names.
Proof. reflexivity. Qed.

Lemma Header_Get_canonical (h : gmap string (list string)) (a b : string) :
  CanonicalMIMEHeaderKey a = CanonicalMIMEHeaderKey b ->
  Header_Get h a = Header_Get h b.
Proof. unfold Header_Get. now intros ->. Qed.

Lemma Header_Get_Set_eq (h : gmap string (list string)) (k v : string) :
  Header_Get (Header_Set h k v) k = v.
Proof. unfold Header_Get, Header_Set. now rewrite lookup_insert_eq. Qed.

Lemma Header_Get_Set_ne (h : gmap string (list string)) (k k' v : string) :
  CanonicalMIMEHeaderKey k <> CanonicalMIMEHeaderKey k' ->
  Header_Get (Header_Set h k v) k' = Header_Get h k'.
Proof.
  intros Hne. unfold Header_Get, Header_Set.
  now rewrite lookup_insert_ne.
Qed.

Lemma signing_string_Authorization (h : gmap string (list string))
    (v : string) :
  signing_string (Header_Set h "Authorization" v) = signing_string h.
Proof.
  unfold signing_string, signed_header_names. cbn [map].
  rewrite !Header_Get_Set_ne by (vm_compute; discriminate).
  reflexivity.
Qed.

Section SignatureProperties.
Context `{Crypto}.

Lemma GenerateSignature_signing_string (appSecret : string)
    (h : gmap string (list string)) :
  GenerateSignature appSecret h
  = hex_EncodeToString
      (hmac_sha256 (list_byte_of_string appSecret)
                   (list_byte_of_string (signing_string h))).
Proof.
  unfold GenerateSignature. do 2 f_equal.
  rewrite <- (removelast_newline (signing_string h)). do 2 f_equal.
  unfold signing_string, signed_header_names, signatureSourceHeaders.
  cbn [map fold_left String.concat].
  rewrite (Header_Get_canonical h "x-bili-accesskeyid" HeaderBiliAccessKeyId),
    (Header_Get_canonical h "x-bili-content-md5" HeaderBiliContentMD5),
    (Header_Get_canonical h "x-bili-signature-method" HeaderBiliSignatureMethod),
    (Header_Get_canonical h "x-bili-signature-nonce" HeaderBiliSignatureNonce),
    (Header_Get_canonical h "x-bili-signature-version"
       HeaderBiliSignatureVersion),
    (Header_Get_canonical h "x-bili-timestamp" HeaderBiliTimestamp)
    by reflexivity.
  change (ToLower HeaderBiliAccessKeyId) with "x-bili-accesskeyid"%string.
  change (ToLower HeaderBiliContentMD5) with "x-bili-content-md5"%string.
  change (ToLower HeaderBiliSignatureMethod)
    with "x-bili-signature-method"%string.
  change (ToLower HeaderBiliSignatureNonce)
    with "x-bili-signature-nonce"%string.
  change (ToLower HeaderBiliSignatureVersion)
    with "x-bili-signature-version"%string.
  change (ToLower HeaderBiliTimestamp) with "x-bili-timestamp"%string.
  generalize (Header_Get h HeaderBiliAccessKeyId) as v1.
  generalize (Header_Get h HeaderBiliContentMD5) as v2.
  generalize (Header_Get h HeaderBiliSignatureMethod) as v3.
  generalize (Header_Get h HeaderBiliSignatureNonce) as v4.
  generalize (Header_Get h HeaderBiliSignatureVersion) as v5.
  generalize (Header_Get h HeaderBiliTimestamp) as v6.
  intros v6 v5 v4 v3 v2 v1.
  rewrite !string_app_assoc. reflexivity.
Qed.

(** C7.  [GenerateSignature] is the hex encoding of the HMAC-SHA256,
    keyed by the app secret, of the six lines [name:value], names in
    lower case and in alphabetical order, joined by newlines with none
    after the last; and every request [RoundTrip] hands to the
    transport carries that value, computed over its own headers, as
    [Authorization]. *)
Theorem Authorization_is_signature :
  (forall appSecret h,
      GenerateSignature appSecret h
      = hex_EncodeToString
          (hmac_sha256 (list_byte_of_string appSecret)
                       (list_byte_of_string (signing_string h))))
  /\ (forall h,
      signing_string h
      = String.concat newline
          [ "x-bili-accesskeyid:" ++ Header_Get h "X-Bili-AccessKeyId";
            "x-bili-content-md5:" ++ Header_Get h "X-Bili-Content-MD5";
            "x-bili-signature-method:" ++ Header_Get h "X-Bili-Signature-Method";
            "x-bili-signature-nonce:" ++ Header_Get h "X-Bili-Signature-Nonce";
            "x-bili-signature-version:"
              ++ Header_Get h "X-Bili-Signature-Version";
            "x-bili-timestamp:" ++ Header_Get h "X-Bili-Timestamp" ]%string)
  /\ StronglySorted (fun a b => String.ltb a b = true) signed_header_names
  /\ (forall t ts rnd r r',
      RoundTrip t ts rnd r = Ret (inr r') ->
      Header_Get (Header r') "Authorization"
      = hex_EncodeToString
          (hmac_sha256 (list_byte_of_string (t_AppSecret t))
                       (list_byte_of_string (signing_string (Header r'))))).
Proof.
  split; [exact GenerateSignature_signing_string |].
  split; [intros h; reflexivity |].
  split.
  { unfold signed_header_names.
    repeat (constructor; [| repeat constructor; reflexivity]).
    constructor. }
  intros t ts rnd r r' Hrun. unfold RoundTrip in Hrun.
  destruct (String.eqb (Method r) "POST").
  - destruct (GetBody r) as [[body | err] |]; cbn [mbind outcome_bind] in Hrun;
      try discriminate.
    inversion Hrun; subst. cbn [Header set_Header].
    rewrite Header_Get_Set_eq, signing_string_Authorization.
    apply GenerateSignature_signing_string.
  - cbn [mbind outcome_bind] in Hrun.
    inversion Hrun; subst. cbn [Header set_Header].
    rewrite Header_Get_Set_eq, signing_string_Authorization.
    apply GenerateSignature_signing_string.
Qed.

End SignatureProperties.

Lemma Authorization_is_signature_witness :
  exists r',
    @RoundTrip sample_crypto
      {| t_AppKey := "key"; t_AppSecret := "secret" |} 1700000000 42
      sample_request = Ret (inr r')
    /\ Header_Get (Header r') "Authorization"
       = hex_EncodeToString
           (@hmac_sha256 sample_crypto (list_byte_of_string "secret")
              (list_byte_of_string (signing_string (Header r')))).
Proof.
  eexists. split; [reflexivity |].
  refine (proj2 (proj2 (proj2 (@Authorization_is_signature sample_crypto)))
            {| t_AppKey := "key"; t_AppSecret := "secret" |} 1700000000 42
            sample_request _ _).
  reflexivity.
Defined.

(* ------------------------------------------------------------------ *)
(** ** More on the frame codec                                          *)
(* ------------------------------------------------------------------ *)

(** Big-endian writing undoes big-endian reading. *)
Lemma PutUint32_be_value (l : list byte) :
  length l = 4%nat -> BigEndian_PutUint32 (be_value l) = l.
Proof.
  destruct l as [| a [| b [| c [| d [| e l]]]]]; try discriminate.
  intros _. unfold BigEndian_PutUint32, be_value. cbn [fold_left].
  pose proof (byte_unsigned_range a). pose proof (byte_unsigned_range b).
  pose proof (byte_unsigned_range c). pose proof (byte_unsigned_range d).
  repeat f_equal; apply byte.unsigned_inj;
    rewrite byte.unsigned_of_Z; unfold byte.wrap;
    rewrite ?Z.shiftr_div_pow2 by lia;
    change (2 ^ 24) with 16777216; change (2 ^ 16) with 65536;
    change (2 ^ 8) with 256;
    Z.div_mod_to_equations; lia.
Qed.

Lemma PutUint16_be_value (l : list byte) :
  length l = 2%nat -> BigEndian_PutUint16 (be_value l) = l.
Proof.
  destruct l as [| a [| b [| c l]]]; try discriminate.
  intros _. unfold BigEndian_PutUint16, be_value. cbn [fold_left].
  pose proof (byte_unsigned_range a). pose proof (byte_unsigned_range b).
  repeat f_equal; apply byte.unsigned_inj;
    rewrite byte.unsigned_of_Z; unfold byte.wrap;
    rewrite ?Z.shiftr_div_pow2 by lia;
    change (2 ^ 8) with 256;
    Z.div_mod_to_equations; lia.
Qed.

Lemma be_value_range (l : list byte) :
  0 <= be_value l < 2 ^ (8 * Z.of_nat (length l)).
Proof.
  unfold be_value.
  assert (Hgen : forall acc k, 0 <= acc < 2 ^ (8 * k) -> 0 <= k ->
            0 <= fold_left (fun acc b => 256 * acc + byte.unsigned b) l acc
              < 2 ^ (8 * (k + Z.of_nat (length l)))).
  { induction l as [| b l IH]; intros acc k Hacc Hk.
    - cbn [fold_left length]. now rewrite Z.add_0_r.
    - cbn [fold_left length].
      replace (k + Z.of_nat (S (length l))) with ((k + 1) + Z.of_nat (length l))
        by lia.
      apply IH; [| lia].
      pose proof (byte_unsigned_range b).
      replace (8 * (k + 1)) with (8 * k + 8) by lia.
      rewrite Z.pow_add_r by lia. change (2 ^ 8) with 256. lia. }
  apply (Hgen 0 0); [cbn; lia | lia].
Qed.

Lemma uint32_int32 (v : Z) : 0 <= v < 2 ^ 32 -> uint32 (int32 v) = v.
Proof.
  intros Hv. unfold uint32, int32.
  rewrite Zminus_mod_idemp_l.
  replace (v + 2 ^ 31 - 2 ^ 31) with v by lia.
  apply Z.mod_small. lia.
Qed.

Lemma uint16_int16 (v : Z) : 0 <= v < 2 ^ 16 -> uint16 (int16 v) = v.
Proof.
  intros Hv. unfold uint16, int16.
  change (2 ^ 16) with (2 * 2 ^ 15).
  Z.div_mod_to_equations. lia.
Qed.

(** The header is read before any check: too few bytes, and a read
    panics. *)
Lemma header_reads_panic (buf : slice) :
  slice_len buf < 16 -> exists e, parseWsProtoMsg buf = Panic e.
Proof.
  intros Hlt. unfold parseWsProtoMsg.
  do 4 (apply bind_panics; [apply slice_range_total | intros ?];
        apply bind_panics;
          [first [apply Uint32_total | apply Uint16_total] | intros ?]).
  destruct (read_sequence_panics buf Hlt) as [e He]. exists e.
  destruct (slice_from buf wsProtoSeqIdOffset) as [s4| |]; cbn in He |- *;
    try congruence.
  destruct (BigEndian_Uint32 s4); cbn in He |- *; congruence.
Qed.

Lemma parse_needs_header (buf : slice) (r : wsProtoMsg * option error) :
  parseWsProtoMsg buf = Ret r -> 16 <= slice_len buf.
Proof.
  intros Hret. destruct (Z.lt_ge_cases (slice_len buf) 16) as [Hlt | Hge];
    [exfalso | exact Hge].
  destruct (header_reads_panic buf Hlt) as [e He]. congruence.
Qed.

(** When [parseWsProtoMsg] accepts, and what it returns then. *)
Lemma parse_accepts (buf sp : list byte) (p : wsProtoMsg) :
  (16 <= length buf)%nat ->
  parseWsProtoMsg {| elems := buf; spare := sp |} = Ret (p, None)
  <-> well_framed buf /\ p = decoded buf.
Proof.
  intros Hlen. rewrite (parseWsProtoMsg_header buf sp Hlen).
  unfold validate, well_framed, decoded.
  rewrite wsProtoMaxPackSize_value. change wsProtoRawHeaderSize with 16.
  change (slice_len {| elems := buf; spare := sp |})
    with (Z.of_nat (length buf)).
  set (ps := declaredPacketLength buf). set (hl := declaredHeaderLength buf).
  destruct (Z.ltb_spec ps 0) as [Ha1 | Ha1]; cbn [orb].
  { split; [discriminate | intros [(? & ? & ?) _]; lia]. }
  destruct (Z.gtb_spec ps (2048 + 16)) as [Ha2 | Ha2].
  { split; [discriminate | intros [(? & ? & ?) _]; lia]. }
  destruct (Z.ltb_spec (Z.of_nat (length buf)) ps) as [Hb | Hb].
  { split; [discriminate | intros [(? & ? & ?) _]; lia]. }
  destruct (Z.eqb_spec hl 16) as [Hc | Hc]; cbn [negb].
  2: { split; [discriminate | intros [(? & ? & ?) _]; lia]. }
  rewrite Hc. change (int32 16) with 16.
  rewrite (int32_small (ps - 16)) by (unfold is_int32; lia).
  destruct (Z.leb_spec (ps - 16) 0) as [Hd | Hd].
  { split; [discriminate | intros [(? & ? & ?) _]; lia]. }
  pose proof (slice_len_le_cap {| elems := buf; spare := sp |}) as Hcap.
  change (slice_len {| elems := buf; spare := sp |})
    with (Z.of_nat (length buf)) in Hcap.
  rewrite slice_range_ret by lia. cbn [mbind outcome_bind].
  rewrite elems_subslice by (unfold slice_len; cbn [elems]; lia).
  cbn [elems Version Operation SequenceID]. change (Z.to_nat 16) with 16%nat.
  split.
  - intros Hret. inversion Hret; subst. split; [lia | reflexivity].
  - intros [_ ->]. reflexivity.
Qed.

Lemma wire_field_app (buf rest : list byte) (off size : nat) :
  (off + size <= length buf)%nat ->
  wire_field (buf ++ rest) off size = wire_field buf off size.
Proof.
  intros Hlen. unfold wire_field.
  rewrite skipn_app, firstn_app, length_skipn.
  replace (size - (length buf - off))%nat with 0%nat by lia.
  cbn [firstn]. apply app_nil_r.
Qed.

Lemma well_framed_app (buf rest : list byte) :
  (16 <= length buf)%nat ->
  well_framed buf ->
  well_framed (buf ++ rest) /\ decoded (buf ++ rest) = decoded buf.
Proof.
  intros Hlen (Hps & Hn & Hhl).
  unfold well_framed, decoded, declaredPacketLength, declaredHeaderLength,
    declaredVersion, declaredOperation, declaredSequenceID in *.
  rewrite !wire_field_app by lia.
  split.
  - rewrite length_app. repeat split; lia.
  - f_equal. apply (wire_field_app buf rest 16). lia.
Qed.

Lemma firstn_add_skipn {A : Type} (a b : nat) (l : list A) :
  firstn (a + b) l = (firstn a l ++ firstn b (skipn a l))%list.
Proof.
  revert l. induction a as [| a IH]; intros l; [reflexivity |].
  destruct l as [| x l]; [now destruct b |].
  cbn [Nat.add firstn skipn app]. now rewrite IH.
Qed.

Lemma header_fields_cover (buf : list byte) :
  (16 <= length buf)%nat ->
  firstn 16 buf
  = (wire_field buf 0 4 ++ wire_field buf 4 2 ++ wire_field buf 6 2
     ++ wire_field buf 8 4 ++ wire_field buf 12 4)%list.
Proof.
  intros Hlen.
  do 16 (destruct buf as [| ? buf]; [cbn in Hlen; lia |]).
  reflexivity.
Qed.

Lemma wire_field_length (buf : list byte) (off size : nat) :
  (off + size <= length buf)%nat -> length (wire_field buf off size) = size.
Proof.
  intros Hlen. unfold wire_field. rewrite length_firstn, length_skipn. lia.
Qed.

Lemma int16_is_int16 (x : Z) : is_int16 (int16 x).
Proof.
  unfold is_int16, int16.
  pose proof (Z.mod_pos_bound (x + 2 ^ 15) (2 ^ 16)). lia.
Qed.

(** X1.  A buffer that decodes without error decodes to the same frame
    with any bytes appended and any capacity behind it: the decoder
    reads one packet from the front and ignores what follows, so a
    second frame in the same message is never seen. *)
Theorem parse_ignores_trailing_bytes (buf sp rest sp' : list byte)
    (p : wsProtoMsg) :
  parseWsProtoMsg {| elems := buf; spare := sp |} = Ret (p, None) ->
  parseWsProtoMsg {| elems := buf ++ rest; spare := sp' |} = Ret (p, None).
Proof.
  intros Hret.
  assert (Hlen : (16 <= length buf)%nat).
  { apply parse_needs_header in Hret. unfold slice_len in Hret.
    cbn [elems] in Hret. lia. }
  apply (parse_accepts buf sp p Hlen) in Hret as [Hwf ->].
  destruct (well_framed_app buf rest Hlen Hwf) as [Hwf' Hdec].
  apply parse_accepts; [rewrite length_app; lia |].
  split; [exact Hwf' | now rewrite Hdec].
Qed.

Lemma parse_ignores_trailing_bytes_witness :
  parseWsProtoMsg {| elems := encode greeting_msg; spare := [] |}
  = Ret (greeting_msg, None)
  /\ parseWsProtoMsg {| elems := two_frames; spare := [] |}
     = Ret (greeting_msg, None).
Proof.
  assert (Hone : parseWsProtoMsg {| elems := encode greeting_msg; spare := [] |}
                 = Ret (greeting_msg, None)) by reflexivity.
  split; [exact Hone |].
  exact (parse_ignores_trailing_bytes (encode greeting_msg) []
           (encode sample_msg) [] greeting_msg Hone).
Defined.

(** X2.  Decoding then encoding gives the packet back: when a buffer
    decodes without error, the frame has typed fields and a body of 1
    to 2048 bytes, and writing it yields exactly the first
    [packetLength] bytes of the buffer. *)
Theorem encode_after_parse (buf sp : list byte) (p : wsProtoMsg) :
  parseWsProtoMsg {| elems := buf; spare := sp |} = Ret (p, None) ->
  msg_typed p
  /\ (1 <= length (Body p) <= 2048)%nat
  /\ encode p = firstn (Z.to_nat (declaredPacketLength buf)) buf.
Proof.
  intros Hret.
  assert (Hlen : (16 <= length buf)%nat).
  { apply parse_needs_header in Hret. unfold slice_len in Hret.
    cbn [elems] in Hret. lia. }
  apply (parse_accepts buf sp p Hlen) in Hret as [(Hps & Hn & Hhl) ->].
  assert (Hbody : length (Body (decoded buf))
                  = Z.to_nat (declaredPacketLength buf - 16)).
  { unfold decoded. cbn [Body]. rewrite length_firstn, length_skipn. lia. }
  split; [| split].
  - unfold msg_typed, decoded. cbn [Version Operation SequenceID].
    unfold declaredVersion, declaredOperation, declaredSequenceID.
    auto using int16_is_int16, int32_is_int32.
  - rewrite Hbody. lia.
  - unfold encode. rewrite encode_layout. cbn [fst]. rewrite Hbody.
    change wsProtoRawHeaderSize with 16.
    replace (16 + Z.of_nat (Z.to_nat (declaredPacketLength buf - 16)))
      with (declaredPacketLength buf) by lia.
    replace (Z.to_nat (declaredPacketLength buf))
      with (16 + Z.to_nat (declaredPacketLength buf - 16))%nat by lia.
    rewrite firstn_add_skipn, (header_fields_cover buf Hlen).
    rewrite <- !app_assoc.
    unfold decoded. cbn [Version Operation SequenceID Body].
    unfold declaredPacketLength, declaredHeaderLength, declaredVersion,
      declaredOperation, declaredSequenceID in *.
    pose proof (be_value_range (wire_field buf 0 4)) as R0.
    pose proof (be_value_range (wire_field buf 4 2)) as R1.
    pose proof (be_value_range (wire_field buf 6 2)) as R2.
    pose proof (be_value_range (wire_field buf 8 4)) as R3.
    pose proof (be_value_range (wire_field buf 12 4)) as R4.
    rewrite !wire_field_length in R0, R1, R2, R3, R4 by lia.
    change (2 ^ (8 * Z.of_nat 4)) with (2 ^ 32) in R0, R3, R4.
    change (2 ^ (8 * Z.of_nat 2)) with (2 ^ 16) in R1, R2.
    rewrite (int32_small (int32 _)) by apply int32_is_int32.
    rewrite (int32_small (int32 _)) by apply int32_is_int32.
    rewrite !uint32_int32 by lia.
    rewrite (uint16_int16 (be_value (wire_field buf 6 2))) by lia.
    replace (uint16 (int16 16)) with (be_value (wire_field buf 4 2)).
    2: { rewrite <- (uint16_int16 (be_value (wire_field buf 4 2))) by lia.
         now rewrite Hhl. }
    rewrite !PutUint32_be_value, !PutUint16_be_value
      by (apply wire_field_length; lia).
    reflexivity.
Qed.

Lemma encode_after_parse_witness :
  parseWsProtoMsg {| elems := two_frames; spare := [] |}
  = Ret (greeting_msg, None)
  /\ encode greeting_msg = firstn 18 two_frames.
Proof.
  assert (Hone : parseWsProtoMsg {| elems := two_frames; spare := [] |}
                 = Ret (greeting_msg, None)) by reflexivity.
  split; [exact Hone |].
  exact (proj2 (proj2 (encode_after_parse two_frames [] greeting_msg Hone))).
Defined.

(** The length fields of an encoded frame. *)
Lemma encode_header (p : wsProtoMsg) :
  Z.of_nat (length (Body p)) <= 2 ^ 31 - 17 ->
  declaredPacketLength (encode p) = 16 + Z.of_nat (length (Body p))
  /\ declaredHeaderLength (encode p) = 16.
Proof.
  intros Hbody. split.
  - unfold declaredPacketLength, encode. rewrite encode_layout.
    cbn [fst]. change wsProtoRawHeaderSize with 16.
    change (wire_field _ 0 4) with
      (BigEndian_PutUint32 (uint32 (int32 (16 + Z.of_nat (length (Body p)))))).
    rewrite be_value_PutUint32 by apply uint32_range.
    rewrite int32_uint32; rewrite int32_small; unfold is_int32; lia.
  - unfold declaredHeaderLength, encode. rewrite encode_layout. reflexivity.
Qed.

(** X3.  Encoding checks nothing: a frame whose body is longer than
    2048 bytes is written without error, with its true length in the
    header, and the decoder then rejects those bytes for their packet
    size. *)
Theorem oversized_body_written_then_rejected (p : wsProtoMsg)
    (sp : list byte) :
  2048 < Z.of_nat (length (Body p)) <= 2 ^ 31 - 17 ->
  snd (writeWsProtoMsg ([] : list byte) p) = None
  /\ declaredPacketLength (encode p) = Z.of_nat (length (encode p))
  /\ exists q,
      parseWsProtoMsg {| elems := encode p; spare := sp |}
      = Ret (q, Some (Errorf "invalid pack size: %d"
                             [16 + Z.of_nat (length (Body p))])).
Proof.
  intros Hbody.
  destruct (encode_header p) as [Hps Hhl]; [lia |].
  split; [now rewrite encode_layout |].
  split; [rewrite Hps, encode_length; lia |].
  rewrite parseWsProtoMsg_header by (rewrite encode_length; lia).
  rewrite Hps. unfold validate. rewrite wsProtoMaxPackSize_value.
  destruct (Z.ltb_spec (16 + Z.of_nat (length (Body p))) 0); [lia |].
  destruct (Z.gtb_spec (16 + Z.of_nat (length (Body p))) (2048 + 16));
    [| lia].
  cbn [orb]. eexists. reflexivity.
Qed.

Lemma oversized_body_written_then_rejected_witness :
  2048 < Z.of_nat (length (Body oversized_msg)) <= 2 ^ 31 - 17
  /\ exists q,
      parseWsProtoMsg {| elems := encode oversized_msg; spare := [] |}
      = Ret (q, Some (Errorf "invalid pack size: %d" [2065])).
Proof.
  assert (Hb : 2048 < Z.of_nat (length (Body oversized_msg)) <= 2 ^ 31 - 17)
    by (cbn [oversized_msg Body]; rewrite repeat_length; lia).
  split; [exact Hb |].
  destruct (oversized_body_written_then_rejected oversized_msg [] Hb)
    as (_ & _ & q & Hq).
  exists q. rewrite Hq. cbn [oversized_msg Body]. rewrite repeat_length.
  reflexivity.
Defined.

(* ------------------------------------------------------------------ *)
(** ** More on the streaming connection                                 *)
(* ------------------------------------------------------------------ *)

Lemma state_eqb_true (a b : websocketClientState) :
  state_eqb a b = true <-> a = b.
Proof. destruct a, b; cbn; split; (discriminate || reflexivity). Qed.

Lemma state_eqb_false (a b : websocketClientState) :
  a <> b -> negb (state_eqb a b) = true.
Proof.
  intros Hne. destruct (state_eqb a b) eqn:E; [| reflexivity].
  apply state_eqb_true in E. contradiction.
Qed.

Section MoreConnectionProperties.
Context `{Json}.

(** X4.  [connect] on a connection that is not idle dials nothing: it
    returns the state error and leaves the connection as it was. *)
Theorem connect_refused_unless_idle (d : dial_result) (t : tx)
    (c : liveWebsocketClient) :
  state c <> websocketClientStateIdle ->
  connect d t c
  = Ret (Some (Errorf "websocket client state should be idle" []), c, []).
Proof.
  intros Hst. unfold connect. rewrite bind_field.
  now rewrite (state_eqb_false _ _ Hst).
Qed.

(** X5.  A heartbeat tick on a connection that is not Active builds no
    frame, writes nothing and logs nothing; the dispatch loop goes on. *)
Theorem heartbeat_skipped_unless_active (t : tx) (c : liveWebsocketClient) :
  state c <> websocketClientStateActive ->
  sendHeartbeat t c = Ret (None, c, [])
  /\ eventLoop_turn (HeartbeatTick t) c = Ret (true, c, []).
Proof.
  intros Hst.
  assert (Hsend : sendHeartbeat t c = Ret (None, c, [])).
  { unfold sendHeartbeat. rewrite bind_field.
    now rewrite (state_eqb_false _ _ Hst). }
  split; [exact Hsend |].
  cbn [eventLoop_turn]. rewrite (bind_run _ _ _ _ _ _ Hsend). reflexivity.
Qed.

(** X6.  An AUTH_ACK that arrives outside the AwaitingAuth state is not
    decoded: the handler returns an error that carries the state's
    number, and the dispatch loop logs it and leaves the connection as
    it was, so a second AUTH_ACK cannot change an Active connection. *)
Theorem auth_ack_outside_handshake (msg : wsProtoMsg)
    (c : liveWebsocketClient) :
  state c <> websocketClientStateAuth ->
  handleOpAuth msg c
  = Ret (Some (Errorf "receive op msg at unexpected state %d"
                      [state_code (state c)]), c, [])
  /\ (eventHandler c !! Operation msg = Some HandleOpAuth ->
      eventLoop_turn (EventCh (Some msg)) c
      = Ret (true, c, [ELog LWarn "handle msg fail"])).
Proof.
  intros Hst.
  assert (Hauth : handleOpAuth msg c
    = Ret (Some (Errorf "receive op msg at unexpected state %d"
                        [state_code (state c)]), c, [])).
  { unfold handleOpAuth. rewrite bind_field.
    now rewrite (state_eqb_false _ _ Hst). }
  split; [exact Hauth |]. intros Hh.
  cbn [eventLoop_turn]. rewrite bind_field, Hh.
  rewrite (bind_run _ _ _ _ _ _ Hauth). reflexivity.
Qed.

(** X7.  With the dispatch table [connect] installs, a frame whose
    operation code is none of 3, 5 and 8 reaches no handler: the loop
    logs a warning, leaves the connection as it was and goes on. *)
Theorem unmapped_operation_dropped (msg : wsProtoMsg)
    (c : liveWebsocketClient) :
  eventHandler c = connect_handlers ->
  Operation msg <> wsProtoOpHeartbeatReply ->
  Operation msg <> wsProtoOpSendMsgReply ->
  Operation msg <> wsProtoOpAuthReply ->
  eventLoop_turn (EventCh (Some msg)) c
  = Ret (true, c, [ELog LWarn "no handlers for this message"]).
Proof.
  intros Hh H3 H5 H8. cbn [eventLoop_turn]. rewrite bind_field, Hh.
  unfold connect_handlers.
  rewrite !lookup_insert_ne by congruence.
  rewrite lookup_empty. reflexivity.
Qed.

(** X8.  A MESSAGE_ACK frame whose [cmd] is LIVE_OPEN_PLATFORM_DM.
    When [ToVal] returns and [LastError] has nothing to report, the
    event [ToVal] left goes to [onDanmaku] once if a callback is
    registered and nowhere if none is, and the handler returns no error.
    When [LastError] reports an error, the handler returns it wrapped
    and calls nothing.  The connection is unchanged either way.  When
    [ToVal] panics, as it does on an envelope without a data member, the
    handler panics, and so does the turn of the dispatch loop that
    called it. *)
Theorem chat_event_delivered (msg : wsProtoMsg) (c : liveWebsocketClient) :
  Get_ToString (Body msg) "cmd" = CmdLiveOpenPlatformDm ->
  (forall dm, Get_ToVal_Danmaku (Body msg) "data" = Some (dm, None) ->
     handleOpMsg msg c
     = Ret (None, c, if onDanmaku c then [EOnDanmaku dm] else []))
  /\ (forall dm err,
     Get_ToVal_Danmaku (Body msg) "data" = Some (dm, Some err) ->
     handleOpMsg msg c
     = Ret (Some (Wrapf "unmarshal danmaku fail: %w" err), c, []))
  /\ (Get_ToVal_Danmaku (Body msg) "data" = None ->
     handleOpMsg msg c = Panic LibraryPanic
     /\ (eventHandler c !! Operation msg = Some HandleOpMsg ->
         eventLoop_turn (EventCh (Some msg)) c = Panic LibraryPanic)).
Proof.
  intros Hcmd.
  assert (Hchat : handleOpMsg msg c
                  = match Get_ToVal_Danmaku (Body msg) "data" with
                    | None => Panic LibraryPanic
                    | Some (dm, Some err) =>
                        Ret (Some (Wrapf "unmarshal danmaku fail: %w" err),
                             c, [])
                    | Some (dm, None) =>
                        Ret (None, c,
                             if onDanmaku c then [EOnDanmaku dm] else [])
                    end).
  { unfold handleOpMsg. rewrite Hcmd.
    change (String.eqb CmdLiveOpenPlatformDm CmdLiveOpenPlatformDm) with true.
    cbv iota.
    destruct (Get_ToVal_Danmaku (Body msg) "data") as [[dm [err |]]|];
      try reflexivity.
    rewrite bind_field. destruct (onDanmaku c); reflexivity. }
  split; [| split].
  - intros dm Hval. now rewrite Hchat, Hval.
  - intros dm err Hval. now rewrite Hchat, Hval.
  - intros Hval. rewrite Hval in Hchat. split; [exact Hchat |].
    intros Hh. cbn [eventLoop_turn]. rewrite bind_field, Hh.
    cbn [call_handler]. unfold mbind at 1, Act_bind at 1.
    now rewrite Hchat.
Qed.

(** X9.  Only cancellation ends the dispatch loop: every other turn
    that returns asks for the next one, whatever the handler or the
    heartbeat write returned; and once cancelled the loop handles
    nothing more. *)
Theorem only_cancellation_ends_loop (ev : loop_event)
    (c c' : liveWebsocketClient) (b : bool) (tr : list effect)
    (rest : list loop_event) :
  eventLoop_turn ev c = Ret (b, c', tr) ->
  (b = false <-> ev = LoopCtxDone)
  /\ eventLoop (LoopCtxDone :: rest) c = Ret (tt, c, []).
Proof.
  intros Hrun. split; [| reflexivity].
  destruct ev as [| t | [msg |]]; cbn [eventLoop_turn] in Hrun.
  - inversion Hrun; subst. split; reflexivity.
  - apply bind_inv in Hrun as (r & c1 & t1 & t2 & _ & Hk & _).
    apply bind_inv in Hk as (u & c2 & t3 & t4 & _ & Hret & _).
    inversion Hret; subst. split; discriminate.
  - apply bind_inv in Hrun as (hs & c1 & t1 & t2 & _ & Hk & _).
    destruct (hs !! Operation msg) as [h |].
    + apply bind_inv in Hk as (r & c2 & t3 & t4 & _ & Hk & _).
      apply bind_inv in Hk as (u & c3 & t5 & t6 & _ & Hret & _).
      inversion Hret; subst. split; discriminate.
    + apply bind_inv in Hk as (u & c2 & t3 & t4 & _ & Hret & _).
      inversion Hret; subst. split; discriminate.
  - inversion Hrun; subst. split; discriminate.
Qed.

End MoreConnectionProperties.

Lemma connect_refused_unless_idle_witness :
  state awaiting_auth <> websocketClientStateIdle
  /\ connect (DialOk (Dialed "wss://other")) (TxWriter 6) awaiting_auth
     = Ret (Some (Errorf "websocket client state should be idle" []),
            awaiting_auth, []).
Proof.
  split; [discriminate |].
  apply connect_refused_unless_idle. discriminate.
Defined.

Lemma heartbeat_skipped_unless_active_witness :
  state awaiting_auth <> websocketClientStateActive
  /\ eventLoop_turn (HeartbeatTick (TxWriter 6)) awaiting_auth
     = Ret (true, awaiting_auth, []).
Proof.
  split; [discriminate |].
  refine (proj2 (heartbeat_skipped_unless_active (TxWriter 6) awaiting_auth _)).
  discriminate.
Defined.

Lemma auth_ack_outside_handshake_witness :
  state active_ws <> websocketClientStateAuth
  /\ handleOpAuth (auth_ack Byte.x31) active_ws
     = Ret (Some (Errorf "receive op msg at unexpected state %d" [2]),
            active_ws, []).
Proof.
  split; [discriminate |].
  refine (proj1 (auth_ack_outside_handshake (auth_ack Byte.x31) active_ws _)).
  discriminate.
Defined.

Lemma unmapped_operation_dropped_witness :
  eventHandler active_ws = connect_handlers
  /\ eventLoop_turn (EventCh (Some heartbeat_sample)) active_ws
     = Ret (true, active_ws, [ELog LWarn "no handlers for this message"]).
Proof.
  split; [reflexivity |].
  apply unmapped_operation_dropped;
    [reflexivity | discriminate | discriminate | discriminate].
Defined.

Lemma chat_event_delivered_witness :
  Get_ToString (Body chat_msg) "cmd" = CmdLiveOpenPlatformDm
  /\ Get_ToVal_Danmaku (Body chat_msg) "data" = Some (alice_hello, None)
  /\ handleOpMsg chat_msg active_ws
     = Ret (None, active_ws, [EOnDanmaku alice_hello])
  /\ Get_ToString (Body chat_msg_without_data) "cmd" = CmdLiveOpenPlatformDm
  /\ Get_ToVal_Danmaku (Body chat_msg_without_data) "data" = None
  /\ eventLoop_turn (EventCh (Some chat_msg_without_data)) active_ws
     = Panic LibraryPanic.
Proof.
  assert (Hcmd : Get_ToString (Body chat_msg) "cmd" = CmdLiveOpenPlatformDm)
    by reflexivity.
  assert (Hval : Get_ToVal_Danmaku (Body chat_msg) "data"
                 = Some (alice_hello, None)) by reflexivity.
  assert (Hcmd' : Get_ToString (Body chat_msg_without_data) "cmd"
                  = CmdLiveOpenPlatformDm) by reflexivity.
  assert (Hval' : Get_ToVal_Danmaku (Body chat_msg_without_data) "data"
                  = None) by reflexivity.
  split; [exact Hcmd |]. split; [exact Hval |].
  split; [exact (proj1 (chat_event_delivered chat_msg active_ws Hcmd)
                   alice_hello Hval) |].
  split; [exact Hcmd' |]. split; [exact Hval' |].
  exact (proj2 (proj2 (proj2 (chat_event_delivered chat_msg_without_data
                                active_ws Hcmd'))
                  Hval') eq_refl).
Defined.

Lemma only_cancellation_ends_loop_witness :
  eventLoop_turn (EventCh (Some (auth_ack Byte.x31))) awaiting_auth
  = Ret (true, awaiting_auth, [ELog LWarn "handle msg fail"])
  /\ (true = false <-> EventCh (Some (auth_ack Byte.x31)) = LoopCtxDone).
Proof.
  assert (Hrun : eventLoop_turn (EventCh (Some (auth_ack Byte.x31)))
                   awaiting_auth
                 = Ret (true, awaiting_auth, [ELog LWarn "handle msg fail"]))
    by reflexivity.
  split; [exact Hrun |].
  exact (proj1 (only_cancellation_ends_loop _ _ _ _ _ [] Hrun)).
Defined.

(** Every buffer with a whole header gets a verdict: the frame it
    spells, or an error. *)
Lemma parse_verdict (buf sp : list byte) :
  (16 <= length buf)%nat ->
  (well_framed buf
   /\ parseWsProtoMsg {| elems := buf; spare := sp |}
      = Ret (decoded buf, None))
  \/ (~ well_framed buf
      /\ exists p err,
          parseWsProtoMsg {| elems := buf; spare := sp |}
          = Ret (p, Some err)).
Proof.
  intros Hlen. rewrite (parseWsProtoMsg_header buf sp Hlen).
  unfold validate, well_framed, decoded.
  rewrite wsProtoMaxPackSize_value. change wsProtoRawHeaderSize with 16.
  change (slice_len {| elems := buf; spare := sp |})
    with (Z.of_nat (length buf)).
  set (ps := declaredPacketLength buf). set (hl := declaredHeaderLength buf).
  destruct (Z.ltb_spec ps 0) as [Ha1 | Ha1]; cbn [orb].
  { right. split; [intros (? & ? & ?); lia | eauto]. }
  destruct (Z.gtb_spec ps (2048 + 16)) as [Ha2 | Ha2].
  { right. split; [intros (? & ? & ?); lia | eauto]. }
  destruct (Z.ltb_spec (Z.of_nat (length buf)) ps) as [Hb | Hb].
  { right. split; [intros (? & ? & ?); lia | eauto]. }
  destruct (Z.eqb_spec hl 16) as [Hc | Hc]; cbn [negb].
  2: { right. split; [intros (? & ? & ?); lia | eauto]. }
  rewrite Hc. change (int32 16) with 16.
  rewrite (int32_small (ps - 16)) by (unfold is_int32; lia).
  destruct (Z.leb_spec (ps - 16) 0) as [Hd | Hd].
  { right. split; [intros (? & ? & ?); lia | eauto]. }
  left. split; [lia |].
  pose proof (slice_len_le_cap {| elems := buf; spare := sp |}) as Hcap.
  change (slice_len {| elems := buf; spare := sp |})
    with (Z.of_nat (length buf)) in Hcap.
  rewrite slice_range_ret by lia. cbn [mbind outcome_bind].
  rewrite elems_subslice by (unfold slice_len; cbn [elems]; lia).
  reflexivity.
Qed.

Lemma sends_app (t1 t2 : list effect) :
  sends (t1 ++ t2) = (sends t1 ++ sends t2)%list.
Proof.
  induction t1 as [| e t1 IH]; [reflexivity |].
  destruct e; cbn [sends app]; now rewrite IH.
Qed.

Section ReadLoopProperties.
Context `{Json}.

(** X10.  When the transport reports a close status to the read loop of
    a connection made by [connect] with a close callback: the loops are
    cancelled, the ticker is stopped, [onClose] is called once with
    that error, the state is Idle and the read loop returns; a later
    [Close] does nothing and any later turn of the read loop returns at
    once, so the owner is notified exactly once. *)
Theorem transport_close_tears_down (c0 : liveWebsocketClient) (cn : Conn)
    (t : tx) (evs : list conn_event) (c : liveWebsocketClient)
    (tr : list effect) (err : error) (closed : option error)
    (r : read_result) :
  state c0 = websocketClientStateIdle ->
  onClose c0 = true ->
  lifetime (DialOk cn) t evs c0 = Ret (tt, c, tr) ->
  conn c <> None ->
  exists c1,
    readLoop_turn (ReadClosed err) c
    = Ret ((None, false), c1,
           [ELog LInfo "connection receive close message";
            ELoopCancel; ETickerStop; EOnClose (Some err)])
    /\ state c1 = websocketClientStateIdle
    /\ conn c1 = None
    /\ Close closed c1 = Ret (None, c1, [])
    /\ readLoop_turn r c1
       = Ret ((None, false), c1,
              [ELog LInfo "connection is closed. exit read loop"]).
Proof.
  intros Hst Hcb Hrun Hopen.
  destruct (lifetime_wired c0 cn t evs c tr Hst Hrun) as [Hcl Hw].
  rewrite Hcb in Hcl. destruct (Hw Hopen) as [Hlc Htk].
  exists (torn_down c).
  split; [| split; [reflexivity | split; [reflexivity | split]]].
  - unfold readLoop_turn. rewrite bind_field.
    destruct (conn c) as [cn' |]; [| congruence].
    unfold readLoop_recv. rewrite bind_emit.
    rewrite (bind_run _ _ _ _ _ _ (internalClose_run (Some err) c)).
    rewrite ret_run. cbn [with_trace app].
    unfold teardown_effects. rewrite Hlc, Htk, Hcl. reflexivity.
  - apply Close_closed. reflexivity.
  - unfold readLoop_turn. rewrite bind_field. reflexivity.
Qed.

(** X11.  On an open connection the read loop hands to the dispatch
    loop exactly the messages that frame a packet, decoded; a message
    with a whole header that frames none, and a read error without a
    close status, are logged and skipped with the connection unchanged,
    and the loop goes on. *)
Theorem read_loop_hands_over_framed_messages (c : liveWebsocketClient)
    (buf sp : list byte) (err : error) :
  conn c <> None ->
  (16 <= length buf)%nat ->
  (well_framed buf ->
   readLoop_turn (ReadMessage {| elems := buf; spare := sp |}) c
   = Ret ((Some (decoded buf), true), c, [ELog LDebug "recv msg"]))
  /\ (~ well_framed buf ->
      readLoop_turn (ReadMessage {| elems := buf; spare := sp |}) c
      = Ret ((None, true), c, [ELog LWarn "failed to parse message"]))
  /\ readLoop_turn (ReadFailed err) c
     = Ret ((None, true), c, [ELog LWarn "failed to read message from conn"]).
Proof.
  intros Hopen Hlen. unfold readLoop_turn. rewrite !bind_field.
  destruct (conn c) as [cn |]; [| congruence].
  unfold readLoop_recv.
  split; [| split; [| reflexivity]].
  - intros Hwf. destruct (parse_verdict buf sp Hlen) as [[_ ->] | [Hn _]];
      [reflexivity | contradiction].
  - intros Hnwf.
    destruct (parse_verdict buf sp Hlen) as [[Hwf _] | [_ (p & e & ->)]];
      [contradiction | reflexivity].
Qed.

(** X12.  A message shorter than the 16-byte header makes the read loop
    panic, and with it the run of the connection: nothing after it is
    handled. *)
Theorem short_message_panics_read_loop (c : liveWebsocketClient)
    (buf : slice) (evs : list conn_event) :
  conn c <> None ->
  slice_len buf < 16 ->
  exists e,
    readLoop_turn (ReadMessage buf) c = Panic e
    /\ conn_run (Read (ReadMessage buf) :: evs) c = Panic e.
Proof.
  intros Hopen Hshort.
  destruct (header_reads_panic buf Hshort) as [e He]. exists e.
  assert (Hrecv : readLoop_recv (ReadMessage buf) c = Panic e)
    by (unfold readLoop_recv; now rewrite He).
  assert (Hturn : readLoop_turn (ReadMessage buf) c = Panic e).
  { unfold readLoop_turn. rewrite bind_field.
    destruct (conn c) as [cn |]; [exact Hrecv | congruence]. }
  split; [exact Hturn |].
  unfold conn_run. cbn [conn_steps conn_step]. unfold reader_wakes.
  cbn [reader parked]. unfold mbind, Act_bind. now rewrite Hrecv.
Qed.

End ReadLoopProperties.

Lemma transport_close_tears_down_witness :
  exists c tr c1,
    lifetime (DialOk (Dialed "wss://example")) (TxWriter 6) short_life
      fresh_ws = Ret (tt, c, tr)
    /\ readLoop_turn (ReadClosed (External "status 1006")) c
       = Ret ((None, false), c1,
              [ELog LInfo "connection receive close message";
               ELoopCancel; ETickerStop;
               EOnClose (Some (External "status 1006"))])
    /\ Close None c1 = Ret (None, c1, []).
Proof.
  eexists _, _.
  assert (Hrun : lifetime (DialOk (Dialed "wss://example")) (TxWriter 6)
                   short_life fresh_ws
                 = Ret (tt,
                        set_seqID 3 (set_state websocketClientStateActive
                          (connected (Dialed "wss://example") fresh_ws)),
                        _)) by (vm_compute; reflexivity).
  destruct (transport_close_tears_down fresh_ws (Dialed "wss://example")
              (TxWriter 6) short_life _ _ (External "status 1006") None
              (ReadFailed (External "x")) eq_refl eq_refl Hrun)
    as (c1 & Hturn & _ & _ & Hclose & _); [discriminate |].
  exists c1. split; [exact Hrun |]. split; [exact Hturn | exact Hclose].
Defined.

Lemma read_loop_hands_over_framed_messages_witness :
  conn active_ws <> None
  /\ (16 <= length (encode greeting_msg))%nat
  /\ well_framed (encode greeting_msg)
  /\ readLoop_turn (ReadMessage {| elems := encode greeting_msg; spare := [] |})
       active_ws
     = Ret ((Some (decoded (encode greeting_msg)), true), active_ws,
            [ELog LDebug "recv msg"]).
Proof.
  assert (Hopen : conn active_ws <> None) by discriminate.
  assert (Hlen : (16 <= length (encode greeting_msg))%nat) by (cbn; lia).
  assert (Hwf : well_framed (encode greeting_msg))
    by (vm_compute; intuition congruence).
  split; [exact Hopen |]. split; [exact Hlen |]. split; [exact Hwf |].
  exact (proj1 (read_loop_hands_over_framed_messages active_ws
                  (encode greeting_msg) [] (External "x") Hopen Hlen) Hwf).
Defined.

Lemma short_message_panics_read_loop_witness :
  conn active_ws <> None
  /\ slice_len {| elems := [Byte.x00; Byte.x00]; spare := [] |} < 16
  /\ exists e,
      conn_run [Read (ReadMessage {| elems := [Byte.x00; Byte.x00];
                                     spare := [] |}); tick] active_ws
      = Panic e.
Proof.
  assert (Hopen : conn active_ws <> None) by discriminate.
  assert (Hshort : slice_len {| elems := [Byte.x00; Byte.x00]; spare := [] |}
                   < 16) by reflexivity.
  split; [exact Hopen |]. split; [exact Hshort |].
  destruct (short_message_panics_read_loop active_ws
              {| elems := [Byte.x00; Byte.x00]; spare := [] |} [tick]
              Hopen Hshort) as (e & _ & Hrun).
  exists e. exact Hrun.
Defined.

Section Safety.
Context `{Json}.

Lemma forward_refl (a : websocketClientState) : forward a a.
Proof. now left. Qed.

Lemma forward_trans (a b c : websocketClientState) :
  forward a b -> forward b c -> forward a c.
Proof.
  unfold forward. intros [-> | [[-> ->] | ->]] [-> | [[Hb ->] | ->]];
    auto; try discriminate.
Qed.

Lemma forward_idle (a : websocketClientState) :
  forward a websocketClientStateIdle.
Proof. right. now right. Qed.

Lemma sendHeartbeat_skips (t : tx) (c : liveWebsocketClient) :
  state c <> websocketClientStateActive ->
  sendHeartbeat t c = Ret (None, c, []).
Proof.
  intros Hst. unfold sendHeartbeat. rewrite bind_field.
  now rewrite (state_eqb_false _ _ Hst).
Qed.

Lemma step_ok_same (c : liveWebsocketClient) (tr : list effect) :
  holds_transport c -> frames tr = [] -> sends tr = [] -> step_ok c tr c.
Proof.
  intros Hlive Hf Hs. split; [exact Hlive |].
  split; [apply forward_refl | auto].
Qed.

Lemma step_ok_torn_down (c : liveWebsocketClient) (tr : list effect) :
  frames tr = [] -> sends tr = [] -> step_ok c tr (torn_down c).
Proof.
  intros Hf Hs. split; [intros Hne; now cbn in Hne |].
  split; [apply forward_idle | auto].
Qed.

Lemma step_ok_trans (c c1 c2 : liveWebsocketClient) (t1 t2 : list effect) :
  step_ok c t1 c1 -> step_ok c1 t2 c2 -> step_ok c (t1 ++ t2) c2.
Proof.
  intros (_ & Hf1 & Hi1) (Hl2 & Hf2 & Hi2).
  split; [exact Hl2 |]. split; [eapply forward_trans; eassumption |].
  intros Hi. destruct (Hi1 Hi) as (Hs1 & Hfr1 & Hsd1).
  destruct (Hi2 Hs1) as (Hs2 & Hfr2 & Hsd2).
  rewrite frames_app, sends_app, Hfr1, Hfr2, Hsd1, Hsd2. auto.
Qed.

Lemma teardown_effects_sends (err : option error) (c : liveWebsocketClient) :
  sends (teardown_effects err c) = [].
Proof.
  unfold teardown_effects.
  destruct (loopCancel c), (heartbeatTicker c), (onClose c); reflexivity.
Qed.

(** Building up what a method does safely. *)
Lemma safely_quiet {A : Type} (a : A) (c : liveWebsocketClient)
    (tr : list effect) :
  holds_transport c -> frames tr = [] -> sends tr = [] ->
  safely c (Ret (a, c, tr)).
Proof. intros Hl Hf Hs. cbn [safely]. now apply step_ok_same. Qed.

Lemma safely_ret {A : Type} (a : A) (c : liveWebsocketClient) :
  holds_transport c -> safely c ((mret a : Act A) c).
Proof. intros Hl. now apply safely_quiet. Qed.

Lemma safely_bind {A B : Type} (m : Act A) (k : A -> Act B)
    (c : liveWebsocketClient) :
  safely c (m c) ->
  (forall a c1 t1, m c = Ret (a, c1, t1) -> holds_transport c1 ->
                   safely c1 (k a c1)) ->
  safely c ((m ≫= k) c).
Proof.
  intros Hm Hk. unfold mbind, Act_bind.
  destruct (m c) as [[[a c1] t1]| |]; cbn [safely] in *;
    [| exact I | exact Hm].
  specialize (Hk a c1 t1 eq_refl (proj1 Hm)).
  destruct (k a c1) as [[[b c2] t2]| |]; cbn [safely] in *;
    [| exact I | exact Hk].
  eapply step_ok_trans; eassumption.
Qed.

Lemma sendHeartbeat_safe (t : tx) (c : liveWebsocketClient) :
  holds_transport c -> safely c (sendHeartbeat t c).
Proof.
  intros Hl. destruct (state c) eqn:Hst.
  1, 2: rewrite (sendHeartbeat_skips t c) by congruence;
        now apply safely_quiet.
  assert (Hopen : conn c <> None) by (apply Hl; congruence).
  destruct (sendHeartbeat_run t c Hst Hopen) as (r & tr & -> & _).
  cbn [safely]. split; [intros _; exact Hopen |].
  split; [apply forward_refl |]. rewrite Hst. discriminate.
Qed.

(** What a handler can do to the connection: nothing, or, for an
    AUTH_ACK awaited and accepted, make it Active.  It builds no frame
    and writes nothing. *)
Lemma call_handler_safe (h : handler) (msg : wsProtoMsg)
    (c : liveWebsocketClient) :
  holds_transport c -> safely c (call_handler h msg c).
Proof.
  intros Hl. destruct h; cbn [call_handler].
  - unfold handleOpAuth. rewrite bind_field.
    destruct (state c) eqn:Hst; cbn [state_eqb state_code Z.eqb Pos.eqb negb];
      try (now apply safely_quiet).
    destruct (Unmarshal_wsAuthResponse (Body msg)) as [rsp | err];
      [| now apply safely_quiet].
    destruct (negb (Code rsp =? 0)); [now apply safely_quiet |].
    act_step. cbn [safely].
    split; [intros _; cbn [conn set_state]; apply Hl; congruence |].
    split; [right; left; split; [exact Hst | reflexivity] |].
    intros Hi. congruence.
  - unfold handleOpHeartbeat. act_step. now apply safely_quiet.
  - unfold handleOpMsg.
    destruct (String.eqb _ _).
    + destruct (Get_ToVal_Danmaku _ _) as [[dm [err |]]|];
        [now apply safely_quiet | | exact I].
      rewrite bind_field. destruct (onDanmaku c); cbn [when]; act_step;
        now apply safely_quiet.
    + act_step. now apply safely_quiet.
Qed.

(** One turn of the dispatch loop, on a connection that holds its
    transport whenever it is not idle. *)
Lemma eventLoop_turn_safe (ev : loop_event) (c : liveWebsocketClient) :
  holds_transport c -> safely c (eventLoop_turn ev c).
Proof.
  intros Hl. destruct ev as [| t | [msg |]]; cbn [eventLoop_turn].
  - now apply safely_ret.
  - apply safely_bind; [now apply sendHeartbeat_safe |].
    intros r c1 t1 _ Hl1.
    destruct r as [err |]; cbn [when bool_decide]; act_step;
      now apply safely_quiet.
  - rewrite bind_field.
    destruct (eventHandler c !! Operation msg) as [h |].
    + apply safely_bind; [now apply call_handler_safe |].
      intros r c1 t1 _ Hl1.
      destruct r as [err |]; cbn [when bool_decide]; act_step;
        now apply safely_quiet.
    + act_step. now apply safely_quiet.
  - now apply safely_ret.
Qed.

Lemma dispatch_safe (ev : loop_event) (c : liveWebsocketClient) :
  holds_transport c -> safely c (dispatch ev c).
Proof.
  intros Hl. unfold dispatch.
  apply safely_bind; [now apply eventLoop_turn_safe |].
  intros b c1 t1 _ Hl1. destruct b; [| now apply safely_ret].
  apply safely_bind; [| intros; now apply safely_ret].
  unfold select_operands. rewrite bind_field.
  destruct (heartbeatTicker c1); [now apply safely_ret | exact I].
Qed.

Lemma parse_never_blocks (buf : slice) : parseWsProtoMsg buf <> Deadlock.
Proof.
  destruct (Z_lt_le_dec (slice_len buf) 16) as [Hs | Hs].
  - destruct (header_reads_panic buf Hs) as [e ->]. discriminate.
  - destruct buf as [b sp].
    assert (Hlen : (16 <= length b)%nat)
      by (unfold slice_len in Hs; cbn [elems] in Hs; lia).
    destruct (parse_verdict b sp Hlen) as [[_ ->] | [_ (p & e & ->)]];
      discriminate.
Qed.

(** What the read loop can do to the connection: nothing, or tear it
    down. *)
Lemma readLoop_recv_safe (r : read_result) (c : liveWebsocketClient) :
  holds_transport c -> safely c (readLoop_recv r c).
Proof.
  intros Hl. unfold readLoop_recv. destruct r as [buf | err | err].
  - pose proof (parse_never_blocks buf) as Hp.
    destruct (parseWsProtoMsg buf) as [[p [e |]]| |];
      [| | exact I | congruence]; act_step; now apply safely_quiet.
  - rewrite bind_emit.
    rewrite (bind_run _ _ _ _ _ _ (internalClose_run (Some err) c)).
    act_step. cbn [safely].
    apply step_ok_torn_down; rewrite app_nil_r; cbn [frames sends];
      [apply teardown_effects_frames | apply teardown_effects_sends].
  - act_step. now apply safely_quiet.
Qed.

Lemma readLoop_entry_safe (c : liveWebsocketClient) :
  holds_transport c -> safely c (readLoop_entry c).
Proof.
  intros Hl. unfold readLoop_entry. rewrite bind_field.
  destruct (conn c); act_step; now apply safely_quiet.
Qed.

Lemma reader_wakes_safe (r : read_result) (g : routines)
    (c : liveWebsocketClient) :
  holds_transport c -> safely c (reader_wakes r g c).
Proof.
  intros Hl. unfold reader_wakes.
  destruct (reader g); [| now apply safely_ret].
  apply safely_bind; [now apply readLoop_recv_safe |].
  intros [msg continue] c1 t1 _ Hl1. destruct msg as [m |].
  - destruct (dispatcher g); [| now apply safely_ret].
    apply safely_bind; [now apply dispatch_safe |].
    intros d c2 t2 _ Hl2.
    apply safely_bind; [now apply readLoop_entry_safe |].
    intros; now apply safely_ret.
  - apply safely_bind; [| intros; now apply safely_ret].
    destruct continue; [now apply readLoop_entry_safe | now apply safely_ret].
Qed.

Lemma dispatcher_wakes_safe (ev : loop_event) (g : routines)
    (c : liveWebsocketClient) :
  holds_transport c -> safely c (dispatcher_wakes ev g c).
Proof.
  intros Hl. unfold dispatcher_wakes.
  destruct (dispatcher g); [| now apply safely_ret].
  rewrite bind_field.
  destruct ev as [| t | msg];
    [destruct (loopCancel c); [now apply safely_ret |] | |];
    (apply safely_bind; [now apply dispatch_safe |]);
    intros; now apply safely_ret.
Qed.

Lemma Close_safe (closed : option error) (c : liveWebsocketClient) :
  holds_transport c -> safely c (Close closed c).
Proof.
  intros Hl. destruct (conn c) as [cn |] eqn:Hconn.
  - rewrite (Close_open closed c) by congruence. cbn [safely].
    apply step_ok_torn_down; cbn [frames sends];
      [apply teardown_effects_frames | apply teardown_effects_sends].
  - rewrite (Close_closed closed c Hconn). now apply safely_quiet.
Qed.

Lemma conn_step_safe (ev : conn_event) (g : routines)
    (c : liveWebsocketClient) :
  holds_transport c -> safely c (conn_step ev g c).
Proof.
  intros Hl. destruct ev as [e | r | closed status woken]; cbn [conn_step].
  - now apply dispatcher_wakes_safe.
  - now apply reader_wakes_safe.
  - rewrite bind_field.
    apply safely_bind; [now apply Close_safe |].
    intros r c1 t1 _ Hl1.
    destruct (conn c); [now apply reader_wakes_safe | now apply safely_ret].
Qed.

Lemma conn_steps_safe (evs : list conn_event) (g : routines)
    (c : liveWebsocketClient) :
  holds_transport c -> safely c (conn_steps evs g c).
Proof.
  revert g c. induction evs as [| ev evs IH]; intros g c Hl;
    cbn [conn_steps].
  - now apply safely_ret.
  - apply safely_bind; [now apply conn_step_safe |].
    intros g1 c1 t1 _ Hl1. now apply IH.
Qed.


(** X14.  An idle connection stays idle and silent: whatever ticks,
    frames, reads and closes reach it before the next [connect], and
    wherever its loops stand, a run that returns builds no frame,
    writes no byte, and leaves the state Idle. *)
Theorem idle_connection_stays_silent (c c' : liveWebsocketClient)
    (evs : list conn_event) (g g' : routines) (tr : list effect) :
  state c = websocketClientStateIdle ->
  conn_steps evs g c = Ret (g', c', tr) ->
  state c' = websocketClientStateIdle
  /\ frames tr = [] /\ sends tr = [].
Proof.
  intros Hst Hrun.
  pose proof (conn_steps_safe evs g c ltac:(intros Hne; congruence)) as Hsafe.
  rewrite Hrun in Hsafe. cbn [safely] in Hsafe.
  destruct Hsafe as (_ & _ & Hidle). exact (Hidle Hst).
Qed.

(** X24.  Outside [connect] the state only moves forward: over any run
    of events that returns, a connection keeps its state, or passes
    from AwaitingAuth to Active, or falls to Idle; so an Active
    connection never awaits authentication again, and only [connect]
    leaves Idle. *)
Theorem state_only_moves_forward (c c' : liveWebsocketClient)
    (evs : list conn_event) (g g' : routines) (tr : list effect) :
  (state c <> websocketClientStateIdle -> conn c <> None) ->
  conn_steps evs g c = Ret (g', c', tr) ->
  state c' = state c
  \/ (state c = websocketClientStateAuth
      /\ state c' = websocketClientStateActive)
  \/ state c' = websocketClientStateIdle.
Proof.
  intros Hlive Hrun.
  pose proof (conn_steps_safe evs g c Hlive) as Hsafe.
  rewrite Hrun in Hsafe. cbn [safely] in Hsafe.
  exact (proj1 (proj2 Hsafe)).
Qed.

End Safety.


Lemma idle_connection_stays_silent_witness :
  state (torn_down active_ws) = websocketClientStateIdle
  /\ conn_steps [Loop LoopCtxDone; tick;
                 CallClose None true (External "status 1000")]
       {| reader := false; dispatcher := true |} (torn_down active_ws)
     = Ret (not_running, torn_down active_ws, [])
  /\ frames ([] : list effect) = [] /\ sends ([] : list effect) = [].
Proof.
  assert (Hrun : conn_steps [Loop LoopCtxDone; tick;
                             CallClose None true (External "status 1000")]
                   {| reader := false; dispatcher := true |}
                   (torn_down active_ws)
                 = Ret (not_running, torn_down active_ws, []))
    by reflexivity.
  assert (Hst : state (torn_down active_ws) = websocketClientStateIdle)
    by reflexivity.
  split; [exact Hst |]. split; [exact Hrun |].
  exact (proj2 (idle_connection_stays_silent _ _ _ _ _ _ Hst Hrun)).
Defined.

Section TeardownRace.
Context `{Json}.

(** [Close] on an open connection whose read loop is parked: the
    deferred teardown, then the read loop on the error that ended its
    [conn.Read]. *)
Lemma CallClose_open (closed : option error) (status : bool) (woken : error)
    (g : routines) (c : liveWebsocketClient) :
  conn c <> None -> reader g = true ->
  conn_step (CallClose closed status woken) g c
  = Ret ({| reader := false; dispatcher := dispatcher g |}, torn_down c,
         (EConnClose :: teardown_effects None c)
         ++ (if status
             then ELog LInfo "connection receive close message"
                  :: (if onClose c then [EOnClose (Some woken)] else [])
             else [ELog LWarn "failed to read message from conn";
                   ELog LInfo "connection is closed. exit read loop"])).
Proof.
  intros Hopen Hrd. cbn [conn_step]. rewrite bind_field.
  pose proof (Close_open closed c Hopen) as Hfirst.
  destruct (conn c) as [cn |] eqn:Hc; [| congruence].
  rewrite (bind_run _ _ _ _ _ _ Hfirst).
  unfold reader_wakes. rewrite Hrd. destruct status.
  - assert (Hrecv : readLoop_recv (ReadClosed woken) (torn_down c)
                    = Ret ((None, false), torn_down c,
                           ELog LInfo "connection receive close message"
                           :: (if onClose c then [EOnClose (Some woken)]
                               else []))).
    { unfold readLoop_recv. rewrite bind_emit.
      rewrite (bind_run _ _ _ _ _ _
                 (internalClose_run (Some woken) (torn_down c))).
      rewrite ret_run. unfold teardown_effects.
      cbn [loopCancel heartbeatTicker onClose torn_down with_trace app].
      now rewrite app_nil_r. }
    rewrite (bind_run _ _ _ _ _ _ Hrecv). cbv iota beta.
    rewrite bind_ret, ret_run. cbn [with_trace]. now rewrite app_nil_r.
  - assert (Hrecv : readLoop_recv (ReadFailed woken) (torn_down c)
                    = Ret ((None, true), torn_down c,
                           [ELog LWarn "failed to read message from conn"]))
      by reflexivity.
    rewrite (bind_run _ _ _ _ _ _ Hrecv). cbv iota beta.
    assert (Hentry : readLoop_entry (torn_down c)
                     = Ret (false, torn_down c,
                            [ELog LInfo "connection is closed. exit read loop"]))
      by reflexivity.
    rewrite (bind_run _ _ _ _ _ _ Hentry), ret_run.
    cbn [with_trace app]. reflexivity.
Qed.

Lemma lifetime_connected (c0 c1 : liveWebsocketClient) (cn : Conn) (t : tx)
    (evs : list conn_event) (r : option error) (tr1 : list effect) :
  state c0 = websocketClientStateIdle ->
  connect (DialOk cn) t c0 = Ret (r, c1, tr1) ->
  lifetime (DialOk cn) t evs c0
  = with_trace tr1 ((conn_steps evs parked ≫= λ _, mret tt) c1).
Proof.
  intros Hst Hconn. unfold lifetime.
  rewrite bind_field, Hst. cbn [state_eqb state_code Z.eqb].
  now rewrite (bind_run _ _ _ _ _ _ Hconn).
Qed.

(** X27.  After [Close] on an open connection the dispatch loop is
    still parked in [select], with the context done and the ticker
    cleared.  If [select] takes a tick that was already waiting rather
    than the cancellation, the turn runs and the loop panics on the nil
    ticker when it comes round to [select]; if it takes the
    cancellation, the loop returns and the later tick reaches no
    one. *)
Theorem tick_after_Close_panics (c0 : liveWebsocketClient) (cn : Conn)
    (t : tx) (evs : list conn_event) (c : liveWebsocketClient)
    (tr : list effect) (closed : option error) (status : bool)
    (woken : error) (tk : tx) :
  state c0 = websocketClientStateIdle ->
  lifetime (DialOk cn) t evs c0 = Ret (tt, c, tr) ->
  conn c <> None ->
  lifetime (DialOk cn) t
    (evs ++ [CallClose closed status woken; Loop (HeartbeatTick tk)]) c0
  = Panic NilPointerDereference
  /\ exists tr',
      lifetime (DialOk cn) t
        (evs ++ [CallClose closed status woken; Loop LoopCtxDone;
                 Loop (HeartbeatTick tk)]) c0
      = Ret (tt, torn_down c, tr').
Proof.
  intros Hst Hrun Hopen.
  destruct (lifetime_dialed c0 cn t evs c tr Hst Hrun)
    as (r & tr1 & g & tr2 & Hconn & _ & Hsteps & ->).
  assert (Hw0 : wired (connected cn c0)) by (intros _; split; reflexivity).
  assert (Hp0 : loops_parked parked (connected cn c0))
    by (intros _; split; reflexivity).
  destruct (conn_steps_parked evs _ _ _ _ _ Hw0 Hp0 Hsteps Hopen)
    as [Hrd Hdp].
  pose proof (CallClose_open closed status woken g c Hopen Hrd) as Hclose.
  rewrite Hdp in Hclose.
  assert (Hturn : eventLoop_turn (HeartbeatTick tk) (torn_down c)
                  = Ret (true, torn_down c, [])).
  { cbn [eventLoop_turn].
    rewrite (bind_run _ _ _ _ _ _
               (sendHeartbeat_skips tk (torn_down c) ltac:(discriminate))).
    reflexivity. }
  assert (Htick : conn_step (Loop (HeartbeatTick tk))
                    {| reader := false; dispatcher := true |} (torn_down c)
                  = Panic NilPointerDereference).
  { cbn [conn_step]. unfold dispatcher_wakes. cbn [dispatcher].
    rewrite bind_field. unfold mbind at 1, Act_bind at 1.
    now rewrite (dispatch_panics _ _ _ _ Hturn eq_refl). }
  assert (Hdone : conn_step (Loop LoopCtxDone)
                    {| reader := false; dispatcher := true |} (torn_down c)
                  = Ret (not_running, torn_down c, []))
    by reflexivity.
  assert (Hlate : conn_step (Loop (HeartbeatTick tk)) not_running
                    (torn_down c)
                  = Ret (not_running, torn_down c, []))
    by reflexivity.
  split.
  - rewrite (lifetime_connected _ _ _ _ _ _ _ Hst Hconn).
    unfold mbind at 1, Act_bind at 1.
    rewrite (conn_steps_app _ _ _ _ _ _ _ Hsteps). cbn [conn_steps].
    rewrite (bind_run _ _ _ _ _ _ Hclose).
    unfold mbind at 1, Act_bind at 1. rewrite Htick. reflexivity.
  - eexists.
    rewrite (lifetime_connected _ _ _ _ _ _ _ Hst Hconn).
    unfold mbind at 1, Act_bind at 1.
    rewrite (conn_steps_app _ _ _ _ _ _ _ Hsteps). cbn [conn_steps].
    rewrite (bind_run _ _ _ _ _ _ Hclose).
    rewrite (bind_run _ _ _ _ _ _ Hdone).
    rewrite (bind_run _ _ _ _ _ _ Hlate).
    cbn [with_trace mret Act_ret]. reflexivity.
Qed.

End TeardownRace.

Lemma tick_after_Close_panics_witness :
  state fresh_ws = websocketClientStateIdle
  /\ (exists c tr,
        lifetime (DialOk (Dialed "wss://example")) (TxWriter 6) short_life
          fresh_ws = Ret (tt, c, tr)
        /\ conn c <> None)
  /\ lifetime (DialOk (Dialed "wss://example")) (TxWriter 6)
       (short_life ++ [CallClose None true (External "status 1000"); tick])
       fresh_ws
     = Panic NilPointerDereference.
Proof.
  assert (Hrun : lifetime (DialOk (Dialed "wss://example")) (TxWriter 6)
                   short_life fresh_ws
                 = Ret (tt,
                        set_seqID 3 (set_state websocketClientStateActive
                          (connected (Dialed "wss://example") fresh_ws)),
                        _)) by (vm_compute; reflexivity).
  assert (Hopen : conn (set_seqID 3 (set_state websocketClientStateActive
                          (connected (Dialed "wss://example") fresh_ws)))
                  <> None) by discriminate.
  split; [reflexivity |].
  split; [eexists _, _; split; [exact Hrun | exact Hopen] |].
  exact (proj1 (tick_after_Close_panics fresh_ws (Dialed "wss://example")
                  (TxWriter 6) short_life _ _ None true
                  (External "status 1000") (TxWriter 6)
                  eq_refl Hrun Hopen)).
Defined.

(* ------------------------------------------------------------------ *)
(** ** More on the client facade                                        *)
(* ------------------------------------------------------------------ *)

(** A transport writer that takes six writes takes the whole frame. *)
Lemma write_conn_writer (n : nat) (p : wsProtoMsg) :
  (6 <= n)%nat ->
  writeWsProtoMsg {| sent := []; budget := n |} p
  = ({| sent := encode p; budget := n - 6 |}, None).
Proof.
  intros Hn.
  do 6 (destruct n as [| n]; [lia |]).
  cbn [Nat.sub]. rewrite Nat.sub_0_r. reflexivity.
Qed.

(** What [connect] returns on a client [connectWs] has just built. *)
Lemma connect_new_ws (d : dial_result) (t : tx) (u a : string) (dm cl : bool) :
  (exists err,
      d = DialFail err
      /\ connect d t (new_ws u a dm cl)
         = Ret (Some (Wrapf "dial fail: %w" err), new_ws u a dm cl, []))
  \/ (exists cn r tr,
      d = DialOk cn
      /\ connect d t (new_ws u a dm cl)
         = Ret (r, connected cn (new_ws u a dm cl), tr)
      /\ frames tr
         = [ {| Version := 0; Operation := wsProtoOpAuth; SequenceID := 0;
                Body := list_byte_of_string a |} ]).
Proof.
  destruct d as [err | cn].
  - left. exists err. split; reflexivity.
  - right.
    destruct (connect_dialed cn t (new_ws u a dm cl) eq_refl)
      as (r & tr & Hrun & Hfr).
    exists cn, r, tr. auto.
Qed.

Lemma connect_writes_auth (cn : Conn) (n : nat) (u a : string) (dm cl : bool) :
  (6 <= n)%nat ->
  let auth := {| Version := 0; Operation := wsProtoOpAuth; SequenceID := 0;
                 Body := list_byte_of_string a |} in
  connect (DialOk cn) (TxWriter n) (new_ws u a dm cl)
  = Ret (None, connected cn (new_ws u a dm cl),
         [EGo "readLoop"; EGo "eventLoop"; EFrame auth; ESend (encode auth)]).
Proof.
  intros Hn auth. unfold connect.
  rewrite bind_field. cbn [state new_ws state_eqb state_code Z.eqb negb].
  act_step.
  assert (Hsend : forall c,
            state c = websocketClientStateAuth -> conn c <> None ->
            seqID c = 0 -> authBody c = a ->
            sendAuth (TxWriter n) c
            = Ret (None, set_seqID (int32 (0 + 1)) c,
                   [EFrame auth; ESend (encode auth)])).
  { intros c Hst Hc Hs Ha. unfold sendAuth.
    rewrite bind_field, Hst. cbn [state_eqb state_code Z.eqb Pos.eqb negb].
    rewrite bind_field, Ha.
    rewrite (bind_run _ _ _ _ _ _ (createMsg_run _ _ _)). rewrite Hs.
    unfold writeMsg. rewrite bind_field.
    cbn [conn set_seqID]. destruct (conn c) as [cn' |]; [| congruence].
    fold auth. rewrite (write_conn_writer n auth Hn).
    act_step. reflexivity. }
  match goal with
  | |- context [(sendAuth _ ≫= _) ?c1] =>
      rewrite (bind_run _ _ _ _ _ _
                 (Hsend c1 eq_refl ltac:(discriminate) eq_refl eq_refl))
  end.
  act_step. reflexivity.
Qed.

(** X15.  [Connect] on an idle facade with nothing left from an earlier
    session, when the bootstrap call succeeds with at least one
    endpoint, the dial succeeds and the transport takes the frame:
    it returns no error, the facade is active with the mutex released,
    the connection it owns was built for the first endpoint and awaits
    the AUTH_ACK, and the one frame sent is the AUTH frame, sequence ID
    0, whose body is the bootstrap's auth payload byte for byte. *)
Theorem Connect_uses_first_endpoint (c : LiveClient) (code : string)
    (rsp : CommonResponse appStartData) (closed : option error) (cn : Conn)
    (n : nat) (link : string) (others : list string) :
  mu c = false ->
  clientState_ c = clientStateIdle ->
  wsClient c = None ->
  rsp_Code rsp = 0 ->
  WSSLink (WebsocketInfo (rsp_Data rsp)) = link :: others ->
  (6 <= n)%nat ->
  let auth :=
    {| Version := 0; Operation := wsProtoOpAuth; SequenceID := 0;
       Body := list_byte_of_string (AuthBody (WebsocketInfo (rsp_Data rsp))) |} in
  exists c' tr ws,
    Connect code (ApiRsp rsp) closed (DialOk cn) (TxWriter n) c
    = Ret (None, c', tr)
    /\ IsActive c' = true /\ mu c' = false
    /\ gameID c' = GameID (GameInfo (rsp_Data rsp))
    /\ wsClient c' = Some ws
    /\ url ws = link
    /\ state ws = websocketClientStateAuth
    /\ conn ws = Some cn
    /\ frames tr = [auth]
    /\ sends tr = [encode auth].
Proof.
  intros Hmu Hst Hws Hcode Hlinks Hn auth.
  unfold Connect. rewrite Hmu. cbn [clientState_ set_mu]. rewrite Hst.
  unfold callAppStart, CommonResponse_Err. rewrite Hcode. cbn [Z.eqb negb].
  unfold connectWs.
  cbn [wsClient wsInfo set_clientState set_start set_liveCode set_mu].
  rewrite Hws. cbn [mbind outcome_bind].
  cbn [wsInfo set_clientState set_start set_liveCode set_mu OnDanmaku].
  rewrite Hlinks.
  rewrite (connect_writes_auth cn n link _ (OnDanmaku c) true Hn).
  cbn [mbind outcome_bind]. fold auth.
  do 3 eexists. split; [reflexivity |].
  repeat split.
Qed.

(** X16.  A dial that fails leaves the facade active: [Connect]
    returns the dial error wrapped three times, [IsActive] is true
    although no transport is open, every further [Connect] is refused
    with the state error and changes nothing, and [Disconnect] then
    brings the facade back to idle with the session ended. *)
Theorem failed_dial_leaves_facade_active (c : LiveClient) (code : string)
    (rsp : CommonResponse appStartData) (closed : option error) (err : error)
    (t : tx) (link : string) (others : list string) :
  mu c = false ->
  clientState_ c = clientStateIdle ->
  wsClient c = None ->
  rsp_Code rsp = 0 ->
  WSSLink (WebsocketInfo (rsp_Data rsp)) = link :: others ->
  exists c',
    Connect code (ApiRsp rsp) closed (DialFail err) t c
    = Ret (Some (Wrapf "connect ws fail: %w"
                   (Wrapf "connect websocket fail: %w"
                      (Wrapf "dial fail: %w" err))),
           c', [ELog LError "connect websocket fail"])
    /\ IsActive c' = true
    /\ (forall code' start' closed' d' t',
          Connect code' start' closed' d' t' c'
          = Ret (Some (Errorf "client state should be idle" []), c', []))
    /\ (forall endr closed',
          exists c'' tr,
            Disconnect endr closed' c' = Ret (None, c'', tr)
            /\ IsActive c'' = false /\ wsClient c'' = None /\ mu c'' = false).
Proof.
  intros Hmu Hst Hws Hcode Hlinks.
  unfold Connect at 1. rewrite Hmu. cbn [clientState_ set_mu]. rewrite Hst.
  unfold callAppStart, CommonResponse_Err. rewrite Hcode. cbn [Z.eqb negb].
  unfold connectWs.
  cbn [wsClient wsInfo set_clientState set_start set_liveCode set_mu].
  rewrite Hws. cbn [mbind outcome_bind].
  cbn [wsInfo set_clientState set_start set_liveCode set_mu OnDanmaku].
  rewrite Hlinks.
  change (connect (DialFail err) t
            (new_ws link (AuthBody (WebsocketInfo (rsp_Data rsp)))
               (OnDanmaku c) true))
    with (Ret (A := option error * liveWebsocketClient * list effect)
            (Some (Wrapf "dial fail: %w" err),
             new_ws link (AuthBody (WebsocketInfo (rsp_Data rsp)))
               (OnDanmaku c) true, [])).
  cbn [mbind outcome_bind app].
  eexists. split; [reflexivity |].
  split; [reflexivity |]. split.
  - intros code' start' closed' d' t'. destruct c; cbn in *; subst.
    reflexivity.
  - intros endr closed'. unfold Disconnect.
    cbn [mu set_mu set_wsClient set_clientState wsClient clientState_].
    rewrite (Close_closed closed'
               (new_ws link (AuthBody (WebsocketInfo (rsp_Data rsp)))
                  (OnDanmaku c) true) eq_refl).
    cbn [mbind outcome_bind notifies_owner close_notifications].
    do 2 eexists. split; [reflexivity |]. repeat split.
Qed.

Lemma release_mutex (c : LiveClient) :
  mu c = false -> set_mu false (set_mu true c) = c.
Proof. intros Hmu. destruct c; cbn in *; now subst. Qed.

(** X17.  When the bootstrap call fails, in transport or with a nonzero
    response code, [Connect] returns that cause wrapped, dials nothing,
    and leaves the facade idle with the mutex released: only the
    identity code is kept, and [Connect] may be called again. *)
Theorem bootstrap_failure_keeps_facade_idle (c : LiveClient) (code : string)
    (start : api_result appStartData) (cause : error)
    (closed : option error) (d : dial_result) (t : tx) :
  mu c = false ->
  clientState_ c = clientStateIdle ->
  (start = ApiFail cause
   \/ exists rsp,
       start = ApiRsp rsp /\ rsp_Code rsp <> 0
       /\ cause = CommonError (rsp_Code rsp) (rsp_Message rsp)
                    (rsp_RequestID rsp)) ->
  Connect code start closed d t c
  = Ret (Some (Wrapf "start app fail: %w" cause), set_liveCode code c, [])
  /\ IsActive (set_liveCode code c) = false
  /\ mu (set_liveCode code c) = false
  /\ wsClient (set_liveCode code c) = wsClient c.
Proof.
  intros Hmu Hst Hstart.
  assert (Hc : set_mu false (set_liveCode code (set_mu true c))
               = set_liveCode code c)
    by (destruct c; cbn in *; now subst).
  split; [| split; [| split]].
  - unfold Connect. rewrite Hmu. cbn [clientState_ set_mu]. rewrite Hst.
    destruct Hstart as [-> | (rsp & -> & Hcode & ->)].
    + cbn [callAppStart]. now rewrite Hc.
    + unfold callAppStart, CommonResponse_Err.
      destruct (Z.eqb_spec (rsp_Code rsp) 0); [contradiction |].
      cbn [negb]. now rewrite Hc.
  - unfold IsActive. cbn [clientState_ set_liveCode]. now rewrite Hst.
  - exact Hmu.
  - reflexivity.
Qed.

(** A [connectWs] that returns no error leaves a connection with an
    open transport and the facade's close handler. *)
Lemma connectWs_success (closed : option error) (d : dial_result) (t : tx)
    (c1 c2 : LiveClient) (tr : list effect) :
  connectWs closed d t c1 = Ret (None, c2, tr) ->
  mu c2 = mu c1
  /\ clientState_ c2 = clientState_ c1
  /\ exists ws,
      wsClient c2 = Some ws /\ conn ws <> None /\ onClose ws = true.
Proof.
  unfold connectWs.
  assert (Hphase : forall c3 tr0,
    match WSSLink (wsInfo c3) with
    | [] => Panic IndexOutOfRange
    | link :: _ =>
        connect d t (new_ws link (AuthBody (wsInfo c3)) (OnDanmaku c3) true)
        ≫= (λ '(err, ws', tr1),
              let c4 := set_wsClient (Some ws') c3 in
              match err with
              | Some e =>
                  Ret (Some (Wrapf "connect websocket fail: %w" e), c4,
                       tr0 ++ tr1 ++ [ELog LError "connect websocket fail"])
              | None => Ret (None, c4, tr0 ++ tr1)
              end)
    end = Ret (None, c2, tr) ->
    mu c2 = mu c3 /\ clientState_ c2 = clientState_ c3
    /\ exists ws, wsClient c2 = Some ws /\ conn ws <> None
                  /\ onClose ws = true).
  { intros c3 tr0.
    destruct (WSSLink (wsInfo c3)) as [| link others]; [discriminate |].
    destruct (connect_new_ws d t link (AuthBody (wsInfo c3)) (OnDanmaku c3)
                true)
      as [(err & -> & Hrun) | (cn & r & tr1 & -> & Hrun & _)];
      rewrite Hrun; cbn [mbind outcome_bind]; [discriminate |].
    destruct r as [e |]; [discriminate |].
    intros Hret. inversion Hret; subst.
    split; [reflexivity |]. split; [reflexivity |].
    eexists. split; [reflexivity |]. split; [discriminate | reflexivity]. }
  destruct (wsClient c1) as [ws |].
  - destruct (Close closed ws) as [[[err ws'] tr1]| |];
      cbn [mbind outcome_bind]; try discriminate.
    destruct (notifies_owner tr1); cbn [mbind outcome_bind];
      [discriminate |].
    intros Hret. apply Hphase in Hret. exact Hret.
  - cbn [mbind outcome_bind]. apply Hphase.
Qed.

(** A successful [Connect] leaves the facade active, the mutex
    released, and such a connection. *)
Lemma Connect_success (c0 : LiveClient) (code : string)
    (start : api_result appStartData) (closed : option error)
    (d : dial_result) (t : tx) (c : LiveClient) (tr : list effect) :
  Connect code start closed d t c0 = Ret (None, c, tr) ->
  mu c = false
  /\ clientState_ c = clientStateActive
  /\ exists ws,
      wsClient c = Some ws /\ conn ws <> None /\ onClose ws = true.
Proof.
  unfold Connect. destruct (mu c0); [discriminate |].
  cbn [clientState_ set_mu].
  destruct (clientState_ c0); [| discriminate].
  destruct (callAppStart start _) as [[e |] c1]; [discriminate |].
  destruct (connectWs closed d t (set_clientState clientStateActive c1))
    as [[[err c2] tr2]| |] eqn:Ews; cbn [mbind outcome_bind];
    try discriminate.
  destruct err as [e |]; [discriminate |].
  intros Hret. inversion Hret; subst.
  apply connectWs_success in Ews as (Hmu & Hst & ws & Hws & Hopen & Hcb).
  split; [reflexivity |]. split; [exact Hst |].
  exists ws. auto.
Qed.

Lemma Disconnect_open (endr : api_result unit) (closed : option error)
    (c : LiveClient) (ws : liveWebsocketClient) :
  mu c = false ->
  wsClient c = Some ws -> conn ws <> None -> onClose ws = true ->
  Disconnect endr closed c = Deadlock.
Proof.
  intros Hmu Hws Hopen Hcb. unfold Disconnect. rewrite Hmu.
  cbn [wsClient set_mu]. rewrite Hws.
  rewrite (Close_open closed ws Hopen). cbn [mbind outcome_bind].
  unfold teardown_effects. rewrite Hcb.
  destruct (loopCancel ws), (heartbeatTicker ws); reflexivity.
Qed.

(** X18.  [Disconnect] on a facade that [Connect] has connected never
    returns.  It closes the connection, whose teardown calls the
    facade's close handler, which calls [Disconnect] again while the
    first call still holds the mutex. *)
Theorem Disconnect_blocks_after_Connect (c0 : LiveClient) (code : string)
    (start : api_result appStartData) (closed0 : option error)
    (d : dial_result) (t : tx) (c : LiveClient) (tr : list effect)
    (endr : api_result unit) (closed : option error) :
  Connect code start closed0 d t c0 = Ret (None, c, tr) ->
  Disconnect endr closed c = Deadlock.
Proof.
  intros Hconn.
  destruct (Connect_success _ _ _ _ _ _ _ _ Hconn)
    as (Hmu & _ & ws & Hws & Hopen & Hcb).
  exact (Disconnect_open endr closed c ws Hmu Hws Hopen Hcb).
Qed.

(** [Disconnect] with nothing to close: the run it makes and the facade
    it leaves. *)
Lemma Disconnect_nothing_open (endr endr2 : api_result unit)
    (closed closed2 : option error) (c : LiveClient) :
  mu c = false ->
  (forall ws, wsClient c = Some ws -> conn ws = None) ->
  exists c' tr,
    Disconnect endr closed c = Ret (None, c', tr)
    /\ IsActive c' = false /\ wsClient c' = None /\ mu c' = false
    /\ owner_notifications tr = []
    /\ api_calls tr
       = (if IsActive c && negb (String.eqb (gameID c) "")
          then ["/v2/app/end"] else [])
    /\ Disconnect endr2 closed2 c' = Ret (None, c', []).
Proof.
  intros Hmu Hclosed. unfold Disconnect at 1. rewrite Hmu.
  cbn [wsClient clientState_ set_mu].
  assert (Hcalls : forall tr1,
    tr1 = match clientState_ c with
          | clientStateActive =>
              match callAppEnd endr (set_mu true c) with
              | (Some _, tr) => tr ++ [FLog LWarn "call app end fail"]
              | (None, tr) => tr
              end
          | clientStateIdle => []
          end ->
    owner_notifications tr1 = []
    /\ api_calls tr1 = (if IsActive c && negb (String.eqb (gameID c) "")
                        then ["/v2/app/end"] else [])).
  { intros tr1 ->. unfold IsActive, callAppEnd. cbn [clientState_ gameID set_mu].
    destruct (clientState_ c); [auto |].
    destruct (String.eqb (gameID c) ""); [auto |].
    destruct endr as [e | rsp]; [auto |].
    destruct (CommonResponse_Err rsp); auto. }
  destruct (wsClient c) as [ws |] eqn:Hws.
  - rewrite (Close_closed closed ws (Hclosed ws eq_refl)).
    cbn [mbind outcome_bind notifies_owner close_notifications map app].
    do 2 eexists. split; [reflexivity |].
    destruct (Hcalls _ eq_refl) as [Hn Ha].
    rewrite app_nil_r.
    split; [reflexivity |]. split; [reflexivity |]. split; [reflexivity |].
    split; [exact Hn |]. split; [exact Ha |].
    destruct c; cbn in *; subst. reflexivity.
  - do 2 eexists. split; [reflexivity |].
    destruct (Hcalls _ eq_refl) as [Hn Ha].
    split; [reflexivity |]. split; [exact Hws |]. split; [reflexivity |].
    split; [exact Hn |]. split; [exact Ha |].
    destruct c; cbn in *; subst. reflexivity.
Qed.

(** X19.  [Disconnect] on a facade that owns no connection, or one
    whose transport is already closed: it returns no error whatever the
    session-end call answers, leaves the facade idle with no connection
    and the mutex released, calls no close callback, and calls the
    session-end API exactly when the facade was active with a game ID;
    a second [Disconnect] then changes nothing and calls nothing. *)
Theorem Disconnect_releases (endr endr2 : api_result unit)
    (closed closed2 : option error) (c : LiveClient) :
  mu c = false ->
  (forall ws, wsClient c = Some ws -> conn ws = None) ->
  exists c' tr,
    Disconnect endr closed c = Ret (None, c', tr)
    /\ IsActive c' = false /\ wsClient c' = None /\ mu c' = false
    /\ owner_notifications tr = []
    /\ api_calls tr
       = (if IsActive c && negb (String.eqb (gameID c) "")
          then ["/v2/app/end"] else [])
    /\ Disconnect endr2 closed2 c' = Ret (None, c', []).
Proof.
  intros Hmu Hclosed.
  exact (Disconnect_nothing_open endr endr2 closed closed2 c Hmu Hclosed).
Qed.

Lemma owner_notifications_app (t1 t2 : list facade_effect) :
  owner_notifications (t1 ++ t2)
  = (owner_notifications t1 ++ owner_notifications t2)%list.
Proof.
  induction t1 as [| e t1 IH]; [reflexivity |].
  destruct e; cbn [owner_notifications app]; now rewrite IH.
Qed.

Lemma api_calls_app (t1 t2 : list facade_effect) :
  api_calls (t1 ++ t2) = (api_calls t1 ++ api_calls t2)%list.
Proof.
  induction t1 as [| e t1 IH]; [reflexivity |].
  destruct e; cbn [api_calls app]; now rewrite IH.
Qed.

Lemma FConn_quiet (tr : list effect) :
  owner_notifications (map FConn tr) = [] /\ api_calls (map FConn tr) = [].
Proof. induction tr as [| e tr [IH1 IH2]]; split; auto. Qed.

(** X20.  When the transport of a connected facade closes, the read
    loop's teardown reaches the facade: the session-end API is called
    once if there is a game ID, the facade ends idle with no connection
    and the mutex released, and the caller's [OnClose], if registered,
    is called exactly once, with the transport's error. *)
Theorem transport_close_ends_session (c0 : LiveClient) (code : string)
    (start : api_result appStartData) (closed0 : option error)
    (d : dial_result) (t : tx) (c : LiveClient) (tr : list effect)
    (err : error) (endr : api_result unit) (closed : option error) :
  Connect code start closed0 d t c0 = Ret (None, c, tr) ->
  exists c' tr',
    transport_closed err endr closed c = Ret (c', tr')
    /\ IsActive c' = false /\ wsClient c' = None /\ mu c' = false
    /\ owner_notifications tr'
       = (if OnClose c then [Some err] else [])
    /\ api_calls tr'
       = (if String.eqb (gameID c) "" then [] else ["/v2/app/end"]).
Proof.
  intros Hconn.
  destruct (Connect_success _ _ _ _ _ _ _ _ Hconn)
    as (Hmu & Hst & ws & Hws & Hopen & Hcb).
  unfold transport_closed. rewrite Hws.
  assert (Hturn : readLoop_turn (ReadClosed err) ws
                  = Ret ((None, false), torn_down ws,
                         ELog LInfo "connection receive close message"
                         :: teardown_effects (Some err) ws)).
  { unfold readLoop_turn. rewrite bind_field.
    destruct (conn ws) as [cn |]; [| congruence].
    unfold readLoop_recv. rewrite bind_emit.
    rewrite (bind_run _ _ _ _ _ _ (internalClose_run (Some err) ws)).
    rewrite ret_run. cbn [with_trace app]. now rewrite app_nil_r. }
  rewrite Hturn. cbn [mbind outcome_bind].
  assert (Hnote : close_notifications
                    (ELog LInfo "connection receive close message"
                     :: teardown_effects (Some err) ws) = [Some err]).
  { unfold teardown_effects. rewrite Hcb.
    destruct (loopCancel ws), (heartbeatTicker ws); reflexivity. }
  rewrite Hnote.
  destruct (Disconnect_nothing_open endr endr closed closed
              (set_wsClient (Some (torn_down ws)) c) Hmu)
    as (c' & tr1 & Hdis & Hidle & Hnone & Hfree & Hown & Hcalls & _).
  { intros ws' Hws'. cbn in Hws'. now injection Hws' as <-. }
  unfold onWsClose. rewrite Hdis. cbn [mbind outcome_bind].
  do 2 eexists. split; [reflexivity |].
  split; [exact Hidle |]. split; [exact Hnone |]. split; [exact Hfree |].
  destruct (FConn_quiet (ELog LInfo "connection receive close message"
                         :: teardown_effects (Some err) ws)) as [Hq1 Hq2].
  assert (Hsame : OnClose c' = OnClose c /\ gameID c' = gameID c).
  { unfold Disconnect in Hdis. cbn [mu set_wsClient] in Hdis.
    rewrite Hmu in Hdis.
    cbn [wsClient set_wsClient set_mu] in Hdis.
    rewrite (Close_closed closed (torn_down ws) eq_refl) in Hdis.
    cbn [mbind outcome_bind notifies_owner close_notifications] in Hdis.
    inversion Hdis; subst. split; reflexivity. }
  destruct Hsame as [Hoc Hgid].
  split.
  - rewrite !owner_notifications_app, Hq1, Hown, Hoc.
    destruct (OnClose c); reflexivity.
  - rewrite !api_calls_app, Hq2, Hcalls.
    unfold IsActive. cbn [clientState_ set_wsClient gameID]. rewrite Hst.
    cbn [andb]. destruct (String.eqb (gameID c) ""); cbn [negb];
      destruct (OnClose c'); reflexivity.
Qed.

Lemma Connect_uses_first_endpoint_witness :
  exists c' tr ws,
    Connect "code" (ApiRsp start_with_endpoint) None
      (DialOk (Dialed "wss://a")) (TxWriter 6) fresh_client
    = Ret (None, c', tr)
    /\ wsClient c' = Some ws /\ url ws = "wss://a"
    /\ frames tr
       = [ {| Version := 0; Operation := wsProtoOpAuth; SequenceID := 0;
              Body := list_byte_of_string "auth" |} ].
Proof.
  destruct (Connect_uses_first_endpoint fresh_client "code"
              start_with_endpoint None (Dialed "wss://a") 6
              "wss://a" ["wss://b"] eq_refl eq_refl eq_refl eq_refl eq_refl
              ltac:(lia))
    as (c' & tr & ws & Hrun & _ & _ & _ & Hws & Hurl & _ & _ & Hfr & _).
  exists c', tr, ws. auto.
Defined.

Lemma failed_dial_leaves_facade_active_witness :
  exists c',
    Connect "code" (ApiRsp start_with_endpoint) None
      (DialFail (External "refused")) (TxWriter 6) fresh_client
    = Ret (Some (Wrapf "connect ws fail: %w"
                   (Wrapf "connect websocket fail: %w"
                      (Wrapf "dial fail: %w" (External "refused")))),
           c', [ELog LError "connect websocket fail"])
    /\ IsActive c' = true.
Proof.
  destruct (failed_dial_leaves_facade_active fresh_client "code"
              start_with_endpoint None (External "refused") (TxWriter 6)
              "wss://a" ["wss://b"] eq_refl eq_refl eq_refl eq_refl eq_refl)
    as (c' & Hrun & Hact & _).
  exists c'. auto.
Defined.

Lemma bootstrap_failure_keeps_facade_idle_witness :
  Connect "code" (ApiFail (External "timeout")) None
    (DialOk (Dialed "wss://a")) (TxWriter 6) fresh_client
  = Ret (Some (Wrapf "start app fail: %w" (External "timeout")),
         set_liveCode "code" fresh_client, []).
Proof.
  refine (proj1 (bootstrap_failure_keeps_facade_idle fresh_client "code"
                   (ApiFail (External "timeout")) (External "timeout") None
                   (DialOk (Dialed "wss://a")) (TxWriter 6)
                   eq_refl eq_refl _)).
  left. reflexivity.
Defined.

Lemma Disconnect_blocks_after_Connect_witness :
  exists c tr,
    Connect "code" (ApiRsp start_with_endpoint) None
      (DialOk (Dialed "wss://a")) (TxWriter 6) fresh_client
    = Ret (None, c, tr)
    /\ Disconnect (ApiFail (External "timeout")) None c = Deadlock.
Proof.
  eexists _, _.
  assert (Hrun : Connect "code" (ApiRsp start_with_endpoint) None
                   (DialOk (Dialed "wss://a")) (TxWriter 6) fresh_client
                 = Ret (None, _, _)) by (vm_compute; reflexivity).
  split; [exact Hrun |].
  exact (Disconnect_blocks_after_Connect _ _ _ _ _ _ _ _
           (ApiFail (External "timeout")) None Hrun).
Defined.

Lemma Disconnect_releases_witness :
  exists c' tr,
    Disconnect (ApiFail (External "timeout")) None fresh_client
    = Ret (None, c', tr)
    /\ IsActive c' = false /\ api_calls tr = [].
Proof.
  destruct (Disconnect_releases (ApiFail (External "timeout"))
              (ApiFail (External "timeout")) None None fresh_client eq_refl)
    as (c' & tr & Hrun & Hidle & _ & _ & _ & Hcalls & _).
  { intros ws Hws. discriminate Hws. }
  exists c', tr. auto.
Defined.

Lemma transport_close_ends_session_witness :
  exists c tr c' tr',
    Connect "code" (ApiRsp start_with_endpoint) None
      (DialOk (Dialed "wss://a")) (TxWriter 6) fresh_client
    = Ret (None, c, tr)
    /\ transport_closed (External "status 1006")
         (ApiFail (External "timeout")) None c = Ret (c', tr')
    /\ IsActive c' = false
    /\ owner_notifications tr' = [Some (External "status 1006")]
    /\ api_calls tr' = ["/v2/app/end"].
Proof.
  eexists _, _.
  assert (Hrun : Connect "code" (ApiRsp start_with_endpoint) None
                   (DialOk (Dialed "wss://a")) (TxWriter 6) fresh_client
                 = Ret (None, _, _)) by (vm_compute; reflexivity).
  destruct (transport_close_ends_session _ _ _ _ _ _ _ _
              (External "status 1006") (ApiFail (External "timeout")) None
              Hrun)
    as (c' & tr' & Hclosed & Hidle & _ & _ & Hown & Hcalls).
  exists c', tr'. split; [exact Hrun |]. split; [exact Hclosed |].
  split; [exact Hidle |]. split; [exact Hown | exact Hcalls].
Defined.

(* ------------------------------------------------------------------ *)
(** ** More on the request signature                                    *)
(* ------------------------------------------------------------------ *)

Section MoreSignatureProperties.
Context `{Crypto}.

(** X21.  The signature depends on the secret and on the six signed
    header values only: two header sets that agree on those six sign
    alike, whatever else they carry. *)
Theorem GenerateSignature_reads_six_headers (appSecret : string)
    (h1 h2 : gmap string (list string)) :
  (forall name, In name signed_header_names ->
     Header_Get h1 name = Header_Get h2 name) ->
  GenerateSignature appSecret h1 = GenerateSignature appSecret h2.
Proof.
  intros Hagree. rewrite !GenerateSignature_signing_string.
  do 3 f_equal. unfold signing_string. f_equal.
  apply map_ext_in. intros name Hin. now rewrite (Hagree name Hin).
Qed.

(** The request [RoundTrip] hands over when nothing stops it. *)
Lemma RoundTrip_signed (t : ApiTransport) (ts rnd : Z) (r r' : Request) :
  RoundTrip t ts rnd r = Ret (inr r') ->
  exists h,
    r' = set_Header (Header_Set h "Authorization"
                       (GenerateSignature (t_AppSecret t) h)) r
    /\ (h = Header_Set
              (Header_Set
                 (Header_Set
                    (Header_Set
                       (Header_Set (Header r) HeaderBiliTimestamp
                          (FormatInt ts))
                       HeaderBiliSignatureMethod "HMAC-SHA256")
                    HeaderBiliSignatureNonce (FormatInt ts ++ pad8 rnd))
                 HeaderBiliAccessKeyId (t_AppKey t))
              HeaderBiliSignatureVersion "1.0"
        /\ Method r <> "POST"
        \/ exists body,
            Method r = "POST" /\ GetBody r = Some (inl body)
            /\ h = Header_Set
                     (Header_Set
                        (Header_Set
                           (Header_Set
                              (Header_Set
                                 (Header_Set (Header r) HeaderBiliTimestamp
                                    (FormatInt ts))
                                 HeaderBiliSignatureMethod "HMAC-SHA256")
                              HeaderBiliSignatureNonce
                              (FormatInt ts ++ pad8 rnd))
                           HeaderBiliAccessKeyId (t_AppKey t))
                        HeaderBiliSignatureVersion "1.0")
                     HeaderBiliContentMD5
                     (hex_EncodeToString (md5_sum body))).
Proof.
  unfold RoundTrip. intros Hrun.
  destruct (String.eqb_spec (Method r) "POST") as [Hpost | Hother].
  - destruct (GetBody r) as [[body | err] |]; cbn [mbind outcome_bind] in Hrun;
      try discriminate.
    inversion Hrun; subst. eexists. split; [reflexivity |].
    right. exists body. auto.
  - cbn [mbind outcome_bind] in Hrun. inversion Hrun; subst.
    eexists. split; [reflexivity |]. left. auto.
Qed.

(** X22.  Every request [RoundTrip] hands to the transport keeps its
    method and carries the timestamp in decimal, the method name
    HMAC-SHA256, the nonce made of the timestamp and the padded random
    number, the app key and the version 1.0, whatever the caller had
    put under those names; a POST also carries the hex MD5 of its body,
    any other request keeps the Content-MD5 it came with; and a header
    under any other name is left as it was. *)
Theorem RoundTrip_writes_signing_headers (t : ApiTransport) (ts rnd : Z)
    (r r' : Request) :
  RoundTrip t ts rnd r = Ret (inr r') ->
  Method r' = Method r
  /\ Header_Get (Header r') "X-Bili-Timestamp" = FormatInt ts
  /\ Header_Get (Header r') "X-Bili-Signature-Method" = "HMAC-SHA256"
  /\ Header_Get (Header r') "X-Bili-Signature-Nonce"
     = (FormatInt ts ++ pad8 rnd)%string
  /\ Header_Get (Header r') "X-Bili-AccessKeyId" = t_AppKey t
  /\ Header_Get (Header r') "X-Bili-Signature-Version" = "1.0"
  /\ (Method r = "POST" ->
      exists body,
        GetBody r = Some (inl body)
        /\ Header_Get (Header r') "X-Bili-Content-MD5"
           = hex_EncodeToString (md5_sum body))
  /\ (Method r <> "POST" ->
      Header_Get (Header r') "X-Bili-Content-MD5"
      = Header_Get (Header r) "X-Bili-Content-MD5")
  /\ (forall name,
      ~ In (CanonicalMIMEHeaderKey name)
           (map CanonicalMIMEHeaderKey written_headers) ->
      Header_Get (Header r') name = Header_Get (Header r) name).
Proof.
  intros Hrun.
  destruct (RoundTrip_signed t ts rnd r r' Hrun) as (h & -> & Hh).
  cbn [Method Header set_Header].
  split; [reflexivity |].
  assert (Hne : forall a b v (m : gmap string (list string)),
            CanonicalMIMEHeaderKey a <> CanonicalMIMEHeaderKey b ->
            Header_Get (Header_Set m a v) b = Header_Get m b)
    by (intros; now apply Header_Get_Set_ne).
  assert (Hother : forall name (m : gmap string (list string)) k v,
            ~ In (CanonicalMIMEHeaderKey name)
                 (map CanonicalMIMEHeaderKey written_headers) ->
            In k written_headers ->
            Header_Get (Header_Set m k v) name = Header_Get m name).
  { intros name m k v Hout Hin. apply Header_Get_Set_ne.
    intros Heq. apply Hout. rewrite <- Heq. now apply in_map. }
  destruct Hh as [[-> Hm] | (body & Hm & Hb & ->)].
  - repeat split.
    + rewrite !Hne by (vm_compute; discriminate). apply Header_Get_Set_eq.
    + rewrite !Hne by (vm_compute; discriminate). apply Header_Get_Set_eq.
    + rewrite !Hne by (vm_compute; discriminate). apply Header_Get_Set_eq.
    + rewrite !Hne by (vm_compute; discriminate). apply Header_Get_Set_eq.
    + rewrite !Hne by (vm_compute; discriminate). apply Header_Get_Set_eq.
    + intros Hp. contradiction.
    + intros _. now rewrite !Hne by (vm_compute; discriminate).
    + intros name Hout.
      rewrite !(Hother name) by (assumption || (cbn; tauto)). reflexivity.
  - repeat split.
    + rewrite !Hne by (vm_compute; discriminate). apply Header_Get_Set_eq.
    + rewrite !Hne by (vm_compute; discriminate). apply Header_Get_Set_eq.
    + rewrite !Hne by (vm_compute; discriminate). apply Header_Get_Set_eq.
    + rewrite !Hne by (vm_compute; discriminate). apply Header_Get_Set_eq.
    + rewrite !Hne by (vm_compute; discriminate). apply Header_Get_Set_eq.
    + intros _. exists body. split; [exact Hb |].
      rewrite !Hne by (vm_compute; discriminate). apply Header_Get_Set_eq.
    + intros Hp. contradiction.
    + intros name Hout.
      rewrite !(Hother name) by (assumption || (cbn; tauto)). reflexivity.
Qed.

(** X23.  What stops [RoundTrip] before the transport is the body of a
    POST alone: a POST built without [GetBody] panics on the nil
    function, a POST whose [GetBody] fails returns that error wrapped
    and sends nothing, and a request of any other method is always
    signed and handed over. *)
Theorem RoundTrip_stops_on_post_body (t : ApiTransport) (ts rnd : Z)
    (r : Request) :
  (Method r = "POST" -> GetBody r = None ->
   RoundTrip t ts rnd r = Panic NilPointerDereference)
  /\ (forall err, Method r = "POST" -> GetBody r = Some (inr err) ->
      RoundTrip t ts rnd r = Ret (inl (Wrapf "failed to get body: %w" err)))
  /\ (Method r <> "POST" -> exists r', RoundTrip t ts rnd r = Ret (inr r')).
Proof.
  unfold RoundTrip. split; [| split].
  - intros -> ->. reflexivity.
  - intros err -> ->. reflexivity.
  - intros Hm. destruct (String.eqb_spec (Method r) "POST"); [contradiction |].
    eexists. reflexivity.
Qed.

End MoreSignatureProperties.

Lemma GenerateSignature_reads_six_headers_witness :
  @GenerateSignature sample_crypto "secret"
    (Header_Set ∅ "Accept" "application/json")
  = @GenerateSignature sample_crypto "secret" ∅.
Proof.
  apply (@GenerateSignature_reads_six_headers sample_crypto).
  intros name Hin. unfold signed_header_names in Hin. cbn [In] in Hin.
  repeat (destruct Hin as [<- | Hin]; [reflexivity |]).
  contradiction.
Defined.

Lemma RoundTrip_writes_signing_headers_witness :
  exists r',
    @RoundTrip sample_crypto {| t_AppKey := "key"; t_AppSecret := "secret" |}
      1700000000 42 get_request = Ret (inr r')
    /\ Header_Get (Header r') "X-Bili-Signature-Method" = "HMAC-SHA256"
    /\ Header_Get (Header r') "Accept" = "application/json".
Proof.
  eexists.
  assert (Hrun : @RoundTrip sample_crypto
                   {| t_AppKey := "key"; t_AppSecret := "secret" |}
                   1700000000 42 get_request = Ret (inr _)) by reflexivity.
  split; [exact Hrun |].
  destruct (@RoundTrip_writes_signing_headers sample_crypto _ _ _ _ _ Hrun)
    as (_ & _ & Hm & _ & _ & _ & _ & _ & Hother).
  split; [exact Hm |].
  rewrite (Hother "Accept"); [reflexivity |].
  vm_compute. intuition discriminate.
Defined.

Lemma RoundTrip_stops_on_post_body_witness :
  Method bodiless_post = "POST"
  /\ GetBody bodiless_post = None
  /\ @RoundTrip sample_crypto {| t_AppKey := "key"; t_AppSecret := "secret" |}
       1700000000 42 bodiless_post = Panic NilPointerDereference.
Proof.
  split; [reflexivity |]. split; [reflexivity |].
  exact (proj1 (@RoundTrip_stops_on_post_body sample_crypto
                  {| t_AppKey := "key"; t_AppSecret := "secret" |}
                  1700000000 42 bodiless_post) eq_refl eq_refl).
Defined.

Lemma state_only_moves_forward_witness :
  (state active_ws <> websocketClientStateIdle -> conn active_ws <> None)
  /\ conn_steps [tick; CallClose None true (External "status 1000");
                 Loop LoopCtxDone] parked active_ws
     = Ret (not_running, torn_down (set_seqID 2 active_ws),
            [EFrame {| Version := 0; Operation := wsProtoOpHeartbeat;
                       SequenceID := 1; Body := [] |};
             ESend (encode {| Version := 0; Operation := wsProtoOpHeartbeat;
                              SequenceID := 1; Body := [] |});
             EConnClose; ELoopCancel; ETickerStop; EOnClose None;
             ELog LInfo "connection receive close message";
             EOnClose (Some (External "status 1000"))])
  /\ state (torn_down (set_seqID 2 active_ws)) = websocketClientStateIdle.
Proof.
  assert (Hlive : state active_ws <> websocketClientStateIdle ->
                  conn active_ws <> None) by (intros _; discriminate).
  split; [exact Hlive |].
  assert (Hrun : conn_steps [tick; CallClose None true (External "status 1000");
                             Loop LoopCtxDone] parked active_ws
                 = Ret (not_running, torn_down (set_seqID 2 active_ws),
            [EFrame {| Version := 0; Operation := wsProtoOpHeartbeat;
                       SequenceID := 1; Body := [] |};
             ESend (encode {| Version := 0; Operation := wsProtoOpHeartbeat;
                              SequenceID := 1; Body := [] |});
             EConnClose; ELoopCancel; ETickerStop; EOnClose None;
             ELog LInfo "connection receive close message";
             EOnClose (Some (External "status 1000"))]))
    by (vm_compute; reflexivity).
  split; [exact Hrun |].
  destruct (state_only_moves_forward _ _ _ _ _ _ Hlive Hrun)
    as [Hsame | [[Habs _] | Hidle]];
    [discriminate Hsame | discriminate Habs | exact Hidle].
Defined.

Section SendingProperties.
Context `{Json}.

(** X25.  A heartbeat tick on an Active connection builds one HEARTBEAT
    frame with an empty body and the current sequence ID, and advances
    the counter; when the transport takes the frame its 16 bytes are
    sent, and when no writer can be opened nothing is sent and a
    warning is logged, yet the sequence ID is spent all the same, so
    the frames that reach the transport may skip a number. *)
Theorem heartbeat_tick_when_active (c : liveWebsocketClient) :
  state c = websocketClientStateActive ->
  conn c <> None ->
  let hb := {| Version := 0; Operation := wsProtoOpHeartbeat;
               SequenceID := seqID c; Body := [] |} in
  (forall n, (6 <= n)%nat ->
     eventLoop_turn (HeartbeatTick (TxWriter n)) c
     = Ret (true, set_seqID (int32 (seqID c + 1)) c,
            [EFrame hb; ESend (encode hb)]))
  /\ length (encode hb) = 16%nat
  /\ (forall err,
     eventLoop_turn (HeartbeatTick (TxNoWriter err)) c
     = Ret (true, set_seqID (int32 (seqID c + 1)) c,
            [EFrame hb; ELog LWarn "heartbeat send fail"])).
Proof.
  intros Hst Hopen hb.
  assert (Hsend : forall t r tr,
            writeMsg hb t (set_seqID (int32 (seqID c + 1)) c)
            = Ret (r, set_seqID (int32 (seqID c + 1)) c, tr) ->
            sendHeartbeat t c
            = Ret (r, set_seqID (int32 (seqID c + 1)) c, EFrame hb :: tr)).
  { intros t r tr Hw. unfold sendHeartbeat.
    rewrite bind_field, Hst. cbn [state_eqb state_code Z.eqb Pos.eqb negb].
    rewrite (bind_run _ _ _ _ _ _ (createMsg_run _ _ _)).
    fold hb. now rewrite Hw. }
  split; [| split; [reflexivity |]].
  - intros n Hn. cbn [eventLoop_turn].
    assert (Hw : writeMsg hb (TxWriter n) (set_seqID (int32 (seqID c + 1)) c)
                 = Ret (None, set_seqID (int32 (seqID c + 1)) c,
                        [ESend (encode hb)])).
    { unfold writeMsg. rewrite bind_field. cbn [conn set_seqID].
      destruct (conn c) as [cn |]; [| congruence].
      rewrite (write_conn_writer n hb Hn). reflexivity. }
    rewrite (bind_run _ _ _ _ _ _ (Hsend _ _ _ Hw)). reflexivity.
  - intros err. cbn [eventLoop_turn].
    assert (Hw : writeMsg hb (TxNoWriter err)
                   (set_seqID (int32 (seqID c + 1)) c)
                 = Ret (Some (Wrapf "open writer fail: %w" err),
                        set_seqID (int32 (seqID c + 1)) c, [])).
    { unfold writeMsg. rewrite bind_field. cbn [conn set_seqID].
      destruct (conn c) as [cn |]; [| congruence]. reflexivity. }
    rewrite (bind_run _ _ _ _ _ _ (Hsend _ _ _ Hw)). reflexivity.
Qed.

(** X26.  When the dial succeeds but no writer can be opened for the
    AUTH frame, [connect] returns the error and tears nothing down: the
    transport stays open, the loops stay started, the state stays
    AwaitingAuth with sequence ID 0 spent, no close callback is called,
    and a second [connect] on the same connection is refused. *)
Theorem failed_auth_write_leaves_connection_open (c : liveWebsocketClient)
    (cn : Conn) (err : error) (d : dial_result) (t : tx) :
  state c = websocketClientStateIdle ->
  exists c',
    connect (DialOk cn) (TxNoWriter err) c
    = Ret (Some (Wrapf "send auth fail: %w"
                   (Wrapf "open writer fail: %w" err)),
           c',
           [EGo "readLoop"; EGo "eventLoop";
            EFrame {| Version := 0; Operation := wsProtoOpAuth;
                      SequenceID := 0;
                      Body := list_byte_of_string (authBody c) |}])
    /\ conn c' = Some cn
    /\ state c' = websocketClientStateAuth
    /\ loopCancel c' = true /\ heartbeatTicker c' = true
    /\ connect d t c'
       = Ret (Some (Errorf "websocket client state should be idle" []),
              c', []).
Proof.
  intros Hst. exists (connected cn c).
  split; [| repeat split].
  unfold connect. rewrite bind_field, Hst.
  cbn [state_eqb state_code Z.eqb negb]. act_step.
  assert (Hsend : forall c1,
            state c1 = websocketClientStateAuth -> conn c1 <> None ->
            sendAuth (TxNoWriter err) c1
            = Ret (Some (Wrapf "open writer fail: %w" err),
                   set_seqID (int32 (seqID c1 + 1)) c1,
                   [EFrame {| Version := 0; Operation := wsProtoOpAuth;
                              SequenceID := seqID c1;
                              Body := list_byte_of_string (authBody c1) |}])).
  { intros c1 Hs1 Hc1. unfold sendAuth.
    rewrite bind_field, Hs1. cbn [state_eqb state_code Z.eqb Pos.eqb negb].
    rewrite bind_field.
    rewrite (bind_run _ _ _ _ _ _ (createMsg_run _ _ _)).
    unfold writeMsg. rewrite bind_field. cbn [conn set_seqID].
    destruct (conn c1) as [cn' |]; [| congruence]. reflexivity. }
  match goal with
  | |- context [(sendAuth _ ≫= _) ?c1] =>
      rewrite (bind_run _ _ _ _ _ _
                 (Hsend c1 eq_refl ltac:(discriminate)))
  end.
  reflexivity.
Qed.

End SendingProperties.

Lemma heartbeat_tick_when_active_witness :
  state active_ws = websocketClientStateActive
  /\ conn active_ws <> None
  /\ eventLoop_turn (HeartbeatTick (TxNoWriter (External "closed"))) active_ws
     = Ret (true, set_seqID 2 active_ws,
            [EFrame {| Version := 0; Operation := wsProtoOpHeartbeat;
                       SequenceID := 1; Body := [] |};
             ELog LWarn "heartbeat send fail"]).
Proof.
  assert (Hopen : conn active_ws <> None) by discriminate.
  split; [reflexivity |]. split; [exact Hopen |].
  exact (proj2 (proj2 (heartbeat_tick_when_active active_ws eq_refl Hopen))
           (External "closed")).
Defined.

Lemma failed_auth_write_leaves_connection_open_witness :
  state fresh_ws = websocketClientStateIdle
  /\ exists c',
      connect (DialOk (Dialed "wss://example"))
        (TxNoWriter (External "closed")) fresh_ws
      = Ret (Some (Wrapf "send auth fail: %w"
                     (Wrapf "open writer fail: %w" (External "closed"))),
             c',
             [EGo "readLoop"; EGo "eventLoop";
              EFrame {| Version := 0; Operation := wsProtoOpAuth;
                        SequenceID := 0;
                        Body := list_byte_of_string "auth" |}])
      /\ conn c' = Some (Dialed "wss://example").
Proof.
  split; [reflexivity |].
  destruct (failed_auth_write_leaves_connection_open fresh_ws
              (Dialed "wss://example") (External "closed")
              (DialOk (Dialed "wss://example")) (TxWriter 6) eq_refl)
    as (c' & Hrun & Hconn & _).
  exists c'. split; [exact Hrun | exact Hconn].
Defined.
